(** * transformer_diffusion14: forward-pass wiring, conditioning dropout,
      initialisation and gradient scaling

    A shallow embedding of
    [codes/models/audio/music/transformer_diffusion14.py].

    Conventions.
    - Scalars are exact rationals ([Qc]); floating-point rounding of tensor
      values, NaN and infinities are outside the model.  The index
      arithmetic of the interpolation is single precision, as in the
      framework ([round_f32]).
    - A rank-3 tensor (batch, channel, position) is a nested list.  Its
      extents are read off the first element of each level, so a tensor with
      an empty batch is the empty list.
    - Python exceptions are the [Raise] case of [result]; the global random
      generator of the framework is threaded explicitly ([Rng]).
    - Device placement, dtype casts, autocast and activation checkpointing
      do not change values and are not modelled. *)

From Stdlib Require Import String Bool Arith Lia ZArith QArith Qcanon Qround List.
Import ListNotations.

Set Implicit Arguments.

(* ===================================================================== *)
(** ** Exceptions and the generator monad *)
(* ===================================================================== *)

Inductive exn : Type :=
| AttributeError
| ValueError
| AssertionError
| TypeError
| RuntimeError.

Inductive result (A : Type) : Type :=
| Ok (a : A)
| Raise (e : exn).

Arguments Ok {A} a.
Arguments Raise {A} e.

Definition rbind {A B} (r : result A) (k : A -> result B) : result B :=
  match r with
  | Ok a => k a
  | Raise e => Raise e
  end.

(** Collect a list of results, left to right; the first exception wins. *)
Fixpoint sequence {A} (l : list (result A)) : result (list A) :=
  match l with
  | [] => Ok []
  | r :: l' => rbind r (fun a => rbind (sequence l') (fun t => Ok (a :: t)))
  end.

(** The global generator: an infinite supply of uniform draws and a cursor. *)
Record Rng : Type := mkRng { stream : nat -> Qc; pos : nat }.

Definition advance (n : nat) (g : Rng) : Rng :=
  {| stream := stream g; pos := pos g + n |}.

Definition M (A : Type) : Type := Rng -> result (A * Rng).

Definition ret {A} (a : A) : M A := fun g => Ok (a, g).

Definition bind {A B} (c : M A) (k : A -> M B) : M B :=
  fun g => match c g with
           | Ok (a, g') => k a g'
           | Raise e => Raise e
           end.

Definition raise {A} (e : exn) : M A := fun _ => Raise e.

Definition lift {A} (r : result A) : M A :=
  fun g => match r with
           | Ok a => Ok (a, g)
           | Raise e => Raise e
           end.

Declare Scope gen_scope.
Delimit Scope gen_scope with gen.
Notation "x <- c ;; k" := (bind c (fun x => k))
  (at level 61, c at next level, right associativity) : gen_scope.
Notation "x <~ c ;; k" := (rbind c (fun x => k))
  (at level 61, c at next level, right associativity) : gen_scope.
Local Open Scope gen_scope.

Fixpoint mapM {A B} (f : A -> M B) (l : list A) : M (list B) :=
  match l with
  | [] => ret []
  | a :: l' => b <- f a ;; t <- mapM f l' ;; ret (b :: t)
  end.

(** One uniform draw. *)
Definition draw : M Qc :=
  fun g => Ok (stream g (pos g), advance 1 g).

(** [torch.rand((n, 1, 1))]: [n] consecutive draws. *)
Definition draws_of (g : Rng) (n : nat) : list Qc :=
  map (stream g) (seq (pos g) n).

Definition torch_rand (n : nat) : M (list Qc) :=
  fun g => Ok (draws_of g n, advance n g).

(* ===================================================================== *)
(** ** Scalars *)
(* ===================================================================== *)

(** Round half to even of [n / d], for [d > 0]. *)
Definition round_half_even (n d : Z) : Z :=
  let q := (n / d)%Z in
  let r := (n mod d)%Z in
  if (2 * r <? d)%Z then q
  else if (d <? 2 * r)%Z then (q + 1)%Z
  else if Z.even q then q else (q + 1)%Z.

(** The single-precision number nearest to [a / b] (24-bit significand,
    ties to even).  [a * 2^s / b] lies between [2^23] and [2^25]; it is
    rounded to a multiple of [unit].  The exponent is not bounded: tensor
    extents reach neither overflow nor subnormal numbers. *)
Definition round_f32_pos (a b : positive) : Q :=
  let e := (Z.log2 (Zpos a) - Z.log2 (Zpos b))%Z in
  let s := (24 - e)%Z in
  let num := (Zpos a * 2 ^ Z.max s 0)%Z in
  let den := (Zpos b * 2 ^ Z.max (- s) 0)%Z in
  let unit := if (2 ^ 24 * den <=? num)%Z then 2%Z else 1%Z in
  let m := round_half_even num (den * unit) in
  (m * unit * 2 ^ Z.max (- s) 0)%Z # Z.to_pos (2 ^ Z.max s 0).

(** [float(x)]. *)
Definition round_f32 (x : Q) : Q :=
  match Qnum x with
  | Z0 => 0%Q
  | Zpos a => round_f32_pos a (Qden x)
  | Zneg a => (- round_f32_pos a (Qden x))%Q
  end.

Definition f32_of_nat (n : nat) : Q := round_f32 (inject_Z (Z.of_nat n)).

Local Open Scope Qc_scope.

Definition Qcltb (a b : Qc) : bool :=
  match a ?= b with
  | Lt => true
  | _ => false
  end.

Definition Qcsum (l : list Qc) : Qc := fold_right Qcplus 0 l.

Definition Qc_of_nat (n : nat) : Qc := Q2Qc (inject_Z (Z.of_nat n)).

(* ===================================================================== *)
(** ** Tensors *)
(* ===================================================================== *)

Definition tensor1 (A : Type) : Type := list A.
Definition tensor2 (A : Type) : Type := list (list A).
Definition tensor3 (A : Type) : Type := list (list (list A)).

Definition Vec : Type := tensor1 Qc.
Definition Mat : Type := tensor2 Qc.
Definition Tensor3 : Type := tensor3 Qc.

(** [x.shape[0]], [x.shape[1]], [x.shape[-1]]. *)
Definition size0 {A} (x : tensor3 A) : nat := length x.
Definition size1 {A} (x : tensor3 A) : nat := length (hd [] x).
Definition size2 {A} (x : tensor3 A) : nat := length (hd [] (hd [] x)).

(** [x] is rectangular with extents [(B, C, L)]. *)
Definition is_shape {A} (B C L : nat) (x : tensor3 A) : bool :=
  (length x =? B)%nat
  && forallb (fun m => (length m =? C)%nat
                       && forallb (fun r => (length r =? L)%nat) m) x.

Definition zeros (B C L : nat) : Tensor3 :=
  repeat (repeat (repeat 0 L) C) B.

Definition all_zero (x : Tensor3) : Prop :=
  Forall (Forall (Forall (fun v => v = 0))) x.

Definition tmap {A B} (f : A -> B) (x : tensor3 A) : tensor3 B :=
  map (map (map f)) x.

Fixpoint map2 {A B C} (f : A -> B -> C) (l1 : list A) (l2 : list B) : list C :=
  match l1, l2 with
  | a :: l1', b :: l2' => f a b :: map2 f l1' l2'
  | _, _ => []
  end.

(** [torch.cat([a, b], dim=1)]: the other two extents must agree. *)
Definition cat_dim1 {A} (a b : tensor3 A) : result (tensor3 A) :=
  if (size0 a =? size0 b)%nat && (size2 a =? size2 b)%nat
  then Ok (map2 (@app (list A)) a b)
  else Raise RuntimeError.

(** [torch.cat([a, b], dim=-1)]. *)
Definition cat_dim2 {A} (a b : tensor3 A) : result (tensor3 A) :=
  if (size0 a =? size0 b)%nat && (size1 a =? size1 b)%nat
  then Ok (map2 (map2 (@app A)) a b)
  else Raise RuntimeError.

(** [x[:, :, n:]] and [x[:, n:]]; a Python slice never raises. *)
Definition slice_dim2_from {A} (n : nat) (x : tensor3 A) : tensor3 A :=
  map (map (skipn n)) x.

Definition slice_dim1_from {A} (n : nat) (x : tensor3 A) : tensor3 A :=
  map (skipn n) x.

(** Broadcasting of one dimension: equal extents are zipped, an extent of one
    is stretched, anything else raises. *)
Definition broadcast {A B C} (f : A -> B -> result C)
           (l1 : list A) (l2 : list B) : result (list C) :=
  if (length l1 =? length l2)%nat then sequence (map2 f l1 l2)
  else match l1, l2 with
       | [a], _ => sequence (map (f a) l2)
       | _, [b] => sequence (map (fun a => f a b) l1)
       | _, _ => Raise RuntimeError
       end.

Definition broadcast3 {A B C} (f : A -> B -> C)
  : tensor3 A -> tensor3 B -> result (tensor3 C) :=
  broadcast (broadcast (broadcast (fun a b => Ok (f a b)))).

(** [a + b] on tensors. *)
Definition tadd : Tensor3 -> Tensor3 -> result Tensor3 := broadcast3 Qcplus.

(** [t + s] for a zero-dimensional [s]. *)
Definition tadd_scalar (t : Tensor3) (s : Qc) : Tensor3 := tmap (fun v => v + s) t.

(** [torch.where(c, a, b)]: the three operands are broadcast together. *)
Definition torch_where {A} (c : tensor3 bool) (a b : tensor3 A) : result (tensor3 A) :=
  ca <~ broadcast3 pair c a ;;
  broadcast3 (fun (p : bool * A) (y : A) => if fst p then snd p else y) ca b.

(** [t.repeat(r0, r1, r2)] on a rank-3 tensor: tiling along each dimension. *)
Definition tile {A} (n : nat) (l : list A) : list A := concat (repeat l n).

Definition tensor_repeat {A} (r0 r1 r2 : nat) (t : tensor3 A) : tensor3 A :=
  tile r0 (map (fun m => tile r1 (map (tile r2) m)) t).

(** [F.interpolate(t, size=n, mode='nearest')]: with the single-precision
    [scale = float(len) / n], output position [i] reads input position
    [min(floor(i * scale), len - 1)], the product rounded to single
    precision as well.  (Where a kernel of the framework shortcuts
    [n = len] and [n = 2 * len] to [i] and [i / 2], the formula gives the
    same below [2^24] positions, see [nearest_index_pow2].) *)
Definition nearest_index (n len i : nat) : nat :=
  let scale := round_f32 (f32_of_nat len / f32_of_nat n) in
  Nat.min (Z.to_nat (Qfloor (round_f32 (f32_of_nat i * scale)))) (len - 1).

Definition nearest_row (n : nat) (r : Vec) : Vec :=
  map (fun i => nth (nearest_index n (length r) i) r 0) (seq 0 n).

(** The output size must be positive and the input must have a channel and
    a position; an empty batch gives an empty batch. *)
Definition interpolate_nearest (n : nat) (t : Tensor3) : result Tensor3 :=
  if (n =? 0)%nat then Raise RuntimeError
  else if (size0 t =? 0)%nat then Ok []
  else if (size2 t =? 0)%nat then Raise RuntimeError
  else Ok (map (map (nearest_row n)) t).

(** [t.mean()] over all elements. *)
Definition mean_list (l : list Qc) : Qc := Qcsum l / Qc_of_nat (length l).

Definition flatten3 {A} (t : tensor3 A) : list A := concat (concat t).

Definition tmean (t : Tensor3) : Qc := mean_list (flatten3 t).

(** [t.unsqueeze(-1)] on a matrix. *)
Definition unsqueeze_last {A} (m : tensor2 A) : tensor3 A :=
  map (map (fun v => [v])) m.

(* ===================================================================== *)
(** ** Parameters *)
(* ===================================================================== *)

(** An [nn.Parameter]: its value, the gradient left by the last backward
    pass (if any) and the two flags the constructor's freeze branch touches. *)
Record Param (T : Type) : Type := mkParam {
  data : T;
  grad : option T;
  requires_grad : bool;
  DO_NOT_TRAIN : option bool
}.

Definition new_parameter {T} (d : T) : Param T :=
  {| data := d; grad := None; requires_grad := true; DO_NOT_TRAIN := None |}.

(** A uniform action on parameters of every rank, used by loops over
    [module.parameters()]. *)
Definition param_map : Type := forall T : Type, Param T -> Param T.

Definition set_data {T} (d : T) (p : Param T) : Param T :=
  {| data := d; grad := grad p; requires_grad := requires_grad p;
     DO_NOT_TRAIN := DO_NOT_TRAIN p |}.

(** In-place multiplication of a tensor of any rank by a scalar. *)
Class Scalable (T : Type) : Type := scale : Qc -> T -> T.

#[global] Instance Scalable_Vec : Scalable Vec := fun q => map (fun v => v * q).
#[global] Instance Scalable_Mat : Scalable Mat := fun q => map (map (fun v => v * q)).
#[global] Instance Scalable_Tensor3 : Scalable Tensor3 := fun q => tmap (fun v => v * q).

(** [if p.grad is not None: p.grad *= q]. *)
Definition scale_grad {T} `{Scalable T} (q : Qc) (p : Param T) : Param T :=
  match grad p with
  | Some g => {| data := data p; grad := Some (scale q g);
                 requires_grad := requires_grad p;
                 DO_NOT_TRAIN := DO_NOT_TRAIN p |}
  | None => p
  end.

(** Fresh tensors filled from the generator ([torch.randn] and the default
    initialisers; only the fact that values are drawn is modelled). *)
Definition fresh1 (n : nat) : M Vec := mapM (fun _ => draw) (seq 0 n).
Definition fresh2 (r c : nat) : M Mat := mapM (fun _ => fresh1 c) (seq 0 r).
Definition fresh3 (b c l : nat) : M Tensor3 := mapM (fun _ => fresh2 c l) (seq 0 b).

(** Modelled from the spec: [checkpoint] ([utils.util], not under [src/]) is
    the framework's memory-efficient checkpointing; the value it returns is
    that of [f] applied to its arguments. *)
Definition checkpoint {A B} (f : A -> B) : A -> B := f.

(* ===================================================================== *)
(** ** nn.Conv1d *)
(* ===================================================================== *)

Module Conv1d.

(** The module keeps its geometry next to its parameters; [weight] has
    shape (out_channels, in_channels, kernel_size) and the stride is 1. *)
Record t : Type := mk {
  in_channels : nat;
  out_channels : nat;
  kernel_size : nat;
  padding : nat;
  weight : Param Tensor3;
  bias : option (Param Vec)
}.

(** [nn.Conv1d(in_channels, out_channels, kernel_size, padding=..., bias=...)]. *)
Definition init (cin cout k pad : nat) (with_bias : bool) : M t :=
  w <- fresh3 cout cin k ;;
  b <- (if with_bias then v <- fresh1 cout ;; ret (Some (new_parameter v))
        else ret None) ;;
  ret {| in_channels := cin; out_channels := cout; kernel_size := k;
         padding := pad; weight := new_parameter w; bias := b |}.

(** Position [i] of a row zero-padded by [pad] on both sides. *)
Definition padded_nth (pad : nat) (r : Vec) (i : nat) : Qc :=
  if (i <? pad)%nat then 0 else nth (i - pad) r 0.

Definition weight_at (c : t) (o i j : nat) : Qc :=
  nth j (nth i (nth o (data (weight c)) []) []) 0.

Definition bias_at (c : t) (o : nat) : Qc :=
  match bias c with
  | Some b => nth o (data b) 0
  | None => 0
  end.

(** Value of output channel [o] at position [s]. *)
Definition conv_at (c : t) (m : Mat) (o s : nat) : Qc :=
  Qcsum (map (fun i =>
                Qcsum (map (fun j => weight_at c o i j
                                     * padded_nth (padding c) (nth i m []) (s + j))
                           (seq 0 (kernel_size c))))
             (seq 0 (in_channels c))).

(** One batch element.  The channel count must be [in_channels] and the
    padded input must be at least as long as the kernel. *)
Definition forward_elem (c : t) (m : Mat) : result Mat :=
  let len := length (hd [] m) in
  if negb (length m =? in_channels c)%nat then Raise RuntimeError
  else if (len + 2 * padding c <? kernel_size c)%nat then Raise RuntimeError
  else Ok (map (fun o =>
                  map (fun s => bias_at c o + conv_at c m o s)
                      (seq 0 (len + 2 * padding c - kernel_size c + 1)))
               (seq 0 (out_channels c))).

Definition forward (c : t) (x : Tensor3) : result Tensor3 :=
  sequence (map (forward_elem c) x).

Definition set_params (w : Param Tensor3) (b : option (Param Vec)) (c : t) : t :=
  {| in_channels := in_channels c; out_channels := out_channels c;
     kernel_size := kernel_size c; padding := padding c;
     weight := w; bias := b |}.

Definition map_parameters (f : param_map) (c : t) : t :=
  set_params (f _ (weight c)) (option_map (f _) (bias c)) c.

(** [conv.parameters()]: the weight, then the bias when there is one. *)
Inductive param_name : Type := weight_ref | bias_ref.

Definition parameters (c : t) : list param_name :=
  weight_ref :: match bias c with
                | Some _ => [bias_ref]
                | None => []
                end.

Definition scale_grad_at (q : Qc) (n : param_name) (c : t) : t :=
  match n with
  | weight_ref => set_params (scale_grad q (weight c)) (bias c) c
  | bias_ref => set_params (weight c) (option_map (scale_grad q) (bias c)) c
  end.

(** [conv.weight.data.zero_()]. *)
Definition zero_weight (c : t) : t :=
  set_params (set_data (tmap (fun _ => 0) (data (weight c))) (weight c)) (bias c) c.

End Conv1d.

(** Modelled from the spec: [conv_nd] ([models.diffusion.nn], not under
    [src/]) builds the framework's convolution; with [dims = 1] it is
    [nn.Conv1d(in, out, kernel, stride, padding)], here with stride 1. *)
Definition conv_nd (cin cout k pad : nat) : M Conv1d.t :=
  Conv1d.init cin cout k pad true.

(* ===================================================================== *)
(** ** Framework primitives whose code is not part of this file *)
(* ===================================================================== *)

(** The transcendental kernels and the modules imported from
    [models.arch_util], [models.diffusion.nn] and
    [models.audio.music.encoders].  Only their interfaces and shape
    contracts are used. *)
Class Framework : Type := {
  rsqrt : Qc -> Qc;
  silu : Qc -> Qc;
  gelu : Qc -> Qc;
  (** [timestep_embedding(timesteps, dim)]: one row of [dim] features per
      timestep. *)
  timestep_embedding : list Z -> nat -> Mat;
  (** [build_local_attention_mask(n, l, fixed_region)]. *)
  Mask : Type;
  build_local_attention_mask : nat -> nat -> nat -> Mask;
  (** [AttentionBlock(channels, out_channels=..., num_heads=...)]. *)
  AttentionBlock : Type;
  AttentionBlock_init : nat -> nat -> nat -> M AttentionBlock;
  AttentionBlock_out_channels : AttentionBlock -> nat;
  AttentionBlock_forward : AttentionBlock -> Tensor3 -> option Mask -> result Tensor3;
  AttentionBlock_map_parameters : param_map -> AttentionBlock -> AttentionBlock;
  (** Attention maps [(B, C, T)] to [(B, out_channels, T)]. *)
  AttentionBlock_shape :
    forall a x mask y B C T,
      is_shape B C T x = true ->
      AttentionBlock_forward a x mask = Ok y ->
      is_shape B (AttentionBlock_out_channels a) T y = true;
  (** [normalization(channels)]. *)
  Normalization : Type;
  normalization : nat -> result Normalization;
  Normalization_forward : Normalization -> Tensor3 -> result Tensor3;
  Normalization_map_parameters : param_map -> Normalization -> Normalization;
  Normalization_shape :
    forall n x y B C T,
      is_shape B C T x = true ->
      Normalization_forward n x = Ok y ->
      is_shape B C T y = true;
  (** [ResEncoder16x(spec_dim, hidden_dim, embedding_dim, checkpointing_enabled=...)]. *)
  ResEncoder16x : Type;
  ResEncoder16x_init : nat -> nat -> nat -> bool -> M ResEncoder16x;
  ResEncoder16x_forward : ResEncoder16x -> Tensor3 -> M Tensor3;
  (** [list(encoder.parameters())], each parameter flattened. *)
  ResEncoder16x_parameters : ResEncoder16x -> list (Param Vec);
  (** [zero_module(module)], applied to a convolution: the module it is
      given, with its parameters reset.  What it resets them to is not
      assumed; the module keeps its geometry. *)
  zero_module : Conv1d.t -> Conv1d.t;
  zero_module_geometry :
    forall c,
      Conv1d.in_channels (zero_module c) = Conv1d.in_channels c
      /\ Conv1d.out_channels (zero_module c) = Conv1d.out_channels c
      /\ Conv1d.kernel_size (zero_module c) = Conv1d.kernel_size c
      /\ Conv1d.padding (zero_module c) = Conv1d.padding c
}.

(* ===================================================================== *)
(** ** nn.GroupNorm, nn.Dropout, nn.Linear *)
(* ===================================================================== *)

Module GroupNorm.

Record t : Type := mk {
  num_groups : nat;
  num_channels : nat;
  eps : Qc;
  weight : Param Vec;
  bias : Param Vec
}.

(** [nn.GroupNorm(num_groups, num_channels)]: raises [ValueError] unless the
    channel count is a multiple of the group count; the affine weight starts
    at one and the bias at zero. *)
Definition init (g c : nat) : result t :=
  if (c mod g =? 0)%nat
  then Ok {| num_groups := g; num_channels := c;
             eps := Q2Qc (1 # 100000);
             weight := new_parameter (repeat 1 c);
             bias := new_parameter (repeat 0 c) |}
  else Raise ValueError.

Section Forward.
Context {F : Framework}.

(** One batch element: every channel is normalised with the mean and the
    (biased) variance of its group of consecutive channels, then scaled
    and shifted per channel. *)
Definition forward_elem (n : t) (m : Mat) : result Mat :=
  if negb (length m =? num_channels n)%nat then Raise RuntimeError
  else
    let gs := (num_channels n / num_groups n)%nat in
    Ok (map2 (fun c (r : Vec) =>
                let grp := concat (firstn gs (skipn (c / gs * gs) m)) in
                let mu := mean_list grp in
                let var := mean_list (map (fun v => (v - mu) * (v - mu)) grp) in
                map (fun v => (v - mu) * rsqrt (var + eps n)
                              * nth c (data (weight n)) 0
                              + nth c (data (bias n)) 0) r)
             (seq 0 (length m)) m).

(** [F.group_norm] first checks the size of its input: it raises
    [ValueError] ("expected more than 1 value per channel") when
    [x.size(0) * x.size(1) // num_groups] times the length of [x] is one.
    The channel count is checked after that. *)
Definition forward (n : t) (x : Tensor3) : result Tensor3 :=
  if (size0 x * size1 x / num_groups n * size2 x =? 1)%nat
  then Raise ValueError
  else sequence (map (forward_elem n) x).
End Forward.

Definition map_parameters (f : param_map) (n : t) : t :=
  {| num_groups := num_groups n; num_channels := num_channels n; eps := eps n;
     weight := f _ (weight n); bias := f _ (bias n) |}.

(** [norm.parameters()]: the affine weight and bias. *)
Inductive param_name : Type := weight_ref | bias_ref.

Definition parameters (n : t) : list param_name := [weight_ref; bias_ref].

Definition scale_grad_at (q : Qc) (r : param_name) (n : t) : t :=
  match r with
  | weight_ref => {| num_groups := num_groups n; num_channels := num_channels n;
                     eps := eps n;
                     weight := scale_grad q (weight n); bias := bias n |}
  | bias_ref => {| num_groups := num_groups n; num_channels := num_channels n;
                   eps := eps n;
                   weight := weight n; bias := scale_grad q (bias n) |}
  end.

End GroupNorm.

Module Dropout.

Record t : Type := mk { p : Qc; training : bool }.

(** [nn.Dropout(p)]: raises [ValueError] unless [0 <= p <= 1]; a fresh
    module is in training mode. *)
Definition init (q : Qc) : result t :=
  if Qcltb q 0 || Qcltb 1 q then Raise ValueError
  else Ok {| p := q; training := true |}.

(** In training mode each element is zeroed with probability [p] and the
    survivors are scaled by [1 / (1 - p)]; otherwise the input is returned
    as it is.  No draw is made when [p] is zero or one. *)
Definition forward (d : t) (x : Tensor3) : M Tensor3 :=
  if training d && Qcltb 0 (p d) then
    if Qcltb (p d) 1 then
      mapM (mapM (mapM (fun v => u <- draw ;;
                                 ret (if Qcltb u (p d) then 0 else v / (1 - p d))))) x
    else ret (tmap (fun _ => 0) x)
  else ret x.

Definition eval (d : t) : t := {| p := p d; training := false |}.

End Dropout.

Module Linear.

(** [weight] has shape (out_features, in_features). *)
Record t : Type := mk {
  in_features : nat;
  out_features : nat;
  weight : Param Mat;
  bias : Param Vec
}.

Definition init (fin fout : nat) : M t :=
  w <- fresh2 fout fin ;;
  b <- fresh1 fout ;;
  ret {| in_features := fin; out_features := fout;
         weight := new_parameter w; bias := new_parameter b |}.

Definition forward_row (l : t) (r : Vec) : result Vec :=
  if negb (length r =? in_features l)%nat then Raise RuntimeError
  else Ok (map (fun o => Qcsum (map2 Qcmult (nth o (data (weight l)) []) r)
                         + nth o (data (bias l)) 0)
               (seq 0 (out_features l))).

Definition forward (l : t) (x : Mat) : result Mat :=
  sequence (map (forward_row l) x).

Definition map_parameters (f : param_map) (l : t) : t :=
  {| in_features := in_features l; out_features := out_features l;
     weight := f _ (weight l); bias := f _ (bias l) |}.

End Linear.

(** Modelled from the spec: [linear] ([models.diffusion.nn], not under
    [src/]) builds the framework's linear layer [nn.Linear(in, out)]. *)
Definition linear (fin fout : nat) : M Linear.t := Linear.init fin fout.

(* ===================================================================== *)
(** ** SubBlock *)
(* ===================================================================== *)

Module SubBlock.
Section Defs.
Context {F : Framework}.

Record t : Type := mk {
  enable_attention_masking : bool;
  dropout : Dropout.t;
  blk_emb_proj : Conv1d.t;
  attn : AttentionBlock;
  attnorm : GroupNorm.t;
  ff : Conv1d.t;
  ffnorm : GroupNorm.t;
  mask : option Mask
}.

(** [SubBlock.__init__(inp_dim, contraction_dim, blk_dim, heads, dropout,
    enable_attention_masking)]. *)
Definition init (inp_dim contraction_dim blk_dim heads : nat) (dropout_p : Qc)
           (masking : bool) : M t :=
  d <- lift (Dropout.init dropout_p) ;;
  proj <- Conv1d.init blk_dim inp_dim 1 0 true ;;
  a <- AttentionBlock_init inp_dim contraction_dim heads ;;
  an <- lift (GroupNorm.init 8 contraction_dim) ;;
  f <- Conv1d.init (inp_dim + contraction_dim) contraction_dim 3 1 true ;;
  fn <- lift (GroupNorm.init 8 contraction_dim) ;;
  ret {| enable_attention_masking := masking;
         dropout := d;
         blk_emb_proj := proj;
         attn := a;
         attnorm := an;
         ff := f;
         ffnorm := fn;
         mask := if masking
                 then Some (build_local_attention_mask 4000 48 1)
                 else None |}.

(** The tensor handed to the attention block:
    [torch.cat([self.blk_emb_proj(blk_emb), x], dim=-1)]. *)
Definition attn_input (sb : t) (x blk_emb : Tensor3) : result Tensor3 :=
  blk_enc <~ Conv1d.forward (blk_emb_proj sb) blk_emb ;;
  cat_dim2 blk_enc x.

(** The attention branch up to the slice that removes the block
    embedding: the value of [ah] after
    [ah = ah[:,:,blk_emb.shape[-1]:]]. *)
Definition attn_branch (sb : t) (x blk_emb : Tensor3) : M Tensor3 :=
  inp <- lift (attn_input sb x blk_emb) ;;
  a <- lift (AttentionBlock_forward (attn sb) inp (mask sb)) ;;
  ah <- Dropout.forward (dropout sb) a ;;
  ret (slice_dim2_from (size2 blk_emb) ah).

Definition forward (sb : t) (x blk_emb : Tensor3) : M Tensor3 :=
  ah <- attn_branch sb x blk_emb ;;
  ahn <- lift (GroupNorm.forward (attnorm sb) ah) ;;
  h <- lift (cat_dim1 (tmap gelu ahn) x) ;;
  f <- lift (checkpoint (Conv1d.forward (ff sb)) h) ;;
  hf <- Dropout.forward (dropout sb) f ;;
  hfn <- lift (GroupNorm.forward (ffnorm sb) hf) ;;
  lift (cat_dim1 h (tmap gelu hfn)).

Definition map_parameters (f : param_map) (sb : t) : t :=
  {| enable_attention_masking := enable_attention_masking sb;
     dropout := dropout sb;
     blk_emb_proj := Conv1d.map_parameters f (blk_emb_proj sb);
     attn := AttentionBlock_map_parameters f (attn sb);
     attnorm := GroupNorm.map_parameters f (attnorm sb);
     ff := Conv1d.map_parameters f (ff sb);
     ffnorm := GroupNorm.map_parameters f (ffnorm sb);
     mask := mask sb |}.

Definition eval (sb : t) : t :=
  {| enable_attention_masking := enable_attention_masking sb;
     dropout := Dropout.eval (dropout sb);
     blk_emb_proj := blk_emb_proj sb;
     attn := attn sb;
     attnorm := attnorm sb;
     ff := ff sb;
     ffnorm := ffnorm sb;
     mask := mask sb |}.
End Defs.
End SubBlock.

(* ===================================================================== *)
(** ** ConcatAttentionBlock *)
(* ===================================================================== *)

Module ConcatAttentionBlock.
Section Defs.
Context {F : Framework}.

Record t : Type := mk {
  prenorm : GroupNorm.t;
  block1 : SubBlock.t;
  block2 : SubBlock.t;
  out : Conv1d.t
}.

(** [ConcatAttentionBlock.__init__(trunk_dim, contraction_dim, heads,
    dropout, enable_attention_masking)]; the last line zeroes the weight
    of the bias-free [out] convolution. *)
Definition init (trunk_dim contraction_dim heads : nat) (dropout_p : Qc)
           (masking : bool) : M t :=
  pn <- lift (GroupNorm.init 8 trunk_dim) ;;
  b1 <- SubBlock.init trunk_dim contraction_dim trunk_dim heads dropout_p masking ;;
  b2 <- SubBlock.init (trunk_dim + contraction_dim * 2) contraction_dim trunk_dim
                      heads dropout_p masking ;;
  o <- Conv1d.init (contraction_dim * 4) trunk_dim 1 0 false ;;
  ret {| prenorm := pn; block1 := b1; block2 := b2;
         out := Conv1d.zero_weight o |}.

Definition forward (blk : t) (x blk_emb : Tensor3) : M Tensor3 :=
  h <- lift (GroupNorm.forward (prenorm blk) x) ;;
  h <- SubBlock.forward (block1 blk) h blk_emb ;;
  h <- SubBlock.forward (block2 blk) h blk_emb ;;
  h <- lift (Conv1d.forward (out blk) (slice_dim1_from (size1 x) h)) ;;
  lift (tadd h x).

Definition map_parameters (f : param_map) (blk : t) : t :=
  {| prenorm := GroupNorm.map_parameters f (prenorm blk);
     block1 := SubBlock.map_parameters f (block1 blk);
     block2 := SubBlock.map_parameters f (block2 blk);
     out := Conv1d.map_parameters f (out blk) |}.

(** The parameter objects [before_step] collects from a block. *)
Inductive param_ref : Type :=
| out_param (n : Conv1d.param_name)
| prenorm_param (n : GroupNorm.param_name).

Definition scale_grad_at (q : Qc) (r : param_ref) (blk : t) : t :=
  match r with
  | out_param n =>
      {| prenorm := prenorm blk; block1 := block1 blk; block2 := block2 blk;
         out := Conv1d.scale_grad_at q n (out blk) |}
  | prenorm_param n =>
      {| prenorm := GroupNorm.scale_grad_at q n (prenorm blk);
         block1 := block1 blk; block2 := block2 blk; out := out blk |}
  end.

Definition eval (blk : t) : t :=
  {| prenorm := prenorm blk;
     block1 := SubBlock.eval (block1 blk);
     block2 := SubBlock.eval (block2 blk);
     out := out blk |}.
End Defs.
End ConcatAttentionBlock.

(* ===================================================================== *)
(** ** TransformerDiffusion *)
(* ===================================================================== *)

Module TransformerDiffusion.
Section Defs.
Context {F : Framework}.

(** Keyword arguments of the constructor. *)
Record kwargs : Type := mk_kwargs {
  kw_time_embed_dim : nat;
  kw_model_channels : nat;
  kw_contraction_dim : nat;
  kw_num_layers : nat;
  kw_in_channels : nat;
  kw_input_vec_dim : nat;
  kw_out_channels : nat;
  kw_num_heads : nat;
  kw_dropout : Qc;
  kw_use_corner_alignment : bool;
  kw_use_fp16 : bool;
  kw_new_code_expansion : bool;
  kw_unconditioned_percentage : Qc;
  kw_freeze_except_code_converters : bool
}.

Definition default_kwargs : kwargs :=
  {| kw_time_embed_dim := 256;
     kw_model_channels := 1024;
     kw_contraction_dim := 256;
     kw_num_layers := 8;
     kw_in_channels := 256;
     kw_input_vec_dim := 1024;
     kw_out_channels := 512;
     kw_num_heads := 4;
     kw_dropout := 0;
     kw_use_corner_alignment := false;
     kw_use_fp16 := false;
     kw_new_code_expansion := false;
     kw_unconditioned_percentage := Q2Qc (1 # 10);
     kw_freeze_except_code_converters := false |}.

(** [nn.Sequential(linear, nn.SiLU(), linear)]. *)
Record time_embed_t : Type := mk_time_embed {
  te_fc0 : Linear.t;
  te_fc2 : Linear.t
}.

(** [nn.Sequential(normalization, nn.SiLU(), zero_module(conv))]. *)
Record out_t : Type := mk_out {
  out_norm : Normalization;
  out_conv : Conv1d.t
}.

Record t : Type := mk {
  training : bool;
  in_channels : nat;
  model_channels : nat;
  time_embed_dim : nat;
  out_channels : nat;
  dropout : Qc;
  unconditioned_percentage : Qc;
  enable_fp16 : bool;
  new_code_expansion : bool;
  use_corner_alignment : bool;
  inp_block : Conv1d.t;
  time_embed : time_embed_t;
  input_converter : Conv1d.t;
  unconditioned_embedding : Param Tensor3;
  intg : Conv1d.t;
  layers : list ConcatAttentionBlock.t;
  out : out_t
}.

(** *** Attribute lookup *)

(** The sub-modules registered on the object, under the names the
    constructor assigns them. *)
Inductive submodule : Type :=
| inp_block_ref
| time_embed_ref
| input_converter_ref
| intg_ref
| layers_ref
| out_ref.

Definition registered_modules : list (string * submodule) :=
  [ ("inp_block"%string, inp_block_ref);
    ("time_embed"%string, time_embed_ref);
    ("input_converter"%string, input_converter_ref);
    ("intg"%string, intg_ref);
    ("layers"%string, layers_ref);
    ("out"%string, out_ref) ].

Fixpoint lookup {V} (name : string) (l : list (string * V)) : option V :=
  match l with
  | [] => None
  | (k, v) :: l' => if String.eqb name k then Some v else lookup name l'
  end.

(** [self.<name>] for a module-valued attribute: a name that was never
    assigned raises [AttributeError]. *)
Definition getattr_module (name : string) : result submodule :=
  match lookup name registered_modules with
  | Some r => Ok r
  | None => Raise AttributeError
  end.

(** Truth value of a module: containers are false when empty. *)
Definition truthy (self : t) (r : submodule) : bool :=
  match r with
  | layers_ref => negb (length (layers self) =? 0)%nat
  | _ => true
  end.

(** Python's [a and b]: [b] is evaluated only when [a] is true. *)
Definition py_and (self : t) (a b : result submodule) : result submodule :=
  x <~ a ;; if truthy self x then b else Ok x.

(** *** Loops over parameters *)

Definition map_time_embed (f : param_map) (te : time_embed_t) : time_embed_t :=
  {| te_fc0 := Linear.map_parameters f (te_fc0 te);
     te_fc2 := Linear.map_parameters f (te_fc2 te) |}.

Definition map_out (f : param_map) (o : out_t) : out_t :=
  {| out_norm := Normalization_map_parameters f (out_norm o);
     out_conv := Conv1d.map_parameters f (out_conv o) |}.

(** Apply [f] to the parameters selected by [sel]; [None] selects every
    parameter of the model, [Some r] those of sub-module [r]. *)
Definition map_parameters_of (sel : option submodule) (f : param_map) (self : t) : t :=
  let on (r : submodule) {X} (g : X -> X) (v : X) : X :=
    match sel with
    | None => g v
    | Some r' => match r, r' with
                 | inp_block_ref, inp_block_ref
                 | time_embed_ref, time_embed_ref
                 | input_converter_ref, input_converter_ref
                 | intg_ref, intg_ref
                 | layers_ref, layers_ref
                 | out_ref, out_ref => g v
                 | _, _ => v
                 end
    end in
  {| training := training self;
     in_channels := in_channels self;
     model_channels := model_channels self;
     time_embed_dim := time_embed_dim self;
     out_channels := out_channels self;
     dropout := dropout self;
     unconditioned_percentage := unconditioned_percentage self;
     enable_fp16 := enable_fp16 self;
     new_code_expansion := new_code_expansion self;
     use_corner_alignment := use_corner_alignment self;
     inp_block := on inp_block_ref (Conv1d.map_parameters f) (inp_block self);
     time_embed := on time_embed_ref (map_time_embed f) (time_embed self);
     input_converter :=
       on input_converter_ref (Conv1d.map_parameters f) (input_converter self);
     unconditioned_embedding :=
       match sel with
       | None => f _ (unconditioned_embedding self)
       | Some _ => unconditioned_embedding self
       end;
     intg := on intg_ref (Conv1d.map_parameters f) (intg self);
     layers := on layers_ref (map (ConcatAttentionBlock.map_parameters f)) (layers self);
     out := on out_ref (map_out f) (out self) |}.

(** [p.DO_NOT_TRAIN = True; p.requires_grad = False]. *)
Definition freeze_param : param_map :=
  fun T p => {| data := data p; grad := grad p;
                requires_grad := false; DO_NOT_TRAIN := Some true |}.

(** [del p.DO_NOT_TRAIN; p.requires_grad = True]. *)
Definition unfreeze_param : param_map :=
  fun T p => {| data := data p; grad := grad p;
                requires_grad := true; DO_NOT_TRAIN := None |}.

(** *** Constructor *)

(** Lines 89-117: the attributes and sub-modules, in the order the
    constructor assigns them. *)
Definition build (kw : kwargs) : M t :=
  ib <- conv_nd (kw_in_channels kw) (kw_model_channels kw) 3 1 ;;
  fc0 <- linear (kw_time_embed_dim kw) (kw_time_embed_dim kw) ;;
  fc2 <- linear (kw_time_embed_dim kw) (kw_model_channels kw) ;;
  ic <- Conv1d.init (kw_input_vec_dim kw) (kw_model_channels kw) 1 0 true ;;
  ue <- fresh3 1 (kw_model_channels kw) 1 ;;
  ig <- Conv1d.init (kw_model_channels kw * 2) (kw_model_channels kw) 1 0 true ;;
  ls <- mapM (fun _ => ConcatAttentionBlock.init
                         (kw_model_channels kw) (kw_contraction_dim kw)
                         (kw_num_heads kw) (kw_dropout kw) true)
             (seq 0 (kw_num_layers kw)) ;;
  nm <- lift (normalization (kw_model_channels kw)) ;;
  oc <- conv_nd (kw_model_channels kw) (kw_out_channels kw) 3 1 ;;
  ret {| training := true;
         in_channels := kw_in_channels kw;
         model_channels := kw_model_channels kw;
         time_embed_dim := kw_time_embed_dim kw;
         out_channels := kw_out_channels kw;
         dropout := kw_dropout kw;
         unconditioned_percentage := kw_unconditioned_percentage kw;
         enable_fp16 := kw_use_fp16 kw;
         new_code_expansion := kw_new_code_expansion kw;
         use_corner_alignment := kw_use_corner_alignment kw;
         inp_block := ib;
         time_embed := {| te_fc0 := fc0; te_fc2 := fc2 |};
         input_converter := ic;
         unconditioned_embedding := new_parameter ue;
         intg := ig;
         layers := ls;
         out := {| out_norm := nm; out_conv := zero_module oc |} |}.

(** Lines 119-126: the branch taken when
    [freeze_except_code_converters] is set. *)
Definition freeze_branch (self : t) : result t :=
  let self := map_parameters_of None freeze_param self in
  m <~ py_and self (getattr_module "code_converter")
                   (getattr_module "input_converter") ;;
  Ok (fold_left (fun s r => map_parameters_of (Some r) unfreeze_param s) [m] self).

Definition init (kw : kwargs) : M t :=
  self <- build kw ;;
  if kw_freeze_except_code_converters kw
  then lift (freeze_branch self)
  else ret self.

(** *** Forward pass *)

(** Lines 151-163: the conditioning embedding [code_emb]. *)
Definition code_embedding (self : t) (x : Tensor3) (prior : option Tensor3)
           (conditioning_free : bool) : M Tensor3 :=
  if conditioning_free then
    ret (tensor_repeat (size0 x) 1 (size2 x) (data (unconditioned_embedding self)))
  else
    pr <- lift (match prior with
                | Some pr => Ok pr
                | None => Raise TypeError
                end) ;;
    code_emb <- lift (Conv1d.forward (input_converter self) pr) ;;
    code_emb <-
      (if training self && Qcltb 0 (unconditioned_percentage self) then
         u <- torch_rand (size0 code_emb) ;;
         let unconditioned_batches : tensor3 bool :=
           map (fun d => [[Qcltb d (unconditioned_percentage self)]]) u in
         lift (torch_where unconditioned_batches
                 (tensor_repeat (size0 x) 1 1 (data (unconditioned_embedding self)))
                 code_emb)
       else ret code_emb) ;;
    lift (interpolate_nearest (size2 x) code_emb).

Definition time_embed_forward (te : time_embed_t) (e : Mat) : result Mat :=
  h <~ Linear.forward (te_fc0 te) e ;;
  Linear.forward (te_fc2 te) (map (map silu) h).

Definition out_forward (o : out_t) (x : Tensor3) : result Tensor3 :=
  h <~ Normalization_forward (out_norm o) x ;;
  Conv1d.forward (out_conv o) (tmap silu h).

(** [for layer in self.layers: x = checkpoint(layer, x, blk_emb)]. *)
Fixpoint run_layers (ls : list ConcatAttentionBlock.t) (x blk_emb : Tensor3)
  : M Tensor3 :=
  match ls with
  | [] => ret x
  | layer :: ls' =>
      x' <- checkpoint (ConcatAttentionBlock.forward layer) x blk_emb ;;
      run_layers ls' x' blk_emb
  end.

(** Lines 165-171: the trunk, from the input convolution through the
    stack of blocks. *)
Definition trunk (self : t) (x : Tensor3) (timesteps : list Z) (code_emb : Tensor3)
  : M Tensor3 :=
  te <- lift (time_embed_forward (time_embed self)
                (timestep_embedding timesteps (time_embed_dim self))) ;;
  let blk_emb := unsqueeze_last te in
  x <- lift (Conv1d.forward (inp_block self) x) ;;
  xc <- lift (cat_dim1 x code_emb) ;;
  x <- lift (Conv1d.forward (intg self) xc) ;;
  run_layers (layers self) x blk_emb.

(** Lines 150-174: the value of [out] right after [out = self.out(x)]. *)
Definition out_head_output (self : t) (x : Tensor3) (timesteps : list Z)
           (prior : option Tensor3) (conditioning_free : bool) : M Tensor3 :=
  code_emb <- code_embedding self x prior conditioning_free ;;
  h <- trunk self x timesteps code_emb ;;
  lift (out_forward (out self) h).

Definition forward (self : t) (x : Tensor3) (timesteps : list Z)
           (prior : option Tensor3) (conditioning_free : bool) : M Tensor3 :=
  o <- out_head_output self x timesteps prior conditioning_free ;;
  let unused_params := [unconditioned_embedding self] in
  let extraneous_addition :=
    fold_left (fun acc p => acc + tmean (data p)) unused_params 0 in
  ret (tadd_scalar o (extraneous_addition * 0)).

(** [self.eval()]: clears the training flag of the module and of every
    sub-module that has one. *)
Definition eval (self : t) : t :=
  {| training := false;
     in_channels := in_channels self;
     model_channels := model_channels self;
     time_embed_dim := time_embed_dim self;
     out_channels := out_channels self;
     dropout := dropout self;
     unconditioned_percentage := unconditioned_percentage self;
     enable_fp16 := enable_fp16 self;
     new_code_expansion := new_code_expansion self;
     use_corner_alignment := use_corner_alignment self;
     inp_block := inp_block self;
     time_embed := time_embed self;
     input_converter := input_converter self;
     unconditioned_embedding := unconditioned_embedding self;
     intg := intg self;
     layers := map ConcatAttentionBlock.eval (layers self);
     out := out self |}.

Definition set_layers (ls : list ConcatAttentionBlock.t) (self : t) : t :=
  {| training := training self;
     in_channels := in_channels self;
     model_channels := model_channels self;
     time_embed_dim := time_embed_dim self;
     out_channels := out_channels self;
     dropout := dropout self;
     unconditioned_percentage := unconditioned_percentage self;
     enable_fp16 := enable_fp16 self;
     new_code_expansion := new_code_expansion self;
     use_corner_alignment := use_corner_alignment self;
     inp_block := inp_block self;
     time_embed := time_embed self;
     input_converter := input_converter self;
     unconditioned_embedding := unconditioned_embedding self;
     intg := intg self;
     layers := ls;
     out := out self |}.
End Defs.
End TransformerDiffusion.

(* ===================================================================== *)
(** ** TransformerDiffusionWithCheaterLatent *)
(* ===================================================================== *)

(** [l[i] = f(l[i])]; nothing happens when [i] is out of range. *)
Fixpoint update_nth {A} (i : nat) (f : A -> A) (l : list A) : list A :=
  match l, i with
  | [], _ => []
  | a :: l', O => f a :: l'
  | a :: l', S i' => a :: update_nth i' f l'
  end.

Module TransformerDiffusionWithCheaterLatent.
Section Defs.
Context {F : Framework}.

Record t : Type := mk {
  internal_step : Z;
  freeze_encoder_until : option Z;
  diff : TransformerDiffusion.t;
  encoder : ResEncoder16x
}.

Definition init (freeze_until : option Z) (checkpoint_encoder : bool)
           (kw : TransformerDiffusion.kwargs) : M t :=
  d <- TransformerDiffusion.init kw ;;
  e <- ResEncoder16x_init 256 1024 256 checkpoint_encoder ;;
  ret {| internal_step := 0; freeze_encoder_until := freeze_until;
         diff := d; encoder := e |}.

Definition encoder_grad_enabled (self : t) : bool :=
  match freeze_encoder_until self with
  | Some u => (internal_step self >? u)%Z
  | None => false
  end.

(** The loop [for p in unused_parameters: proj = proj + p.mean() * 0]. *)
Definition add_unused (unused_parameters : list (Param Vec)) (proj : Tensor3)
  : Tensor3 :=
  fold_left (fun pr p => tadd_scalar pr (mean_list (data p) * 0))
            unused_parameters proj.

(** The value passed as [prior] to the inner model. *)
Definition prior_of (self : t) (truth_mel : Tensor3) : M Tensor3 :=
  let unused_parameters :=
    if negb (encoder_grad_enabled self)
    then ResEncoder16x_parameters (encoder self)
    else [] in
  proj <- ResEncoder16x_forward (encoder self) truth_mel ;;
  ret (add_unused unused_parameters proj).

Definition forward (self : t) (x : Tensor3) (timesteps : list Z)
           (truth_mel : Tensor3) (conditioning_free : bool) : M Tensor3 :=
  proj <- prior_of self truth_mel ;;
  TransformerDiffusion.forward (diff self) x timesteps (Some proj) conditioning_free.

Definition get_debug_values (self : t) (step : Z) : t :=
  {| internal_step := step; freeze_encoder_until := freeze_encoder_until self;
     diff := diff self; encoder := encoder self |}.

(** [itertools.chain.from_iterable([lyr.out.parameters() for lyr in layers])
    + ...([lyr.prenorm.parameters() for lyr in layers])]: each parameter
    object is named by the index of its layer and its place in it. *)
Definition scaled_grad_parameters (self : t)
  : list (nat * ConcatAttentionBlock.param_ref) :=
  let ls := TransformerDiffusion.layers (diff self) in
  concat (map2 (fun i lyr =>
                  map (fun n => (i, ConcatAttentionBlock.out_param n))
                      (Conv1d.parameters (ConcatAttentionBlock.out lyr)))
               (seq 0 (length ls)) ls)
  ++ concat (map2 (fun i lyr =>
                     map (fun n => (i, ConcatAttentionBlock.prenorm_param n))
                         (GroupNorm.parameters (ConcatAttentionBlock.prenorm lyr)))
                  (seq 0 (length ls)) ls).

Definition grad_scale : Qc := Q2Qc (2 # 10).

(** The body of the loop for the parameter object [r]:
    [if hasattr(p, 'grad') and p.grad is not None: p.grad *= q]. *)
Definition scale_referenced (q : Qc) (ls : list ConcatAttentionBlock.t)
           (r : nat * ConcatAttentionBlock.param_ref)
  : list ConcatAttentionBlock.t :=
  update_nth (fst r) (ConcatAttentionBlock.scale_grad_at q (snd r)) ls.

(** [for p in scaled_grad_parameters: ... p.grad *= .2]. *)
Definition before_step (self : t) (step : Z) : t :=
  let ls :=
    fold_left (scale_referenced grad_scale)
              (scaled_grad_parameters self)
              (TransformerDiffusion.layers (diff self)) in
  {| internal_step := internal_step self;
     freeze_encoder_until := freeze_encoder_until self;
     diff := TransformerDiffusion.set_layers ls (diff self);
     encoder := encoder self |}.
End Defs.
End TransformerDiffusionWithCheaterLatent.

(* ===================================================================== *)
(** ** extract_cheater_encoder *)
(* ===================================================================== *)

(** A state dict as [torch.load] returns it: parameter names and their
    values, in insertion order. *)
Definition state_dict (V : Type) : Type := list (string * V).

(** [d[k]] for a key that may be missing. *)
Fixpoint dict_get {V} (k : string) (d : state_dict V) : option V :=
  match d with
  | [] => None
  | (k', v) :: d' => if String.eqb k k' then Some v else dict_get k d'
  end.

(** [d[k] = v]: an existing key keeps its place, a new key goes last. *)
Fixpoint dict_set {V} (k : string) (v : V) (d : state_dict V) : state_dict V :=
  match d with
  | [] => [(k, v)]
  | (k', v') :: d' =>
      if String.eqb k k' then (k, v) :: d' else (k', v') :: dict_set k v d'
  end.

(** Lines 269-272: the dictionary [extract_cheater_encoder] saves, as a
    function of the dictionary it loaded.  Reading and writing the two files
    is not modelled. *)
Definition extract_cheater_encoder {V} (p : state_dict V) : state_dict V :=
  fold_left (fun out kv =>
               if String.prefix "encoder." (fst kv)
               then dict_set (fst kv) (snd kv) out
               else out)
            p [].

(* ===================================================================== *)
(** ** Vocabulary of the statements *)
(* ===================================================================== *)

(** Every row of the matrix has [L] entries. *)
Definition rows_of_length {A} (L : nat) (m : list (list A)) : Prop :=
  Forall (fun r => length r = L) m.

(** [is_shape] as a proposition. *)
Definition shaped {A} (B C L : nat) (x : tensor3 A) : Prop :=
  length x = B /\ Forall (fun m => length m = C /\ rows_of_length L m) x.

(** The computation is a function of its arguments alone: it returns the same
    result from every generator state and leaves the state as it was. *)
Definition deterministic {A} (c : M A) : Prop :=
  exists r : result A, forall g, c g = lift r g.

(** The unconditioned embedding stretched over [L] positions. *)
Definition unconditioned_rows (L : nat) (emb : Tensor3) : Mat :=
  map (fun r => repeat (hd 0 r) L) (hd [] emb).

(** The module and every dropout layer below it have [training = False], as
    after [self.eval()]. *)
Definition in_eval_mode {F : Framework} (self : TransformerDiffusion.t) : bool :=
  negb (TransformerDiffusion.training self)
  && forallb (fun lyr =>
                negb (Dropout.training
                        (SubBlock.dropout (ConcatAttentionBlock.block1 lyr)))
                && negb (Dropout.training
                           (SubBlock.dropout (ConcatAttentionBlock.block2 lyr))))
             (TransformerDiffusion.layers self).

(** What [before_step] is meant to do to one block, written out field by
    field: the gradients of the [out] convolution and of [prenorm] are
    scaled, the two sub-blocks are untouched. *)
Definition before_step_block_spec {F : Framework} (q : Qc)
           (blk : ConcatAttentionBlock.t) : ConcatAttentionBlock.t :=
  {| ConcatAttentionBlock.prenorm :=
       {| GroupNorm.num_groups := GroupNorm.num_groups (ConcatAttentionBlock.prenorm blk);
          GroupNorm.num_channels :=
            GroupNorm.num_channels (ConcatAttentionBlock.prenorm blk);
          GroupNorm.eps := GroupNorm.eps (ConcatAttentionBlock.prenorm blk);
          GroupNorm.weight :=
            scale_grad q (GroupNorm.weight (ConcatAttentionBlock.prenorm blk));
          GroupNorm.bias :=
            scale_grad q (GroupNorm.bias (ConcatAttentionBlock.prenorm blk)) |};
     ConcatAttentionBlock.block1 := ConcatAttentionBlock.block1 blk;
     ConcatAttentionBlock.block2 := ConcatAttentionBlock.block2 blk;
     ConcatAttentionBlock.out :=
       {| Conv1d.in_channels := Conv1d.in_channels (ConcatAttentionBlock.out blk);
          Conv1d.out_channels := Conv1d.out_channels (ConcatAttentionBlock.out blk);
          Conv1d.kernel_size := Conv1d.kernel_size (ConcatAttentionBlock.out blk);
          Conv1d.padding := Conv1d.padding (ConcatAttentionBlock.out blk);
          Conv1d.weight :=
            scale_grad q (Conv1d.weight (ConcatAttentionBlock.out blk));
          Conv1d.bias :=
            option_map (scale_grad q) (Conv1d.bias (ConcatAttentionBlock.out blk)) |} |}.

(** The loop body of [before_step] run over several parameters of one
    block. *)
Definition scale_all_at {F : Framework} (q : Qc)
           (rs : list ConcatAttentionBlock.param_ref)
           (blk : ConcatAttentionBlock.t) : ConcatAttentionBlock.t :=
  fold_left (fun b r => ConcatAttentionBlock.scale_grad_at q r b) rs blk.

(** Geometry of a convolution. *)
Definition conv_geometry (cin cout k pad : nat) (c : Conv1d.t) : Prop :=
  Conv1d.in_channels c = cin /\ Conv1d.out_channels c = cout
  /\ Conv1d.kernel_size c = k /\ Conv1d.padding c = pad.

(** Geometry of a [SubBlock(inp_dim, contraction_dim, blk_dim, ...)]. *)
Definition subblock_geometry {F : Framework} (inp_dim contraction_dim blk_dim : nat)
           (sb : SubBlock.t) : Prop :=
  conv_geometry blk_dim inp_dim 1 0 (SubBlock.blk_emb_proj sb)
  /\ conv_geometry (inp_dim + contraction_dim) contraction_dim 3 1 (SubBlock.ff sb)
  /\ GroupNorm.num_channels (SubBlock.attnorm sb) = contraction_dim
  /\ GroupNorm.num_channels (SubBlock.ffnorm sb) = contraction_dim.

(** Geometry and initial values of a
    [ConcatAttentionBlock(trunk_dim, contraction_dim, ...)]. *)
Definition block_initialised {F : Framework} (trunk_dim contraction_dim : nat)
           (blk : ConcatAttentionBlock.t) : Prop :=
  GroupNorm.num_channels (ConcatAttentionBlock.prenorm blk) = trunk_dim
  /\ subblock_geometry trunk_dim contraction_dim trunk_dim
                       (ConcatAttentionBlock.block1 blk)
  /\ subblock_geometry (trunk_dim + contraction_dim * 2) contraction_dim trunk_dim
                       (ConcatAttentionBlock.block2 blk)
  /\ conv_geometry (contraction_dim * 4) trunk_dim 1 0 (ConcatAttentionBlock.out blk)
  /\ Conv1d.bias (ConcatAttentionBlock.out blk) = None
  /\ all_zero (data (Conv1d.weight (ConcatAttentionBlock.out blk))).

(** Every weight of the convolution is zero and it adds no bias. *)
Definition zero_conv (c : Conv1d.t) : Prop :=
  all_zero (data (Conv1d.weight c)) /\ forall o, Conv1d.bias_at c o = 0.

(** Broadcasting of the batch dimension: a single element is repeated [n]
    times, anything else is taken as it is. *)
Definition expand {A} (n : nat) (l : list A) : list A :=
  match l with
  | [a] => repeat a n
  | _ => l
  end.

(** The projected embedding after the conditioning dropout, as the claim
    describes it: a batch element whose draw is below [p] becomes the
    unconditioned embedding on all channels and positions, the others are
    kept. *)
Definition replace_unconditioned (p : Qc) (emb : Tensor3) (S : nat)
           (u : list Qc) (proj : Tensor3) : Tensor3 :=
  map2 (fun d m => if Qcltb d p then unconditioned_rows S emb else m) u proj.

(** The mask entry paired with the unconditioned value of every channel. *)
Definition paired (c : bool) (U : Mat) : list (list (bool * Qc)) :=
  map (fun r => [(c, hd 0 r)]) U.

(** Geometry of a [ConcatAttentionBlock(trunk_dim, contraction_dim, ...)],
    whatever the values of its parameters. *)
Definition block_geometry {F : Framework} (trunk_dim contraction_dim : nat)
           (blk : ConcatAttentionBlock.t) : Prop :=
  GroupNorm.num_channels (ConcatAttentionBlock.prenorm blk) = trunk_dim
  /\ subblock_geometry trunk_dim contraction_dim trunk_dim
                       (ConcatAttentionBlock.block1 blk)
  /\ subblock_geometry (trunk_dim + contraction_dim * 2) contraction_dim trunk_dim
                       (ConcatAttentionBlock.block2 blk)
  /\ conv_geometry (contraction_dim * 4) trunk_dim 1 0 (ConcatAttentionBlock.out blk).

(** Geometry of a [TransformerDiffusion] built with the keyword arguments
    [kw], whatever the values of its parameters. *)
Definition model_geometry {F : Framework} (kw : TransformerDiffusion.kwargs)
           (self : TransformerDiffusion.t) : Prop :=
  conv_geometry (TransformerDiffusion.kw_in_channels kw)
                (TransformerDiffusion.kw_model_channels kw) 3 1
                (TransformerDiffusion.inp_block self)
  /\ conv_geometry (TransformerDiffusion.kw_input_vec_dim kw)
                   (TransformerDiffusion.kw_model_channels kw) 1 0
                   (TransformerDiffusion.input_converter self)
  /\ shaped 1 (TransformerDiffusion.kw_model_channels kw) 1
            (data (TransformerDiffusion.unconditioned_embedding self))
  /\ conv_geometry (TransformerDiffusion.kw_model_channels kw * 2)
                   (TransformerDiffusion.kw_model_channels kw) 1 0
                   (TransformerDiffusion.intg self)
  /\ Forall (block_geometry (TransformerDiffusion.kw_model_channels kw)
                            (TransformerDiffusion.kw_contraction_dim kw))
            (TransformerDiffusion.layers self)
  /\ conv_geometry (TransformerDiffusion.kw_model_channels kw)
                   (TransformerDiffusion.kw_out_channels kw) 3 1
                   (TransformerDiffusion.out_conv (TransformerDiffusion.out self)).

(** Every entry of the row repeated [k] times in place. *)
Definition upsample (k : nat) (r : Vec) : Vec := flat_map (fun v => repeat v k) r.

(** No parameter that [before_step] visits in the block holds a gradient. *)
Definition no_scaled_gradient {F : Framework} (blk : ConcatAttentionBlock.t) : Prop :=
  grad (Conv1d.weight (ConcatAttentionBlock.out blk)) = None
  /\ match Conv1d.bias (ConcatAttentionBlock.out blk) with
     | Some b => grad b = None
     | None => True
     end
  /\ grad (GroupNorm.weight (ConcatAttentionBlock.prenorm blk)) = None
  /\ grad (GroupNorm.bias (ConcatAttentionBlock.prenorm blk)) = None.

(** No dropout layer of the stack is active: each is outside training mode
    or has probability zero (the constructor's default). *)
Definition dropout_inactive {F : Framework} (self : TransformerDiffusion.t) : bool :=
  forallb (fun lyr =>
             negb (Dropout.training
                     (SubBlock.dropout (ConcatAttentionBlock.block1 lyr))
                   && Qcltb 0 (Dropout.p
                                 (SubBlock.dropout (ConcatAttentionBlock.block1 lyr))))
             && negb (Dropout.training
                        (SubBlock.dropout (ConcatAttentionBlock.block2 lyr))
                      && Qcltb 0 (Dropout.p
                                    (SubBlock.dropout
                                       (ConcatAttentionBlock.block2 lyr)))))
          (TransformerDiffusion.layers self).

(* ===================================================================== *)
(** ** An executable instance of the framework interface *)
(* ===================================================================== *)

(** A stand-in for the imported modules, small enough to run the model on
    concrete tensors: attention copies channels cyclically, normalisation
    and the encoder are the identity, the scalar kernels are the identity,
    [zero_module] sets every parameter to zero. *)
Module Exec.

Record attention : Type := mk_attention { att_in : nat; att_out : nat }.

Definition attention_forward (a : attention) (x : Tensor3) (_ : option unit)
  : result Tensor3 :=
  if (att_in a =? 0)%nat || negb (forallb (fun m => (length m =? att_in a)%nat) x)
  then Raise RuntimeError
  else Ok (map (fun m => map (fun o => nth (o mod att_in a) m [])
                             (seq 0 (att_out a))) x).

#[global] Instance framework : Framework.
Proof.
  refine {|
    rsqrt := fun v => v;
    silu := fun v => v;
    gelu := fun v => v;
    timestep_embedding := fun ts dim =>
      map (fun s => repeat (Q2Qc (inject_Z s)) dim) ts;
    Mask := unit;
    build_local_attention_mask := fun _ _ _ => tt;
    AttentionBlock := attention;
    AttentionBlock_init := fun c o _ => ret {| att_in := c; att_out := o |};
    AttentionBlock_out_channels := att_out;
    AttentionBlock_forward := attention_forward;
    AttentionBlock_map_parameters := fun _ a => a;
    AttentionBlock_shape := _;
    Normalization := nat;
    normalization := fun c => Ok c;
    Normalization_forward := fun _ x => Ok x;
    Normalization_map_parameters := fun _ n => n;
    Normalization_shape := _;
    ResEncoder16x := list (Param Vec);
    ResEncoder16x_init := fun _ _ _ _ => v <- fresh1 2 ;; ret [new_parameter v];
    ResEncoder16x_forward := fun _ x => ret x;
    ResEncoder16x_parameters := fun e => e;
    zero_module := fun c =>
      Conv1d.set_params
        (set_data (tmap (fun _ => 0) (data (Conv1d.weight c))) (Conv1d.weight c))
        (option_map (fun b => set_data (map (fun _ => 0) (data b)) b)
                    (Conv1d.bias c))
        c;
    zero_module_geometry := _
  |}.
  - intros a x mask y B C T. unfold attention_forward, is_shape.
    intros Hx Hy.
    destruct (att_in a =? 0)%nat eqn:E0; [discriminate|].
    destruct (forallb (fun m => (length m =? att_in a)%nat) x) eqn:Ein;
      [|discriminate].
    simpl in Hy. injection Hy as <-.
    apply andb_true_iff in Hx as [HB Hx].
    apply andb_true_iff; split.
    + now rewrite length_map.
    + rewrite forallb_forall in *. intros m' Hm'.
      apply in_map_iff in Hm' as [m [<- Hm]].
      specialize (Hx _ Hm). specialize (Ein _ Hm).
      apply andb_true_iff in Hx as [HC Hr].
      rewrite length_map, length_seq, Nat.eqb_refl. simpl.
      rewrite forallb_forall in *. intros r Hr'.
      apply in_map_iff in Hr' as [o [<- Ho]].
      apply Hr. apply nth_In.
      apply Nat.eqb_eq in Ein. apply Nat.eqb_neq in E0.
      rewrite Ein. apply Nat.mod_upper_bound. exact E0.
  - intros n x y B C T H E. now injection E as <-.
  - intros c. repeat split.
Defined.

(** A generator whose draws cycle through 0, 1/10, ..., 9/10. *)
Definition rng0 : Rng :=
  {| stream := fun n => Q2Qc (Z.of_nat (n mod 10) # 10); pos := 0 |}.

(** The same supply, at a position where the next two draws are 0 and
    1/10. *)
Definition rng1 : Rng := {| stream := stream rng0; pos := 2020 |}.

(** A small configuration: 8 trunk channels, one block. *)
Definition small_kwargs : TransformerDiffusion.kwargs :=
  {| TransformerDiffusion.kw_time_embed_dim := 2;
     TransformerDiffusion.kw_model_channels := 8;
     TransformerDiffusion.kw_contraction_dim := 8;
     TransformerDiffusion.kw_num_layers := 1;
     TransformerDiffusion.kw_in_channels := 2;
     TransformerDiffusion.kw_input_vec_dim := 2;
     TransformerDiffusion.kw_out_channels := 2;
     TransformerDiffusion.kw_num_heads := 1;
     TransformerDiffusion.kw_dropout := 0;
     TransformerDiffusion.kw_use_corner_alignment := false;
     TransformerDiffusion.kw_use_fp16 := false;
     TransformerDiffusion.kw_new_code_expansion := false;
     TransformerDiffusion.kw_unconditioned_percentage := Q2Qc (1 # 10);
     TransformerDiffusion.kw_freeze_except_code_converters := false |}.

Definition set_freeze (b : bool) (kw : TransformerDiffusion.kwargs)
  : TransformerDiffusion.kwargs :=
  {| TransformerDiffusion.kw_time_embed_dim :=
       TransformerDiffusion.kw_time_embed_dim kw;
     TransformerDiffusion.kw_model_channels :=
       TransformerDiffusion.kw_model_channels kw;
     TransformerDiffusion.kw_contraction_dim :=
       TransformerDiffusion.kw_contraction_dim kw;
     TransformerDiffusion.kw_num_layers := TransformerDiffusion.kw_num_layers kw;
     TransformerDiffusion.kw_in_channels := TransformerDiffusion.kw_in_channels kw;
     TransformerDiffusion.kw_input_vec_dim :=
       TransformerDiffusion.kw_input_vec_dim kw;
     TransformerDiffusion.kw_out_channels :=
       TransformerDiffusion.kw_out_channels kw;
     TransformerDiffusion.kw_num_heads := TransformerDiffusion.kw_num_heads kw;
     TransformerDiffusion.kw_dropout := TransformerDiffusion.kw_dropout kw;
     TransformerDiffusion.kw_use_corner_alignment :=
       TransformerDiffusion.kw_use_corner_alignment kw;
     TransformerDiffusion.kw_use_fp16 := TransformerDiffusion.kw_use_fp16 kw;
     TransformerDiffusion.kw_new_code_expansion :=
       TransformerDiffusion.kw_new_code_expansion kw;
     TransformerDiffusion.kw_unconditioned_percentage :=
       TransformerDiffusion.kw_unconditioned_percentage kw;
     TransformerDiffusion.kw_freeze_except_code_converters := b |}.

(** [TransformerDiffusion(..., freeze_except_code_converters=True)] with the
    small configuration. *)
Definition frozen_kwargs : TransformerDiffusion.kwargs :=
  set_freeze true small_kwargs.

(** [TransformerDiffusion(model_channels=12,
    freeze_except_code_converters=True)], every other argument at its
    default. *)
Definition odd_width_kwargs : TransformerDiffusion.kwargs :=
  {| TransformerDiffusion.kw_time_embed_dim := 256;
     TransformerDiffusion.kw_model_channels := 12;
     TransformerDiffusion.kw_contraction_dim := 256;
     TransformerDiffusion.kw_num_layers := 8;
     TransformerDiffusion.kw_in_channels := 256;
     TransformerDiffusion.kw_input_vec_dim := 1024;
     TransformerDiffusion.kw_out_channels := 512;
     TransformerDiffusion.kw_num_heads := 4;
     TransformerDiffusion.kw_dropout := 0;
     TransformerDiffusion.kw_use_corner_alignment := false;
     TransformerDiffusion.kw_use_fp16 := false;
     TransformerDiffusion.kw_new_code_expansion := false;
     TransformerDiffusion.kw_unconditioned_percentage := Q2Qc (1 # 10);
     TransformerDiffusion.kw_freeze_except_code_converters := true |}.

(** The model [TransformerDiffusion.init small_kwargs] returns from [rng0],
    and the generator state it leaves. *)
Definition small_model : TransformerDiffusion.t :=
  ltac:(let r := eval vm_compute in (TransformerDiffusion.init small_kwargs rng0) in
        lazymatch r with Ok (?m, _) => exact m end).

Definition small_rng : Rng :=
  ltac:(let r := eval vm_compute in (TransformerDiffusion.init small_kwargs rng0) in
        lazymatch r with Ok (_, ?g) => exact g end).

(** [ConcatAttentionBlock(8, 8, 1, 0, enable_attention_masking=True)]. *)
Definition small_block : ConcatAttentionBlock.t :=
  ltac:(let r := eval vm_compute in (ConcatAttentionBlock.init 8 8 1 0 true rng0) in
        lazymatch r with Ok (?m, _) => exact m end).

Definition small_block_rng : Rng :=
  ltac:(let r := eval vm_compute in (ConcatAttentionBlock.init 8 8 1 0 true rng0) in
        lazymatch r with Ok (_, ?g) => exact g end).

(** [SubBlock(8, 8, 8, 1, 0, enable_attention_masking=True)]. *)
Definition small_subblock : SubBlock.t :=
  ltac:(let r := eval vm_compute in (SubBlock.init 8 8 8 1 0 true rng0) in
        lazymatch r with Ok (?m, _) => exact m end).

Definition small_subblock_rng : Rng :=
  ltac:(let r := eval vm_compute in (SubBlock.init 8 8 8 1 0 true rng0) in
        lazymatch r with Ok (_, ?g) => exact g end).

Definition q (n : Z) : Qc := Q2Qc (inject_Z n).

(** Inputs: one element of two channels and two positions; a batch of two,
    two channels, four positions; a prior of two positions; a trunk tensor
    and a block embedding of eight channels. *)
Definition x0 : Tensor3 := [ [ [q 1; q 2]; [q 3; q 4] ] ].

Definition x1 : Tensor3 :=
  [ [ [q 1; q 2; q 3; q 4]; [q 5; q 6; q 7; q 8] ];
    [ [q 9; q 8; q 7; q 6]; [q 5; q 4; q 3; q 2] ] ].

Definition prior1 : Tensor3 :=
  [ [ [q 1; q 2]; [q 3; q 4] ];
    [ [q 5; q 6]; [q 7; q 8] ] ].

Definition trunk1 : Tensor3 :=
  [ map (fun c => [q c; q (c + 1); q (c + 2)]) [1; 2; 3; 4; 5; 6; 7; 8]%Z ].

Definition blk_emb1 : Tensor3 :=
  [ map (fun c => [q c]) [1; 2; 3; 4; 5; 6; 7; 8]%Z ].

(** The projection of [prior1] by the small model, and the conditioning
    embedding the model computes from it in training mode at [rng1]. *)
Definition proj1 : Tensor3 :=
  ltac:(let r := eval vm_compute in
              (Conv1d.forward (TransformerDiffusion.input_converter small_model)
                              prior1) in
        lazymatch r with Ok ?t => exact t end).

Definition code_emb1 : Tensor3 :=
  ltac:(let r := eval vm_compute in
              (TransformerDiffusion.code_embedding small_model x1 (Some prior1)
                                                   false rng1) in
        lazymatch r with Ok (?t, _) => exact t end).

(** [ConcatAttentionBlock(16, 8, 1, 0, enable_attention_masking=True)], a
    trunk tensor of sixteen channels and three positions and a block
    embedding of sixteen channels. *)
Definition wide_block : ConcatAttentionBlock.t :=
  ltac:(let r := eval vm_compute in (ConcatAttentionBlock.init 16 8 1 0 true rng0) in
        lazymatch r with Ok (?m, _) => exact m end).

Definition wide_block_rng : Rng :=
  ltac:(let r := eval vm_compute in (ConcatAttentionBlock.init 16 8 1 0 true rng0) in
        lazymatch r with Ok (_, ?g) => exact g end).

Definition channels16 : list Z :=
  [1; 2; 3; 4; 5; 6; 7; 8; 9; 10; 11; 12; 13; 14; 15; 16]%Z.

Definition trunk2 : Tensor3 :=
  [ map (fun c => [q c; q (c + 1); q (c + 2)]) channels16 ].

Definition blk_emb2 : Tensor3 := [ map (fun c => [q c]) channels16 ].

(** [TransformerDiffusionWithCheaterLatent] built with the small
    configuration, as the constructor returns it from [rng0]. *)
Definition small_wrapper : TransformerDiffusionWithCheaterLatent.t :=
  ltac:(let r := eval vm_compute in
              (TransformerDiffusionWithCheaterLatent.init None true small_kwargs rng0) in
        lazymatch r with Ok (?m, _) => exact m end).

Definition small_wrapper_rng : Rng :=
  ltac:(let r := eval vm_compute in
              (TransformerDiffusionWithCheaterLatent.init None true small_kwargs rng0) in
        lazymatch r with Ok (_, ?g) => exact g end).

(** The same supply, at a position where the next draw is 1/10. *)
Definition rng2 : Rng := {| stream := stream rng0; pos := 2021 |}.

(** A checkpoint of the wrapper model: two entries of the encoder among
    three others, two of which have a key that only resembles the
    prefix. *)
Definition checkpoint1 : state_dict nat :=
  [ ("diff.inp_block.weight"%string, 1%nat);
    ("encoder.conv.weight"%string, 2%nat);
    ("diff.encoder_proj.bias"%string, 3%nat);
    ("encoder.conv.bias"%string, 4%nat);
    ("encoders"%string, 5%nat) ].

End Exec.

(* ===================================================================== *)
(** ** Basic facts: results, the generator monad, shapes *)
(* ===================================================================== *)

Unset Implicit Arguments.

Lemma rbind_Ok {A B} (r : result A) (k : A -> result B) b :
  rbind r k = Ok b -> exists a, r = Ok a /\ k a = Ok b.
Proof. destruct r as [a|e]; simpl; [eauto | discriminate]. Qed.

Lemma bind_Ok {A B} (c : M A) (k : A -> M B) g b g' :
  bind c k g = Ok (b, g') ->
  exists a g1, c g = Ok (a, g1) /\ k a g1 = Ok (b, g').
Proof.
  unfold bind. destruct (c g) as [[a g1]|e]; [eauto | discriminate].
Qed.

Lemma lift_Ok {A} (r : result A) g a g' :
  lift r g = Ok (a, g') -> r = Ok a /\ g' = g.
Proof.
  unfold lift. destruct r; [|discriminate].
  intros E. injection E as -> ->. auto.
Qed.

Lemma ret_Ok {A} (a b : A) g g' : ret a g = Ok (b, g') -> b = a /\ g' = g.
Proof. unfold ret. intros E. injection E as -> ->. auto. Qed.

(** Peel the successful steps off a monadic computation in a hypothesis. *)
Ltac inv_ok :=
  repeat match goal with
    | H : bind _ _ _ = Ok (_, _) |- _ =>
        let a := fresh "v" in let g := fresh "g" in
        let H1 := fresh "Hstep" in let H2 := fresh "Hrest" in
        apply bind_Ok in H as (a & g & H1 & H2)
    | H : rbind _ _ = Ok _ |- _ =>
        let a := fresh "v" in
        let H1 := fresh "Hstep" in let H2 := fresh "Hrest" in
        apply rbind_Ok in H as (a & H1 & H2)
    | H : lift _ _ = Ok (_, _) |- _ =>
        let H1 := fresh "Hval" in let H2 := fresh "Hgen" in
        apply lift_Ok in H as (H1 & H2); try subst
    | H : ret _ _ = Ok (_, _) |- _ =>
        let H1 := fresh "Hval" in let H2 := fresh "Hgen" in
        apply ret_Ok in H as (H1 & H2); try subst
    end.

Lemma sequence_Ok {A} (l : list (result A)) ys :
  sequence l = Ok ys -> Forall2 (fun r y => r = Ok y) l ys.
Proof.
  revert ys. induction l as [|r l IH]; simpl; intros ys H.
  - injection H as <-. constructor.
  - inv_ok. injection Hrest0 as <-. constructor; auto.
Qed.

Lemma sequence_map_Ok {A B} (f : A -> result B) l ys :
  sequence (map f l) = Ok ys -> Forall2 (fun a y => f a = Ok y) l ys.
Proof.
  revert ys. induction l as [|a l IH]; simpl; intros ys H.
  - injection H as <-. constructor.
  - inv_ok. injection Hrest0 as <-. constructor; auto.
Qed.

Lemma sequence_map_total {A B} (f : A -> B) (l : list A) :
  sequence (map (fun a => Ok (f a)) l) = Ok (map f l).
Proof. induction l as [|a l IH]; simpl; [|rewrite IH]; reflexivity. Qed.

Lemma mapM_Ok {A B} (f : A -> M B) l g ys g' :
  mapM f l g = Ok (ys, g') ->
  Forall2 (fun a y => exists g1 g2, f a g1 = Ok (y, g2)) l ys.
Proof.
  revert g ys. induction l as [|a l IH]; simpl; intros g ys H.
  - inv_ok. constructor.
  - inv_ok. constructor; eauto.
Qed.

Lemma Forall2_length_eq {A B} (R : A -> B -> Prop) l1 l2 :
  Forall2 R l1 l2 -> length l1 = length l2.
Proof. induction 1; simpl; congruence. Qed.

(** *** Shapes as propositions *)

Lemma is_shape_iff {A} B C L (x : tensor3 A) :
  is_shape B C L x = true <-> shaped B C L x.
Proof.
  unfold is_shape, shaped, rows_of_length.
  rewrite andb_true_iff, Nat.eqb_eq, forallb_forall, Forall_forall.
  split; intros [HB H]; split; auto; intros m Hm; specialize (H m Hm).
  - apply andb_true_iff in H as [HC Hr].
    apply Nat.eqb_eq in HC. rewrite forallb_forall in Hr.
    split; auto. apply Forall_forall. intros r Hr'. apply Nat.eqb_eq; auto.
  - destruct H as [HC Hr]. apply andb_true_iff; split.
    + now apply Nat.eqb_eq.
    + apply forallb_forall. rewrite Forall_forall in Hr.
      intros r Hr'. apply Nat.eqb_eq; auto.
Qed.

Lemma shaped_size0 {A} B C L (x : tensor3 A) : shaped B C L x -> size0 x = B.
Proof. now intros [H _]. Qed.

Lemma shaped_size1 {A} B C L (x : tensor3 A) :
  shaped B C L x -> (0 < B)%nat -> size1 x = C.
Proof.
  intros [HB H] Hpos. unfold size1.
  destruct x as [|m x]; simpl in *; [lia|].
  now inversion H as [|? ? [HC _] _].
Qed.

Lemma shaped_size2 {A} B C L (x : tensor3 A) :
  shaped B C L x -> (0 < B)%nat -> (0 < C)%nat -> size2 x = L.
Proof.
  intros [HB H] HposB HposC. unfold size2.
  destruct x as [|m x]; simpl in *; [lia|].
  inversion H as [|? ? [HC Hr] _]; subst.
  destruct m as [|r m]; simpl in *; [lia|].
  now inversion Hr.
Qed.

Lemma shaped_nil {A} C L : shaped 0 C L (@nil (list (list A))).
Proof. split; [reflexivity | constructor]. Qed.

Lemma shaped_empty {A} C L (x : tensor3 A) : shaped 0 C L x -> x = [].
Proof. intros [H _]. now destruct x. Qed.

Lemma shaped_tmap {A B'} (f : A -> B') B C L (x : tensor3 A) :
  shaped B C L x -> shaped B C L (tmap f x).
Proof.
  unfold shaped, rows_of_length, tmap. intros [HB H]. split.
  - now rewrite length_map.
  - apply Forall_map. eapply Forall_impl; [|exact H].
    intros m [HC Hr]. split; [now rewrite length_map|].
    apply Forall_map. eapply Forall_impl; [|exact Hr].
    intros r Hl. now rewrite length_map.
Qed.

(** *** Exact arithmetic *)

Lemma tmap_ext_id {A} (f : A -> A) (t : tensor3 A) :
  (forall a, f a = a) -> tmap f t = t.
Proof.
  intros Hf. unfold tmap.
  rewrite <- (map_id t) at 2. apply map_ext. intros m.
  rewrite <- (map_id m) at 2. apply map_ext. intros r.
  rewrite <- (map_id r) at 2. apply map_ext. exact Hf.
Qed.

Lemma tadd_scalar_times_zero (t : Tensor3) (e : Qc) : tadd_scalar t (e * 0) = t.
Proof. apply tmap_ext_id. intros v. ring. Qed.

Lemma bind_ret_r {A} (c : M A) (f : A -> A) g :
  (forall a, f a = a) -> bind c (fun a => ret (f a)) g = c g.
Proof.
  intros Hf. unfold bind, ret.
  destruct (c g) as [[a g1]|e]; [rewrite Hf|]; reflexivity.
Qed.

(** *** Computations that do not touch the generator *)

Lemma deterministic_ret {A} (a : A) : deterministic (ret a).
Proof. exists (Ok a). reflexivity. Qed.

Lemma deterministic_lift {A} (r : result A) : deterministic (lift r).
Proof. exists r. reflexivity. Qed.

Lemma deterministic_bind {A B} (c : M A) (k : A -> M B) :
  deterministic c -> (forall a, deterministic (k a)) -> deterministic (bind c k).
Proof.
  intros [r Hr] Hk. destruct r as [a|e].
  - destruct (Hk a) as [rk Hrk]. exists rk. intros g.
    unfold bind. rewrite Hr. simpl. apply Hrk.
  - exists (Raise e). intros g. unfold bind. rewrite Hr. reflexivity.
Qed.

Lemma deterministic_same_output {A} (c : M A) g1 g2 o1 o2 g1' g2' :
  deterministic c ->
  c g1 = Ok (o1, g1') -> c g2 = Ok (o2, g2') -> o1 = o2 /\ g1' = g1 /\ g2' = g2.
Proof.
  intros [r Hr] H1 H2. rewrite Hr in H1, H2.
  apply lift_Ok in H1 as [E1 ->]. apply lift_Ok in H2 as [E2 ->].
  rewrite E1 in E2. injection E2 as ->. auto.
Qed.

Create HintDb determinism.
#[global] Hint Resolve deterministic_ret deterministic_lift : determinism.

(* ===================================================================== *)
(** ** The dummy-parameter additions and the cheater latent *)
(* ===================================================================== *)

Section DummyAdditions.
Context {F : Framework}.

Lemma add_unused_id (ps : list (Param Vec)) (proj : Tensor3) :
  TransformerDiffusionWithCheaterLatent.add_unused ps proj = proj.
Proof.
  unfold TransformerDiffusionWithCheaterLatent.add_unused.
  revert proj. induction ps as [|p ps IH]; intros proj; simpl.
  - reflexivity.
  - rewrite tadd_scalar_times_zero. apply IH.
Qed.

Lemma prior_of_is_encoder_output
      (self : TransformerDiffusionWithCheaterLatent.t) (truth_mel : Tensor3) g :
  TransformerDiffusionWithCheaterLatent.prior_of self truth_mel g
  = ResEncoder16x_forward (TransformerDiffusionWithCheaterLatent.encoder self)
                          truth_mel g.
Proof.
  unfold TransformerDiffusionWithCheaterLatent.prior_of.
  apply bind_ret_r. intros proj. apply add_unused_id.
Qed.

(** C5.  The dummy-parameter additions change no value (over exact
    arithmetic): [TransformerDiffusion.forward] returns exactly what the
    [out] head produced, the loop over the unused encoder parameters
    returns the projection it was given, and so the value handed on by
    [TransformerDiffusionWithCheaterLatent.forward] is the encoder's
    output. *)
Theorem dummy_additions_preserve_values :
  (forall (self : TransformerDiffusion.t) x timesteps prior conditioning_free g,
      TransformerDiffusion.forward self x timesteps prior conditioning_free g
      = TransformerDiffusion.out_head_output self x timesteps prior
                                             conditioning_free g)
  /\ (forall (unused_parameters : list (Param Vec)) (proj : Tensor3),
         TransformerDiffusionWithCheaterLatent.add_unused unused_parameters proj
         = proj)
  /\ (forall (self : TransformerDiffusionWithCheaterLatent.t) truth_mel g,
         TransformerDiffusionWithCheaterLatent.prior_of self truth_mel g
         = ResEncoder16x_forward
             (TransformerDiffusionWithCheaterLatent.encoder self) truth_mel g).
Proof.
  split; [|split].
  - intros self x timesteps prior conditioning_free g.
    unfold TransformerDiffusion.forward.
    apply bind_ret_r. intros o. apply tadd_scalar_times_zero.
  - apply add_unused_id.
  - apply prior_of_is_encoder_output.
Qed.

(** C6.  With [conditioning_free=False] the inner model runs with [prior]
    equal to the encoder's output on [truth_mel]: the forward pass of the
    wrapper is the encoder followed by the inner forward pass on that
    output. *)
Theorem cheater_latent_is_the_prior
        (self : TransformerDiffusionWithCheaterLatent.t)
        (x : Tensor3) (timesteps : list Z) (truth_mel : Tensor3) (g : Rng) :
  TransformerDiffusionWithCheaterLatent.forward self x timesteps truth_mel false g
  = bind (ResEncoder16x_forward
            (TransformerDiffusionWithCheaterLatent.encoder self) truth_mel)
         (fun latent =>
            TransformerDiffusion.forward
              (TransformerDiffusionWithCheaterLatent.diff self)
              x timesteps (Some latent) false) g.
Proof.
  unfold TransformerDiffusionWithCheaterLatent.forward, bind.
  rewrite prior_of_is_encoder_output. reflexivity.
Qed.

End DummyAdditions.

(* ===================================================================== *)
(** ** The conditioning embedding *)
(* ===================================================================== *)

Lemma tile_one {A} (l : list A) : tile 1 l = l.
Proof. unfold tile. simpl. apply app_nil_r. Qed.

Lemma tile_singleton {A} (n : nat) (a : A) : tile n [a] = repeat a n.
Proof. unfold tile. induction n as [|n IH]; simpl; [|rewrite IH]; reflexivity. Qed.

(** Repeating a (1, C, 1) tensor yields [B] copies of its channel values,
    each spread over [L] positions. *)
Lemma tensor_repeat_unit (B C L : nat) (emb : Tensor3) :
  shaped 1 C 1 emb ->
  tensor_repeat B 1 L emb = repeat (unconditioned_rows L emb) B.
Proof.
  intros [Hlen Hall]. unfold tensor_repeat, unconditioned_rows.
  destruct emb as [|m [|m' emb]]; simpl in Hlen; try discriminate.
  simpl. rewrite tile_singleton, tile_one.
  inversion Hall as [|? ? [_ Hrows] _]; subst.
  apply (f_equal (fun u => repeat u B)).
  apply map_ext_in. intros r Hr.
  unfold rows_of_length in Hrows. rewrite Forall_forall in Hrows.
  specialize (Hrows r Hr).
  destruct r as [|v [|v' r]]; simpl in Hrows; try discriminate.
  simpl. apply tile_singleton.
Qed.

Section ConditioningFree.
Context {F : Framework}.

(** C7.  With [conditioning_free=True] the forward pass does not look at
    [prior]: any two values of [prior] (including [None]) give the same
    result from the same generator state, because the conditioning
    embedding is the unconditioned embedding repeated over the batch and
    the positions of [x], whatever [prior] is. *)
Theorem conditioning_free_ignores_prior
        (self : TransformerDiffusion.t) (x : Tensor3) (timesteps : list Z) :
  (forall (prior1 prior2 : option Tensor3) (g : Rng),
      TransformerDiffusion.forward self x timesteps prior1 true g
      = TransformerDiffusion.forward self x timesteps prior2 true g)
  /\ (forall (prior : option Tensor3) (g : Rng),
         TransformerDiffusion.code_embedding self x prior true g
         = Ok (tensor_repeat (size0 x) 1 (size2 x)
                 (data (TransformerDiffusion.unconditioned_embedding self)), g))
  /\ (forall C : nat,
         is_shape 1 C 1
           (data (TransformerDiffusion.unconditioned_embedding self)) = true ->
         tensor_repeat (size0 x) 1 (size2 x)
           (data (TransformerDiffusion.unconditioned_embedding self))
         = repeat (unconditioned_rows (size2 x)
                     (data (TransformerDiffusion.unconditioned_embedding self)))
                  (size0 x)).
Proof.
  split; [|split].
  - reflexivity.
  - reflexivity.
  - intros C HC. apply tensor_repeat_unit with (C := C).
    now apply is_shape_iff.
Qed.

End ConditioningFree.

(* ===================================================================== *)
(** ** Evaluation mode *)
(* ===================================================================== *)

Section EvalMode.
Context {F : Framework}.

Lemma eval_in_eval_mode (self : TransformerDiffusion.t) :
  in_eval_mode (TransformerDiffusion.eval self) = true.
Proof.
  unfold in_eval_mode. simpl. apply forallb_forall.
  intros lyr Hin. apply in_map_iff in Hin as [l0 [<- _]]. reflexivity.
Qed.

Lemma Dropout_forward_eval (d : Dropout.t) (x : Tensor3) :
  Dropout.training d = false -> Dropout.forward d x = ret x.
Proof. unfold Dropout.forward. now intros ->. Qed.

Lemma Dropout_forward_deterministic (d : Dropout.t) (x : Tensor3) :
  Dropout.training d = false -> deterministic (Dropout.forward d x).
Proof.
  intros Hd. rewrite (Dropout_forward_eval _ _ Hd). apply deterministic_ret.
Qed.

Lemma SubBlock_forward_deterministic (sb : SubBlock.t) (x blk_emb : Tensor3) :
  Dropout.training (SubBlock.dropout sb) = false ->
  deterministic (SubBlock.forward sb x blk_emb).
Proof.
  intros Hd. unfold SubBlock.forward, SubBlock.attn_branch.
  repeat (apply deterministic_bind; [|intros ?]);
    auto using Dropout_forward_deterministic with determinism.
Qed.

Lemma ConcatAttentionBlock_forward_deterministic
      (blk : ConcatAttentionBlock.t) (x blk_emb : Tensor3) :
  Dropout.training (SubBlock.dropout (ConcatAttentionBlock.block1 blk)) = false ->
  Dropout.training (SubBlock.dropout (ConcatAttentionBlock.block2 blk)) = false ->
  deterministic (ConcatAttentionBlock.forward blk x blk_emb).
Proof.
  intros H1 H2. unfold ConcatAttentionBlock.forward.
  repeat (apply deterministic_bind; [|intros ?]);
    auto using Dropout_forward_deterministic with determinism.
Qed.

Lemma run_layers_deterministic (ls : list ConcatAttentionBlock.t) :
  forallb (fun lyr =>
             negb (Dropout.training
                     (SubBlock.dropout (ConcatAttentionBlock.block1 lyr)))
             && negb (Dropout.training
                        (SubBlock.dropout (ConcatAttentionBlock.block2 lyr)))) ls
  = true ->
  forall x blk_emb, deterministic (TransformerDiffusion.run_layers ls x blk_emb).
Proof.
  induction ls as [|lyr ls IH]; simpl; intros Hall x blk_emb.
  - auto with determinism.
  - apply andb_true_iff in Hall as [Hl Hls].
    apply andb_true_iff in Hl as [H1 H2].
    apply negb_true_iff in H1, H2.
    apply deterministic_bind; [|intros ?; now apply IH].
    unfold checkpoint. now apply ConcatAttentionBlock_forward_deterministic.
Qed.

(** Without training mode, lines 151-163 reduce to the projection of
    [prior] followed by the interpolation. *)
Lemma code_embedding_eval (self : TransformerDiffusion.t) (x pr : Tensor3) (g : Rng) :
  TransformerDiffusion.training self = false ->
  TransformerDiffusion.code_embedding self x (Some pr) false g
  = lift (c <~ Conv1d.forward (TransformerDiffusion.input_converter self) pr ;;
          interpolate_nearest (size2 x) c) g.
Proof.
  intros Ht. unfold TransformerDiffusion.code_embedding. rewrite Ht. simpl.
  unfold bind, lift, ret, rbind.
  destruct (Conv1d.forward _ pr) as [c|e]; reflexivity.
Qed.

Lemma code_embedding_deterministic (self : TransformerDiffusion.t) x prior :
  TransformerDiffusion.training self = false ->
  deterministic (TransformerDiffusion.code_embedding self x prior false).
Proof.
  intros Ht. unfold TransformerDiffusion.code_embedding. rewrite Ht. simpl.
  repeat (apply deterministic_bind; [|intros ?]); auto with determinism.
Qed.

(** C10.  Outside training mode the conditioning-dropout mask is not
    applied: the conditioning embedding is the projection of [prior]
    interpolated (nearest neighbour) to the length of [x], computed without
    a random draw; and the whole forward pass is a function of its inputs
    and the model state alone, so two runs from any two generator states
    return the same output. *)
Theorem eval_mode_is_deterministic
        (self : TransformerDiffusion.t) (x : Tensor3) (timesteps : list Z)
        (Heval : in_eval_mode self = true) :
  (forall (pr : Tensor3) (g : Rng),
      TransformerDiffusion.code_embedding self x (Some pr) false g
      = lift (c <~ Conv1d.forward (TransformerDiffusion.input_converter self) pr ;;
              interpolate_nearest (size2 x) c) g)
  /\ (forall (prior : option Tensor3) (g1 g2 : Rng) o1 o2 g1' g2',
         TransformerDiffusion.forward self x timesteps prior false g1 = Ok (o1, g1') ->
         TransformerDiffusion.forward self x timesteps prior false g2 = Ok (o2, g2') ->
         o1 = o2)
  /\ (forall (prior : option Tensor3),
         exists r : result Tensor3,
           forall g, TransformerDiffusion.forward self x timesteps prior false g
                     = lift r g).
Proof.
  apply andb_true_iff in Heval as [Ht Hls]. apply negb_true_iff in Ht.
  assert (Hdet : forall prior,
             deterministic
               (TransformerDiffusion.forward self x timesteps prior false)).
  { intros prior.
    unfold TransformerDiffusion.forward.
    apply deterministic_bind; [|auto with determinism].
    unfold TransformerDiffusion.out_head_output.
    apply deterministic_bind; [now apply code_embedding_deterministic|].
    intros code_emb.
    apply deterministic_bind; [|auto with determinism].
    unfold TransformerDiffusion.trunk.
    repeat (apply deterministic_bind; [|intros ?]);
      auto using run_layers_deterministic with determinism. }
  split; [|split].
  - intros pr g. now apply code_embedding_eval.
  - intros prior g1 g2 o1 o2 g1' g2' H1 H2.
    pose proof (@deterministic_same_output _ _ g1 g2 o1 o2 g1' g2'
                  (Hdet prior) H1 H2) as [E _].
    exact E.
  - intros prior. apply Hdet.
Qed.

End EvalMode.

(* ===================================================================== *)
(** ** Gradient scaling in [before_step] *)
(* ===================================================================== *)

Lemma update_nth_middle {A} (f : A -> A) (pre : list A) (a : A) (l : list A) :
  update_nth (length pre) f (pre ++ a :: l) = pre ++ f a :: l.
Proof. induction pre as [|b pre IH]; simpl; [|rewrite IH]; reflexivity. Qed.

Lemma map2_same {A B} (f : A -> A -> B) (l : list A) :
  map2 f l l = map (fun a => f a a) l.
Proof. induction l as [|a l IH]; simpl; [|rewrite IH]; reflexivity. Qed.

Lemma map2_map_r {A B C D} (f : A -> C -> D) (h : B -> C) l1 l2 :
  map2 f l1 (map h l2) = map2 (fun a b => f a (h b)) l1 l2.
Proof.
  revert l2. induction l1 as [|a l1 IH]; intros [|b l2]; simpl;
    [| | |rewrite IH]; reflexivity.
Qed.

Section BeforeStep.
Context {F : Framework}.
Variable q : Qc.

Abbreviation upd := (TransformerDiffusionWithCheaterLatent.scale_referenced q).
Abbreviation on_block := (scale_all_at q).

(** The references of one layer only reach that layer. *)
Lemma fold_refs_of_layer {X} (inj : X -> ConcatAttentionBlock.param_ref)
      (names : list X) :
  forall pre blk ls,
    fold_left upd (map (fun n => (length pre, inj n)) names) (pre ++ blk :: ls)
    = pre ++ on_block (map inj names) blk :: ls.
Proof.
  induction names as [|n names IH]; intros pre blk ls; simpl.
  - reflexivity.
  - unfold TransformerDiffusionWithCheaterLatent.scale_referenced at 2.
    simpl. rewrite update_nth_middle. apply IH.
Qed.

(** Walking the chained list of references visits the layers one after the
    other, each with the references computed from the layer it was read
    from. *)
Lemma fold_refs_of_layers {X} (inj : X -> ConcatAttentionBlock.param_ref)
      (names : ConcatAttentionBlock.t -> list X) :
  forall ls0 ls pre,
    length ls0 = length ls ->
    fold_left upd
      (concat (map2 (fun i lyr => map (fun n => (i, inj n)) (names lyr))
                    (seq (length pre) (length ls0)) ls0))
      (pre ++ ls)
    = pre ++ map2 (fun l0 l => on_block (map inj (names l0)) l) ls0 ls.
Proof.
  induction ls0 as [|l0 ls0 IH]; intros ls pre Hlen.
  - destruct ls; [reflexivity | discriminate].
  - destruct ls as [|l ls]; [discriminate|].
    simpl in Hlen. injection Hlen as Hlen.
    simpl. rewrite fold_left_app, fold_refs_of_layer.
    specialize (IH ls (pre ++ [on_block (map inj (names l0)) l]) Hlen).
    rewrite length_app in IH. simpl in IH.
    rewrite Nat.add_1_r in IH.
    rewrite <- !app_assoc in IH. simpl in IH. exact IH.
Qed.

Lemma on_block_out_then_prenorm (blk : ConcatAttentionBlock.t) :
  on_block (map ConcatAttentionBlock.prenorm_param
                (GroupNorm.parameters (ConcatAttentionBlock.prenorm blk)))
           (on_block (map ConcatAttentionBlock.out_param
                          (Conv1d.parameters (ConcatAttentionBlock.out blk)))
                     blk)
  = before_step_block_spec q blk.
Proof.
  destruct blk as [pn b1 b2 [ci co k pd w [b|]]]; reflexivity.
Qed.

Lemma before_step_layers (ls : list ConcatAttentionBlock.t) :
  fold_left upd
    (concat (map2 (fun i lyr =>
                     map (fun n => (i, ConcatAttentionBlock.out_param n))
                         (Conv1d.parameters (ConcatAttentionBlock.out lyr)))
                  (seq 0 (length ls)) ls)
     ++ concat (map2 (fun i lyr =>
                        map (fun n => (i, ConcatAttentionBlock.prenorm_param n))
                            (GroupNorm.parameters (ConcatAttentionBlock.prenorm lyr)))
                     (seq 0 (length ls)) ls))
    ls
  = map (before_step_block_spec q) ls.
Proof.
  rewrite fold_left_app.
  pose proof (fold_refs_of_layers ConcatAttentionBlock.out_param
                (fun lyr => Conv1d.parameters (ConcatAttentionBlock.out lyr))
                ls ls [] eq_refl) as Hout.
  cbn [length app] in Hout. rewrite Hout, map2_same. clear Hout.
  pose proof (fold_refs_of_layers ConcatAttentionBlock.prenorm_param
                (fun lyr => GroupNorm.parameters (ConcatAttentionBlock.prenorm lyr))
                ls
                (map (fun a => on_block
                                 (map ConcatAttentionBlock.out_param
                                      (Conv1d.parameters (ConcatAttentionBlock.out a)))
                                 a) ls)
                []) as Hpre.
  cbn [length app] in Hpre. rewrite Hpre by now rewrite length_map.
  rewrite map2_map_r, map2_same.
  apply map_ext. intros blk. apply on_block_out_then_prenorm.
Qed.
End BeforeStep.

Section BeforeStepClaim.
Context {F : Framework}.

(** C4.  [before_step] multiplies by 0.2 (here the rational 1/5) the
    gradient, when there is one, of every parameter of each block's [out]
    convolution and [prenorm] layer, and changes nothing else: the values
    of those parameters, both sub-blocks of every block, every other
    module of the inner model, the encoder and the step counters are the
    ones it was given. *)
Theorem before_step_scales_out_and_prenorm_gradients
        (self : TransformerDiffusionWithCheaterLatent.t) (step : Z) :
  TransformerDiffusionWithCheaterLatent.before_step self step
  = {| TransformerDiffusionWithCheaterLatent.internal_step :=
         TransformerDiffusionWithCheaterLatent.internal_step self;
       TransformerDiffusionWithCheaterLatent.freeze_encoder_until :=
         TransformerDiffusionWithCheaterLatent.freeze_encoder_until self;
       TransformerDiffusionWithCheaterLatent.diff :=
         TransformerDiffusion.set_layers
           (map (before_step_block_spec (Q2Qc (1 # 5)))
                (TransformerDiffusion.layers
                   (TransformerDiffusionWithCheaterLatent.diff self)))
           (TransformerDiffusionWithCheaterLatent.diff self);
       TransformerDiffusionWithCheaterLatent.encoder :=
         TransformerDiffusionWithCheaterLatent.encoder self |}
  /\ (forall (p : Param Tensor3),
         data (scale_grad (Q2Qc (1 # 5)) p) = data p
         /\ grad (scale_grad (Q2Qc (1 # 5)) p)
            = option_map (tmap (fun v => v * Q2Qc (1 # 5))) (grad p))
  /\ (forall (p : Param Vec),
         data (scale_grad (Q2Qc (1 # 5)) p) = data p
         /\ grad (scale_grad (Q2Qc (1 # 5)) p)
            = option_map (map (fun v => v * Q2Qc (1 # 5))) (grad p)).
Proof.
  split; [|split].
  - unfold TransformerDiffusionWithCheaterLatent.before_step,
      TransformerDiffusionWithCheaterLatent.scaled_grad_parameters.
    rewrite before_step_layers.
    replace TransformerDiffusionWithCheaterLatent.grad_scale
      with (Q2Qc (1 # 5)) by (apply Qc_is_canon; reflexivity).
    reflexivity.
  - intros [d [gr|] rg dnt]; split; reflexivity.
  - intros [d [gr|] rg dnt]; split; reflexivity.
Qed.
End BeforeStepClaim.

(* ===================================================================== *)
(** ** What the constructors establish *)
(* ===================================================================== *)

Lemma mapM_total {A B} (f : A -> M B) (l : list A) :
  (forall a g, exists b g', f a g = Ok (b, g')) ->
  forall g, exists ys g', mapM f l g = Ok (ys, g').
Proof.
  intros Hf. induction l as [|a l IH]; intros g; simpl.
  - unfold ret. eauto.
  - unfold bind. destruct (Hf a g) as (b & g1 & ->).
    destruct (IH g1) as (ys & g2 & ->). unfold ret. eauto.
Qed.

Lemma fresh1_total n g : exists v g', fresh1 n g = Ok (v, g').
Proof. apply mapM_total. intros _ g0. unfold draw. eauto. Qed.

Lemma fresh2_total r c g : exists v g', fresh2 r c g = Ok (v, g').
Proof. apply mapM_total. intros _ g0. apply fresh1_total. Qed.

Lemma fresh3_total b c l g : exists v g', fresh3 b c l g = Ok (v, g').
Proof. apply mapM_total. intros _ g0. apply fresh2_total. Qed.

Lemma Conv1d_init_total cin cout k pad wb g :
  exists c g', Conv1d.init cin cout k pad wb g = Ok (c, g').
Proof.
  unfold Conv1d.init, bind.
  destruct (fresh3_total cout cin k g) as (w & g1 & ->).
  destruct wb.
  - destruct (fresh1_total cout g1) as (v & g2 & ->). unfold ret. eauto.
  - unfold ret. eauto.
Qed.

Lemma Linear_init_total fin fout g :
  exists l g', Linear.init fin fout g = Ok (l, g').
Proof.
  unfold Linear.init, bind.
  destruct (fresh2_total fout fin g) as (w & g1 & ->).
  destruct (fresh1_total fout g1) as (v & g2 & ->). unfold ret. eauto.
Qed.

Lemma Conv1d_init_Ok cin cout k pad wb g c g' :
  Conv1d.init cin cout k pad wb g = Ok (c, g') ->
  conv_geometry cin cout k pad c /\ (wb = false -> Conv1d.bias c = None).
Proof.
  unfold Conv1d.init. intros H. inv_ok.
  split; [repeat split|]. simpl. intros ->. now inv_ok.
Qed.

Lemma GroupNorm_init_Ok g c n :
  GroupNorm.init g c = Ok n ->
  GroupNorm.num_groups n = g /\ GroupNorm.num_channels n = c /\ (c mod g = 0)%nat.
Proof.
  unfold GroupNorm.init. destruct (c mod g =? 0)%nat eqn:E; [|discriminate].
  intros H. injection H as <-. apply Nat.eqb_eq in E. auto.
Qed.

Lemma all_zero_tmap_zero {A} (t : tensor3 A) : all_zero (tmap (fun _ => 0) t).
Proof.
  unfold all_zero, tmap.
  apply Forall_map, Forall_forall. intros m _.
  apply Forall_map, Forall_forall. intros r _.
  apply Forall_map, Forall_forall. intros v _. reflexivity.
Qed.

(** Turn every successful constructor call among the hypotheses into the
    facts it establishes. *)
Ltac inv_init :=
  repeat match goal with
    | H : Conv1d.init _ _ _ _ _ _ = Ok _ |- _ =>
        apply Conv1d_init_Ok in H as [? ?]
    | H : GroupNorm.init _ _ = Ok _ |- _ =>
        apply GroupNorm_init_Ok in H as (? & ? & ?)
    end.

Section Constructors.
Context {F : Framework}.

Lemma SubBlock_init_Ok inp_dim contraction_dim blk_dim heads p masking g sb g' :
  SubBlock.init inp_dim contraction_dim blk_dim heads p masking g = Ok (sb, g') ->
  subblock_geometry inp_dim contraction_dim blk_dim sb.
Proof.
  unfold SubBlock.init. intros H. inv_ok. inv_init.
  unfold subblock_geometry. simpl. auto.
Qed.

Lemma ConcatAttentionBlock_init_Ok trunk_dim contraction_dim heads p masking
      g blk g' :
  ConcatAttentionBlock.init trunk_dim contraction_dim heads p masking g
  = Ok (blk, g') ->
  block_initialised trunk_dim contraction_dim blk.
Proof.
  unfold ConcatAttentionBlock.init. intros H. inv_ok. inv_init.
  repeat match goal with
    | H : SubBlock.init _ _ _ _ _ _ _ = Ok _ |- _ => apply SubBlock_init_Ok in H
    end.
  match goal with
  | H : conv_geometry _ _ _ _ _ |- _ => destruct H as (? & ? & ? & ?)
  end.
  unfold block_initialised. simpl.
  split; [assumption|]. split; [assumption|]. split; [assumption|].
  split; [unfold conv_geometry; auto|]. split; [auto|].
  apply (@all_zero_tmap_zero Qc).
Qed.

(** A trunk width that is not a multiple of 8 stops the constructor in the
    first block's [nn.GroupNorm(8, trunk_dim)]. *)
Lemma ConcatAttentionBlock_init_ValueError trunk_dim contraction_dim heads p
      masking g :
  (trunk_dim mod 8 <> 0)%nat ->
  ConcatAttentionBlock.init trunk_dim contraction_dim heads p masking g
  = Raise ValueError.
Proof.
  intros Hmod. unfold ConcatAttentionBlock.init, bind, lift, GroupNorm.init.
  apply Nat.eqb_neq in Hmod. now rewrite Hmod.
Qed.

Lemma build_ValueError (kw : TransformerDiffusion.kwargs) g :
  (TransformerDiffusion.kw_model_channels kw mod 8 <> 0)%nat ->
  (0 < TransformerDiffusion.kw_num_layers kw)%nat ->
  TransformerDiffusion.build kw g = Raise ValueError.
Proof.
  intros Hmod Hpos. unfold TransformerDiffusion.build, conv_nd, linear.
  unfold bind at 1.
  destruct (Conv1d_init_total (TransformerDiffusion.kw_in_channels kw)
              (TransformerDiffusion.kw_model_channels kw) 3 1 true g)
    as (ib & g1 & ->).
  unfold bind at 1.
  destruct (Linear_init_total (TransformerDiffusion.kw_time_embed_dim kw)
              (TransformerDiffusion.kw_time_embed_dim kw) g1) as (fc0 & g2 & ->).
  unfold bind at 1.
  destruct (Linear_init_total (TransformerDiffusion.kw_time_embed_dim kw)
              (TransformerDiffusion.kw_model_channels kw) g2) as (fc2 & g3 & ->).
  unfold bind at 1.
  destruct (Conv1d_init_total (TransformerDiffusion.kw_input_vec_dim kw)
              (TransformerDiffusion.kw_model_channels kw) 1 0 true g3)
    as (ic & g4 & ->).
  unfold bind at 1.
  destruct (fresh3_total 1 (TransformerDiffusion.kw_model_channels kw) 1 g4)
    as (ue & g5 & ->).
  unfold bind at 1.
  destruct (Conv1d_init_total (TransformerDiffusion.kw_model_channels kw * 2)
              (TransformerDiffusion.kw_model_channels kw) 1 0 true g5)
    as (ig & g6 & ->).
  unfold bind at 1.
  destruct (TransformerDiffusion.kw_num_layers kw) as [|n]; [lia|].
  simpl. unfold bind at 1.
  now rewrite ConcatAttentionBlock_init_ValueError.
Qed.

End Constructors.

(* ===================================================================== *)
(** ** Shapes through a convolution *)
(* ===================================================================== *)

Lemma Conv1d_forward_elem_Ok (c : Conv1d.t) (m y : Mat) :
  Conv1d.forward_elem c m = Ok y ->
  length m = Conv1d.in_channels c
  /\ (Conv1d.kernel_size c <= length (hd [] m) + 2 * Conv1d.padding c)%nat
  /\ y = map (fun o =>
                map (fun s => Conv1d.bias_at c o + Conv1d.conv_at c m o s)
                    (seq 0 (length (hd [] m) + 2 * Conv1d.padding c
                            - Conv1d.kernel_size c + 1)))
             (seq 0 (Conv1d.out_channels c)).
Proof.
  unfold Conv1d.forward_elem.
  destruct (length m =? Conv1d.in_channels c)%nat eqn:E1;
    cbn [negb]; [|discriminate].
  destruct (length (hd [] m) + 2 * Conv1d.padding c <? Conv1d.kernel_size c)%nat
    eqn:E2; [discriminate|].
  intros H. injection H as <-.
  apply Nat.eqb_eq in E1. apply Nat.ltb_ge in E2. auto.
Qed.

(** The channel count of the result is the [out_channels] of the module. *)
Lemma Conv1d_forward_channels (c : Conv1d.t) (x y : Tensor3) :
  Conv1d.forward c x = Ok y ->
  length y = length x /\ Forall (fun m => length m = Conv1d.out_channels c) y.
Proof.
  unfold Conv1d.forward. intros H. apply sequence_map_Ok in H.
  split; [symmetry; eapply Forall2_length_eq; eauto|].
  induction H as [|m m' x y Hm _ IH]; constructor; auto.
  apply Conv1d_forward_elem_Ok in Hm as (_ & _ & ->).
  now rewrite length_map, length_seq.
Qed.

(** A kernel wider than twice the padding: the result is rectangular, its
    length is [L + 2 * padding - kernel_size + 1], and a non-empty batch can
    only pass with the right, non-zero number of input channels. *)
Lemma Conv1d_forward_shaped (c : Conv1d.t) (x y : Tensor3) B C L :
  shaped B C L x ->
  Conv1d.forward c x = Ok y ->
  (2 * Conv1d.padding c < Conv1d.kernel_size c)%nat ->
  shaped B (Conv1d.out_channels c)
         (L + 2 * Conv1d.padding c - Conv1d.kernel_size c + 1) y
  /\ ((0 < B)%nat ->
      C = Conv1d.in_channels c /\ (0 < C)%nat
      /\ (Conv1d.kernel_size c <= L + 2 * Conv1d.padding c)%nat).
Proof.
  intros [HB Hx] H Hk. unfold Conv1d.forward in H. apply sequence_map_Ok in H.
  assert (Helem : forall m m', length m = C /\ rows_of_length L m ->
                               Conv1d.forward_elem c m = Ok m' ->
                               (length m' = Conv1d.out_channels c
                                /\ rows_of_length
                                     (L + 2 * Conv1d.padding c
                                      - Conv1d.kernel_size c + 1) m')
                               /\ C = Conv1d.in_channels c /\ (0 < C)%nat
                               /\ (Conv1d.kernel_size c
                                   <= L + 2 * Conv1d.padding c)%nat).
  { intros m m' [HC Hr] Hm.
    apply Conv1d_forward_elem_Ok in Hm as (Hin & Hlen & ->).
    destruct m as [|r m]; simpl in *; [lia|].
    inversion Hr as [|? ? Hr0 _]. rewrite Hr0 in *.
    repeat split; try lia.
    - now rewrite length_map, length_seq.
    - apply Forall_map, Forall_forall. intros o _.
      now rewrite length_map, length_seq. }
  split.
  - split; [rewrite <- HB; symmetry; eapply Forall2_length_eq; eauto|].
    clear HB. induction H as [|m m' x y Hm _ IH]; constructor.
    + inversion Hx; subst. now apply (Helem m m').
    + inversion Hx; subst. auto.
  - intros Hpos. destruct H as [|m m' x y Hm _]; simpl in HB; [lia|].
    inversion Hx; subst. now apply (Helem m m').
Qed.

(** The two geometries the model uses keep the length. *)
Lemma Conv1d_forward_same_length (c : Conv1d.t) (x y : Tensor3) B C L :
  shaped B C L x ->
  Conv1d.forward c x = Ok y ->
  Conv1d.kernel_size c = (2 * Conv1d.padding c + 1)%nat ->
  shaped B (Conv1d.out_channels c) L y
  /\ ((0 < B)%nat -> C = Conv1d.in_channels c /\ (0 < C)%nat /\ (0 < L)%nat).
Proof.
  intros Hx H Hk.
  destruct (Conv1d_forward_shaped c x y B C L Hx H) as [Hy Hpos]; [lia|].
  split.
  - destruct (Nat.eq_dec B 0) as [-> | HB].
    + apply shaped_empty in Hy. subst. apply shaped_nil.
    + destruct Hpos as (_ & _ & Hle); [lia|].
      replace L with (L + 2 * Conv1d.padding c - Conv1d.kernel_size c + 1)%nat
        at 1 by lia.
      exact Hy.
  - intros HB. destruct (Hpos HB) as (? & ? & ?). repeat split; auto. lia.
Qed.

(* ===================================================================== *)
(** ** The projection of the block embedding *)
(* ===================================================================== *)

Section Projection.
Context {F : Framework}.

(** C3 (as amended).  In a [ConcatAttentionBlock] the projection of the
    block embedding produces as many channels as the sub-block's own
    input has: [trunk_dim] in [block1], and
    [trunk_dim + 2 * contraction_dim] in [block2], whose input is the
    output of [block1]. *)
Theorem blk_emb_projection_channels
        (trunk_dim contraction_dim heads : nat) (p : Qc) (masking : bool)
        (g : Rng) (blk : ConcatAttentionBlock.t) (g' : Rng)
        (Hinit : ConcatAttentionBlock.init trunk_dim contraction_dim heads p
                                           masking g = Ok (blk, g')) :
  forall (blk_emb y : Tensor3),
    (Conv1d.forward (SubBlock.blk_emb_proj (ConcatAttentionBlock.block1 blk))
                    blk_emb = Ok y ->
     Forall (fun m => length m = trunk_dim) y)
    /\ (Conv1d.forward (SubBlock.blk_emb_proj (ConcatAttentionBlock.block2 blk))
                       blk_emb = Ok y ->
        Forall (fun m => length m = (trunk_dim + contraction_dim * 2)%nat) y).
Proof.
  apply ConcatAttentionBlock_init_Ok in Hinit
    as (_ & ((_ & H1 & _) & _) & ((_ & H2 & _) & _) & _).
  intros blk_emb y. split; intros Hy;
    apply Conv1d_forward_channels in Hy as [_ Hy].
  - now rewrite H1 in Hy.
  - now rewrite H2 in Hy.
Qed.

(** C9 (as amended).  With [freeze_except_code_converters=True] the
    constructor never returns a model.  Whenever the attributes and
    sub-modules of lines 89-117 can be built, the freeze branch raises
    [AttributeError] at [self.code_converter], a name the constructor never
    assigns; when one of the sub-module constructors raises, that exception
    is the one that leaves the constructor. *)
Theorem freeze_except_code_converters_raises
        (kw : TransformerDiffusion.kwargs) (g : Rng)
        (Hfreeze : TransformerDiffusion.kw_freeze_except_code_converters kw = true) :
  (forall self g', TransformerDiffusion.init kw g <> Ok (self, g'))
  /\ (forall self g',
         TransformerDiffusion.build kw g = Ok (self, g') ->
         TransformerDiffusion.init kw g = Raise AttributeError)
  /\ (forall e,
         TransformerDiffusion.build kw g = Raise e ->
         TransformerDiffusion.init kw g = Raise e)
  /\ TransformerDiffusion.getattr_module "code_converter" = Raise AttributeError.
Proof.
  unfold TransformerDiffusion.init, bind. rewrite Hfreeze.
  repeat split.
  - intros self g'. destruct (TransformerDiffusion.build kw g) as [[s g1]|e];
      discriminate.
  - intros self g' ->. reflexivity.
  - intros e ->. reflexivity.
Qed.

End Projection.

(* ===================================================================== *)
(** ** Shapes through the other tensor operations *)
(* ===================================================================== *)

Lemma rows_app {A} (L1 L2 C : nat) (m1 m2 : list (list A)) :
  length m1 = C -> length m2 = C ->
  rows_of_length L1 m1 -> rows_of_length L2 m2 ->
  length (map2 (@app A) m1 m2) = C
  /\ rows_of_length (L1 + L2) (map2 (@app A) m1 m2).
Proof.
  revert C m2. induction m1 as [|r1 m1 IH]; intros C [|r2 m2] H1 H2 Hr1 Hr2;
    simpl in *; subst; try discriminate.
  - split; [reflexivity | constructor].
  - injection H2 as H2. inversion Hr1; inversion Hr2; subst.
    destruct (IH (length m1) m2) as [Hl Hr]; auto.
    split; [now rewrite Hl|].
    constructor; [now rewrite length_app | exact Hr].
Qed.

(** Concatenation along the positions. *)
Lemma cat_dim2_shaped {A} (a b y : tensor3 A) B1 C1 L1 B2 C2 L2 :
  shaped B1 C1 L1 a -> shaped B2 C2 L2 b ->
  cat_dim2 a b = Ok y ->
  y = map2 (map2 (@app A)) a b
  /\ B1 = B2
  /\ ((0 < B1)%nat -> C1 = C2)
  /\ shaped B1 C1 (L1 + L2) y.
Proof.
  intros Ha Hb. unfold cat_dim2.
  destruct ((size0 a =? size0 b)%nat && (size1 a =? size1 b)%nat) eqn:E;
    [|discriminate].
  intros H. injection H as <-.
  apply andb_true_iff in E as [E0 E1]. apply Nat.eqb_eq in E0, E1.
  rewrite (shaped_size0 _ _ _ _ Ha), (shaped_size0 _ _ _ _ Hb) in E0. subst B2.
  assert (HC : (0 < B1)%nat -> C1 = C2).
  { intros Hpos.
    now rewrite (shaped_size1 _ _ _ _ Ha Hpos), (shaped_size1 _ _ _ _ Hb Hpos) in E1. }
  repeat split; auto.
  - destruct Ha as [Hla _], Hb as [Hlb _]. clear - Hla Hlb.
    revert B1 b Hla Hlb. induction a as [|m a IH]; intros B1 [|m' b] Hla Hlb;
      simpl in *; subst; try discriminate; auto.
  - destruct Ha as [Hla Ha], Hb as [Hlb Hb]. clear E1.
    assert (HC' : a <> [] -> C1 = C2).
    { intros Hne. apply HC. destruct a; [congruence | simpl in Hla; lia]. }
    clear HC Hla Hlb. revert b Hb HC'.
    induction Ha as [|m a [Hm Hr] _ IH]; intros b Hb HC.
    + constructor.
    + destruct b as [|m' b]; [constructor|].
      inversion Hb as [|? ? [Hm' Hr'] Hb']; subst.
      assert (E : length m = length m') by (apply HC; try discriminate).
      simpl. constructor.
      * apply rows_app; auto.
      * apply IH; auto.
Qed.

(** Concatenation along the channels of two tensors of the same batch size
    and length. *)
Lemma cat_dim1_shaped {A} (a b y : tensor3 A) B C1 C2 L :
  shaped B C1 L a -> shaped B C2 L b ->
  cat_dim1 a b = Ok y ->
  y = map2 (@app (list A)) a b /\ shaped B (C1 + C2) L y.
Proof.
  intros [Hla Ha] [Hlb Hb]. unfold cat_dim1.
  destruct ((size0 a =? size0 b)%nat && (size2 a =? size2 b)%nat); [|discriminate].
  intros H. injection H as <-. split; [reflexivity|].
  revert B b Hla Hlb Hb.
  induction Ha as [|m a [Hm Hr] _ IH]; intros B b Hla Hlb Hb.
  - simpl in *. subst. split; [reflexivity | constructor].
  - destruct b as [|m' b]; simpl in *; [subst; discriminate|].
    inversion Hb as [|? ? [Hm' Hr'] Hb']; subst.
    injection Hlb as Hlb.
    destruct (IH (length a) b eq_refl Hlb Hb') as [Hl Hall].
    split; [simpl; now rewrite Hl|].
    constructor; [|exact Hall].
    split; [now rewrite length_app|].
    apply Forall_app. split; assumption.
Qed.

Lemma slice_dim2_shaped {A} (n : nat) (x : tensor3 A) B C M L :
  shaped B C (M + L) x -> ((0 < B)%nat -> n = M) ->
  shaped B C L (slice_dim2_from n x).
Proof.
  intros [HB Hx] Hn. unfold slice_dim2_from. split; [now rewrite length_map|].
  destruct x as [|m x]; [constructor|].
  assert (n = M) by (apply Hn; simpl in HB; lia). subst n.
  apply Forall_map. eapply Forall_impl; [|exact Hx].
  intros m0 [HC Hr]. split; [now rewrite length_map|].
  apply Forall_map. eapply Forall_impl; [|exact Hr].
  intros r Hl. cbv beta in Hl. rewrite length_skipn, Hl. lia.
Qed.

Lemma slice_dim1_shaped {A} (n : nat) (x : tensor3 A) B C L :
  shaped B C L x -> shaped B (C - n) L (slice_dim1_from n x).
Proof.
  intros [HB Hx]. unfold slice_dim1_from. split; [now rewrite length_map|].
  apply Forall_map. eapply Forall_impl; [|exact Hx].
  intros m [HC Hr]. split; [rewrite length_skipn; lia|].
  unfold rows_of_length in *. rewrite Forall_forall in *.
  intros r Hin. apply Hr.
  rewrite <- (firstn_skipn n m). apply in_or_app. now right.
Qed.

Lemma mapM_length {A B} (f : A -> M B) l g ys g' :
  mapM f l g = Ok (ys, g') -> length ys = length l.
Proof.
  intros H. apply mapM_Ok in H. symmetry. eapply Forall2_length_eq; eauto.
Qed.

Lemma mapM3_shaped {A B'} (f : A -> M B') (x : tensor3 A) g (y : tensor3 B') g'
      B C L :
  shaped B C L x ->
  mapM (mapM (mapM f)) x g = Ok (y, g') ->
  shaped B C L y.
Proof.
  intros [HB Hx] H. split.
  - rewrite <- HB. exact (mapM_length _ _ _ _ _ H).
  - apply mapM_Ok in H. clear HB.
    induction H as [|m m' x y (g1 & g2 & Hm) _ IH]; [constructor|].
    inversion Hx as [|? ? [HC Hr] Hx']; subst. constructor; [|auto].
    split; [exact (mapM_length _ _ _ _ _ Hm)|].
    apply mapM_Ok in Hm. clear IH Hx Hx'.
    induction Hm as [|r r' m m' (g3 & g4 & Hrow) _ IH]; [constructor|].
    inversion Hr as [|? ? Hl Hr']; subst.
    constructor; [exact (mapM_length _ _ _ _ _ Hrow) | apply IH; exact Hr'].
Qed.

Lemma Dropout_forward_shaped (d : Dropout.t) (x y : Tensor3) g g' B C L :
  shaped B C L x -> Dropout.forward d x g = Ok (y, g') -> shaped B C L y.
Proof.
  intros Hx. unfold Dropout.forward.
  destruct (Dropout.training d && Qcltb 0 (Dropout.p d)).
  - destruct (Qcltb (Dropout.p d) 1).
    + apply mapM3_shaped. exact Hx.
    + intros H. inv_ok. now apply shaped_tmap.
  - intros H. now inv_ok.
Qed.

Lemma map2_seq_rows {A B} (f : nat -> list A -> list B) (L : nat) :
  (forall c r, length (f c r) = length r) ->
  forall m k,
    length (map2 f (seq k (length m)) m) = length m
    /\ (rows_of_length L m -> rows_of_length L (map2 f (seq k (length m)) m)).
Proof.
  intros Hf. induction m as [|r m IH]; intros k; simpl.
  - split; [reflexivity | constructor].
  - destruct (IH (S k)) as [Hlen Hrows]. split; [now rewrite Hlen|].
    intros Hr. inversion Hr as [|? ? Hl Hr']; subst.
    constructor; [now rewrite Hf | exact (Hrows Hr')].
Qed.

Section GroupNormShape.
Context {F : Framework}.

Lemma GroupNorm_forward_Ok (n : GroupNorm.t) (x y : Tensor3) :
  GroupNorm.forward n x = Ok y ->
  sequence (map (GroupNorm.forward_elem n) x) = Ok y.
Proof.
  unfold GroupNorm.forward.
  destruct (size0 x * size1 x / GroupNorm.num_groups n * size2 x =? 1)%nat;
    [discriminate | auto].
Qed.

Lemma GroupNorm_forward_shaped (n : GroupNorm.t) (x y : Tensor3) B C L :
  shaped B C L x -> GroupNorm.forward n x = Ok y ->
  shaped B C L y /\ ((0 < B)%nat -> C = GroupNorm.num_channels n).
Proof.
  intros [HB Hx] H. apply GroupNorm_forward_Ok, sequence_map_Ok in H.
  assert (Helem : forall m m', length m = C /\ rows_of_length L m ->
                               GroupNorm.forward_elem n m = Ok m' ->
                               (length m' = C /\ rows_of_length L m')
                               /\ C = GroupNorm.num_channels n).
  { intros m m' [HC Hr]. unfold GroupNorm.forward_elem.
    destruct (length m =? GroupNorm.num_channels n)%nat eqn:E;
      cbn [negb]; [|discriminate].
    intros Hm. injection Hm as <-. apply Nat.eqb_eq in E.
    split; [|congruence]. clear E. rewrite <- HC.
    match goal with
    | |- context [map2 ?f (seq 0 (length m)) m] =>
        destruct (map2_seq_rows f L (fun c r => length_map _ r) m 0%nat)
          as [Hlen Hrows]
    end.
    split; [exact Hlen | exact (Hrows Hr)]. }
  split.
  - split; [rewrite <- HB; symmetry; eapply Forall2_length_eq; eauto|].
    clear HB. induction H as [|m m' x y Hm _ IH]; constructor;
      inversion Hx; subst; auto.
    now apply (Helem m m').
  - intros Hpos. destruct H as [|m m' x y Hm _]; simpl in HB; [lia|].
    inversion Hx; subst. now apply (Helem m m').
Qed.

Lemma AttentionBlock_forward_shaped (a : AttentionBlock) (x y : Tensor3) mask
      B C L :
  shaped B C L x -> AttentionBlock_forward a x mask = Ok y ->
  shaped B (AttentionBlock_out_channels a) L y.
Proof.
  intros Hx Hy. apply is_shape_iff.
  eapply AttentionBlock_shape; [apply is_shape_iff; exact Hx | exact Hy].
Qed.

End GroupNormShape.

(* ===================================================================== *)
(** ** SubBlock: concatenation before attention, stripping after it *)
(* ===================================================================== *)

Section SubBlockShape.
Context {F : Framework}.

Lemma attn_input_shaped (sb : SubBlock.t) (x blk_emb inp : Tensor3)
      B C L Be Ce M :
  Conv1d.kernel_size (SubBlock.blk_emb_proj sb) = 1%nat ->
  Conv1d.padding (SubBlock.blk_emb_proj sb) = 0%nat ->
  shaped B C L x -> shaped Be Ce M blk_emb ->
  SubBlock.attn_input sb x blk_emb = Ok inp ->
  exists blk_enc,
    Conv1d.forward (SubBlock.blk_emb_proj sb) blk_emb = Ok blk_enc
    /\ shaped B (Conv1d.out_channels (SubBlock.blk_emb_proj sb)) M blk_enc
    /\ inp = map2 (map2 (@app Qc)) blk_enc x
    /\ shaped B (Conv1d.out_channels (SubBlock.blk_emb_proj sb)) (M + L) inp
    /\ Be = B
    /\ ((0 < B)%nat -> size2 blk_emb = M
                       /\ C = Conv1d.out_channels (SubBlock.blk_emb_proj sb)).
Proof.
  intros Hk Hp Hx He H. unfold SubBlock.attn_input in H.
  apply rbind_Ok in H as (blk_enc & Hconv & Hcat).
  destruct (Conv1d_forward_same_length _ _ _ _ _ _ He Hconv) as [Henc Hpos];
    [rewrite Hk, Hp; reflexivity|].
  destruct (cat_dim2_shaped _ _ _ _ _ _ _ _ _ Henc Hx Hcat)
    as (-> & -> & HC & Hinp).
  exists blk_enc. repeat split; auto.
  - now destruct Henc.
  - now destruct Henc.
  - now destruct Hinp.
  - now destruct Hinp.
  - destruct (Hpos H) as (_ & HCe & _).
    exact (shaped_size2 _ _ _ _ He H HCe).
  - symmetry. now apply HC.
Qed.

Lemma attn_branch_shaped (sb : SubBlock.t) (x blk_emb ah : Tensor3) g g'
      B C L Be Ce M :
  Conv1d.kernel_size (SubBlock.blk_emb_proj sb) = 1%nat ->
  Conv1d.padding (SubBlock.blk_emb_proj sb) = 0%nat ->
  shaped B C L x -> shaped Be Ce M blk_emb ->
  SubBlock.attn_branch sb x blk_emb g = Ok (ah, g') ->
  shaped B (AttentionBlock_out_channels (SubBlock.attn sb)) L ah.
Proof.
  intros Hk Hp Hx He H. unfold SubBlock.attn_branch in H.
  apply bind_Ok in H as (inp & g1 & Hinp & H). apply lift_Ok in Hinp as [Hinp ->].
  apply bind_Ok in H as (a & g2 & Hatt & H). apply lift_Ok in Hatt as [Hatt ->].
  apply bind_Ok in H as (d & g3 & Hdrop & H). apply ret_Ok in H as [-> ->].
  destruct (attn_input_shaped _ _ _ _ _ _ _ _ _ _ Hk Hp Hx He Hinp)
    as (blk_enc & _ & _ & _ & Hshape & _ & Hpos).
  apply (AttentionBlock_forward_shaped _ _ _ _ _ _ _ Hshape) in Hatt.
  apply (Dropout_forward_shaped _ _ _ _ _ _ _ _ Hatt) in Hdrop.
  apply (slice_dim2_shaped _ _ _ _ _ _ Hdrop).
  intros HB. now destruct (Hpos HB).
Qed.




End SubBlockShape.

(* ===================================================================== *)
(** ** Zero-initialised convolutions and the identity of a fresh block *)
(* ===================================================================== *)

Lemma nth_all_zero (l : list Qc) (i : nat) :
  Forall (fun v => v = 0) l -> nth i l 0 = 0.
Proof.
  intros H. destruct (nth_in_or_default i l 0) as [Hin | ->]; [|reflexivity].
  rewrite Forall_forall in H. now apply H.
Qed.

Lemma weight_at_zero (c : Conv1d.t) (o i j : nat) :
  all_zero (data (Conv1d.weight c)) -> Conv1d.weight_at c o i j = 0.
Proof.
  intros H. unfold Conv1d.weight_at, all_zero in *.
  apply nth_all_zero.
  destruct (nth_in_or_default i (nth o (data (Conv1d.weight c)) []) [])
    as [Hin | ->]; [|constructor].
  destruct (nth_in_or_default o (data (Conv1d.weight c)) []) as [Hin'|E].
  - rewrite Forall_forall in H. specialize (H _ Hin').
    rewrite Forall_forall in H. now apply H.
  - rewrite E in Hin. destruct Hin.
Qed.

Lemma Qcsum_zero {A} (f : A -> Qc) (l : list A) :
  (forall a, f a = 0) -> Qcsum (map f l) = 0.
Proof.
  intros Hf. induction l as [|a l IH]; simpl; [reflexivity|].
  rewrite Hf, IH. ring.
Qed.

Lemma conv_at_zero (c : Conv1d.t) (m : Mat) (o s : nat) :
  all_zero (data (Conv1d.weight c)) -> Conv1d.conv_at c m o s = 0.
Proof.
  intros H. unfold Conv1d.conv_at.
  apply Qcsum_zero. intros i. apply Qcsum_zero. intros j.
  rewrite weight_at_zero by exact H. ring.
Qed.

(** A zero convolution returns zeros, whatever it is given (exact
    rationals: every value is finite). *)
Lemma Conv1d_zero_forward (c : Conv1d.t) (x y : Tensor3) :
  zero_conv c -> Conv1d.forward c x = Ok y -> all_zero y.
Proof.
  intros [Hw Hb] H. unfold Conv1d.forward in H. apply sequence_map_Ok in H.
  unfold all_zero. induction H as [|m m' x y Hm _ IH]; constructor; auto.
  apply Conv1d_forward_elem_Ok in Hm as (_ & _ & ->).
  apply Forall_map, Forall_forall. intros o _.
  apply Forall_map, Forall_forall. intros s _.
  rewrite Hb, conv_at_zero by exact Hw. ring.
Qed.

Lemma broadcast_same_length {A B C} (f : A -> B -> result C) l1 l2 :
  length l1 = length l2 -> broadcast f l1 l2 = sequence (map2 f l1 l2).
Proof. intros E. unfold broadcast. now rewrite E, Nat.eqb_refl. Qed.

(** An operation that returns its second operand on related elements does so
    on related lists. *)
Lemma broadcast_returns_second {A B} (f : A -> B -> result B) (P : A -> B -> Prop) :
  (forall a b, P a b -> f a b = Ok b) ->
  forall l1 l2, Forall2 P l1 l2 -> broadcast f l1 l2 = Ok l2.
Proof.
  intros Hf l1 l2 H.
  rewrite broadcast_same_length by (eapply Forall2_length_eq; eauto).
  induction H as [|a b l1 l2 Hab _ IH]; simpl; [reflexivity|].
  rewrite (Hf _ _ Hab). simpl. rewrite IH. reflexivity.
Qed.

Lemma Forall2_of_Forall {A B} (P : A -> Prop) (Q : B -> Prop) l1 l2 :
  Forall P l1 -> Forall Q l2 -> length l1 = length l2 ->
  Forall2 (fun a b => P a /\ Q b) l1 l2.
Proof.
  intros H1. revert l2. induction H1 as [|a l1 Ha _ IH]; intros [|b l2] H2 Hl;
    simpl in Hl; try discriminate; constructor.
  - inversion H2; subst. auto.
  - inversion H2; subst. apply IH; auto.
Qed.

(** Adding zeros of the same shape returns the other operand. *)
Lemma tadd_zeros_l (z x : Tensor3) B C L :
  all_zero z -> shaped B C L z -> shaped B C L x -> tadd z x = Ok x.
Proof.
  intros Hz [HBz Hsz] [HBx Hsx]. unfold tadd, broadcast3.
  apply broadcast_returns_second
    with (P := fun zm xm =>
                 (Forall (Forall (fun v => v = 0)) zm
                  /\ length zm = C /\ rows_of_length L zm)
                 /\ (length xm = C /\ rows_of_length L xm)).
  - intros zm xm [(Hzm & Hlz & Hrz) (Hlx & Hrx)].
    apply broadcast_returns_second
      with (P := fun zr xr =>
                   (Forall (fun v => v = 0) zr /\ length zr = L) /\ length xr = L).
    + intros zr xr [[Hzr Hl1] Hl2].
      apply broadcast_returns_second with (P := fun a (_ : Qc) => a = 0).
      * intros a b ->. f_equal. ring.
      * clear - Hzr Hl1 Hl2. subst L. revert xr Hl2.
        induction Hzr as [|a zr Ha _ IH]; intros [|b xr] Hl; simpl in Hl;
          try discriminate; constructor; auto.
    + eapply Forall2_impl;
        [|apply (Forall2_of_Forall
                   (fun zr => Forall (fun v => v = 0) zr /\ length zr = L)
                   (fun xr => length xr = L)); [| exact Hrx | congruence]].
      * intros zr xr H. exact H.
      * clear - Hzm Hrz. induction Hzm; inversion Hrz; subst; constructor; auto.
  - eapply Forall2_impl;
      [|apply (Forall2_of_Forall
                 (fun zm => Forall (Forall (fun v => v = 0)) zm
                            /\ length zm = C /\ rows_of_length L zm)
                 (fun xm => length xm = C /\ rows_of_length L xm));
        [| exact Hsx | congruence]].
    + intros zm xm H. exact H.
    + clear - Hz Hsz. unfold all_zero in Hz.
      induction Hz; inversion Hsz; subst; constructor; auto.
Qed.

Section FreshBlock.
Context {F : Framework}.

Lemma SubBlock_forward_shaped (inp_dim contraction_dim blk_dim : nat)
      (sb : SubBlock.t) (x blk_emb h : Tensor3) g g' B C L Be Ce M :
  subblock_geometry inp_dim contraction_dim blk_dim sb ->
  shaped B C L x -> shaped Be Ce M blk_emb ->
  SubBlock.forward sb x blk_emb g = Ok (h, g') ->
  shaped B (AttentionBlock_out_channels (SubBlock.attn sb) + C + contraction_dim)
         L h.
Proof.
  intros ((_ & _ & Hk & Hp) & (_ & Hffo & Hffk & Hffp) & _ & _) Hx He H.
  unfold SubBlock.forward, checkpoint in H.
  apply bind_Ok in H as (ah & g1 & Hah & H).
  apply bind_Ok in H as (ahn & g2 & Hahn & H). apply lift_Ok in Hahn as [Hahn ->].
  apply bind_Ok in H as (h1 & g3 & Hh1 & H). apply lift_Ok in Hh1 as [Hh1 ->].
  apply bind_Ok in H as (f & g4 & Hf & H). apply lift_Ok in Hf as [Hf ->].
  apply bind_Ok in H as (hf & g5 & Hhf & H).
  apply bind_Ok in H as (hfn & g6 & Hhfn & H). apply lift_Ok in Hhfn as [Hhfn ->].
  apply lift_Ok in H as [H ->].
  pose proof (attn_branch_shaped _ _ _ _ _ _ _ _ _ _ _ _ Hk Hp Hx He Hah) as S1.
  destruct (GroupNorm_forward_shaped _ _ _ _ _ _ S1 Hahn) as [S2 _].
  destruct (cat_dim1_shaped _ _ _ _ _ _ _ (shaped_tmap gelu _ _ _ _ S2) Hx Hh1)
    as [_ S3].
  destruct (Conv1d_forward_same_length _ _ _ _ _ _ S3 Hf) as [S4 _];
    [rewrite Hffk, Hffp; reflexivity|].
  rewrite Hffo in S4.
  pose proof (Dropout_forward_shaped _ _ _ _ _ _ _ _ S4 Hhf) as S5.
  destruct (GroupNorm_forward_shaped _ _ _ _ _ _ S5 Hhfn) as [S6 _].
  destruct (cat_dim1_shaped _ _ _ _ _ _ _ S3 (shaped_tmap gelu _ _ _ _ S6) H)
    as [_ S7].
  exact S7.
Qed.

(** A block whose [out] convolution is zero returns its input. *)
Lemma ConcatAttentionBlock_forward_identity (trunk_dim contraction_dim : nat)
      (blk : ConcatAttentionBlock.t) (x blk_emb y : Tensor3) g g'
      B C L Be Ce M :
  block_initialised trunk_dim contraction_dim blk ->
  shaped B C L x -> shaped Be Ce M blk_emb ->
  ConcatAttentionBlock.forward blk x blk_emb g = Ok (y, g') ->
  y = x.
Proof.
  intros (Hpn & Hb1 & Hb2 & (_ & Hoo & Hok & Hop) & Hbias & Hzero) Hx He H.
  unfold ConcatAttentionBlock.forward in H.
  apply bind_Ok in H as (h0 & g1 & Hh0 & H). apply lift_Ok in Hh0 as [Hh0 ->].
  apply bind_Ok in H as (h1 & g2 & Hh1 & H).
  apply bind_Ok in H as (h2 & g3 & Hh2 & H).
  apply bind_Ok in H as (z & g4 & Hz & H). apply lift_Ok in Hz as [Hz ->].
  apply lift_Ok in H as [H ->].
  destruct (GroupNorm_forward_shaped _ _ _ _ _ _ Hx Hh0) as [S0 HC].
  pose proof (SubBlock_forward_shaped _ _ _ _ _ _ _ _ _ _ _ _ _ _ _
                Hb1 S0 He Hh1) as S1.
  pose proof (SubBlock_forward_shaped _ _ _ _ _ _ _ _ _ _ _ _ _ _ _
                Hb2 S1 He Hh2) as S2.
  pose proof (slice_dim1_shaped (size1 x) _ _ _ _ S2) as S3.
  destruct (Conv1d_forward_same_length _ _ _ _ _ _ S3 Hz) as [S4 _];
    [rewrite Hok, Hop; reflexivity|].
  rewrite Hoo in S4.
  assert (Hzeros : all_zero z).
  { eapply Conv1d_zero_forward; [|exact Hz].
    split; [exact Hzero|]. intros o. unfold Conv1d.bias_at. now rewrite Hbias. }
  assert (Hx' : shaped B trunk_dim L x).
  { destruct (Nat.eq_dec B 0) as [-> | HB].
    - apply shaped_empty in Hx. subst. apply shaped_nil.
    - rewrite <- Hpn, <- HC by lia. exact Hx. }
  rewrite (tadd_zeros_l _ _ _ _ _ Hzeros S4 Hx') in H.
  now injection H as <-.
Qed.

(** The whole stack of freshly built blocks returns its input. *)
Lemma run_layers_identity (trunk_dim contraction_dim : nat)
      (ls : list ConcatAttentionBlock.t) (blk_emb : Tensor3) B C L Be Ce M :
  Forall (block_initialised trunk_dim contraction_dim) ls ->
  shaped Be Ce M blk_emb ->
  forall x y g g',
    shaped B C L x ->
    TransformerDiffusion.run_layers ls x blk_emb g = Ok (y, g') ->
    y = x.
Proof.
  intros Hls He. induction Hls as [|lyr ls Hlyr _ IH]; intros x y g g' Hx H.
  - simpl in H. now apply ret_Ok in H as [-> _].
  - simpl in H. unfold checkpoint in H.
    apply bind_Ok in H as (x' & g1 & Hstep & H).
    apply (ConcatAttentionBlock_forward_identity _ _ _ _ _ _ _ _ _ _ _ _ _ _
             Hlyr Hx He) in Hstep.
    subst x'. eapply IH; eauto.
Qed.

(** What [build] leaves behind. *)
Lemma build_Ok (kw : TransformerDiffusion.kwargs) g self g' :
  TransformerDiffusion.build kw g = Ok (self, g') ->
  Forall (block_initialised (TransformerDiffusion.kw_model_channels kw)
                            (TransformerDiffusion.kw_contraction_dim kw))
         (TransformerDiffusion.layers self)
  /\ Conv1d.out_channels
       (TransformerDiffusion.out_conv (TransformerDiffusion.out self))
     = TransformerDiffusion.kw_out_channels kw.
Proof.
  unfold TransformerDiffusion.build, conv_nd, linear. intros H. inv_ok. inv_init.
  simpl. split.
  - match goal with
    | Hm : mapM _ _ _ = Ok (_, _) |- _ => apply mapM_Ok in Hm; rename Hm into Hls
    end.
    induction Hls as [|n lyr ns ls (ga & gb & Hlyr) _ IH]; constructor; auto.
    eapply ConcatAttentionBlock_init_Ok; eauto.
  - match goal with
    | Hg : conv_geometry _ _ 3 1 ?c
      |- Conv1d.out_channels (zero_module ?c) = _ =>
        destruct (zero_module_geometry c) as (_ & -> & _);
        now destruct Hg as (_ & ? & _)
    end.
Qed.

Lemma init_Ok (kw : TransformerDiffusion.kwargs) g self g' :
  TransformerDiffusion.init kw g = Ok (self, g') ->
  TransformerDiffusion.build kw g = Ok (self, g').
Proof.
  unfold TransformerDiffusion.init. intros H.
  apply bind_Ok in H as (s & g1 & Hb & H).
  destruct (TransformerDiffusion.kw_freeze_except_code_converters kw).
  - apply lift_Ok in H as [H _]. discriminate.
  - apply ret_Ok in H as [-> ->]. exact Hb.
Qed.

(** X16.  Right after construction every [ConcatAttentionBlock] of the
    model is the identity on [x], over exact arithmetic (finite values): its
    [out] convolution has a zero weight and no bias, so for every call that
    returns, the block returns the tensor [x] it is given, and so does the
    whole stack of layers. *)
Theorem fresh_blocks_return_their_input
        (kw : TransformerDiffusion.kwargs) (g0 g1 : Rng)
        (self : TransformerDiffusion.t)
        (Hinit : TransformerDiffusion.init kw g0 = Ok (self, g1)) :
  (forall lyr,
      In lyr (TransformerDiffusion.layers self) ->
      all_zero (data (Conv1d.weight (ConcatAttentionBlock.out lyr)))
      /\ Conv1d.bias (ConcatAttentionBlock.out lyr) = None)
  /\ (forall lyr x blk_emb B C L Ce M g y g',
         In lyr (TransformerDiffusion.layers self) ->
         is_shape B C L x = true ->
         is_shape B Ce M blk_emb = true ->
         ConcatAttentionBlock.forward lyr x blk_emb g = Ok (y, g') ->
         y = x)
  /\ (forall x blk_emb B C L Ce M g y g',
         is_shape B C L x = true ->
         is_shape B Ce M blk_emb = true ->
         TransformerDiffusion.run_layers (TransformerDiffusion.layers self)
                                         x blk_emb g = Ok (y, g') ->
         y = x).
Proof.
  apply init_Ok in Hinit. apply build_Ok in Hinit as (Hls & _).
  split; [|split].
  - intros lyr Hin. rewrite Forall_forall in Hls.
    destruct (Hls lyr Hin) as (_ & _ & _ & _ & Hb & Hz). auto.
  - intros lyr x blk_emb B C L Ce M g y g' Hin Hx He H.
    rewrite Forall_forall in Hls. apply is_shape_iff in Hx, He.
    eapply ConcatAttentionBlock_forward_identity; eauto.
  - intros x blk_emb B C L Ce M g y g' Hx He H.
    apply is_shape_iff in Hx, He.
    eapply run_layers_identity; eauto.
Qed.

End FreshBlock.

(* ===================================================================== *)
(** ** Conditioning dropout *)
(* ===================================================================== *)

Lemma sequence_map2_total {A B C} (f : A -> B -> result C) (f' : A -> B -> C) l1 l2 :
  (forall a b, In a l1 -> In b l2 -> f a b = Ok (f' a b)) ->
  sequence (map2 f l1 l2) = Ok (map2 f' l1 l2).
Proof.
  revert l2. induction l1 as [|a l1 IH]; intros [|b l2] Hf; simpl; try reflexivity.
  rewrite Hf by (now left). simpl.
  rewrite IH by (intros; apply Hf; now right). reflexivity.
Qed.

Lemma sequence_map_total_in {A B} (f : A -> result B) (f' : A -> B) l :
  (forall a, In a l -> f a = Ok (f' a)) ->
  sequence (map f l) = Ok (map f' l).
Proof.
  induction l as [|a l IH]; intros Hf; simpl; [reflexivity|].
  rewrite Hf by (now left). simpl.
  rewrite IH by (intros; apply Hf; now right). reflexivity.
Qed.

(** Broadcasting with an operation that cannot fail on the elements at
    hand. *)
Lemma broadcast_total {A B C} (f : A -> B -> result C) (f' : A -> B -> C) l1 l2 :
  (forall a b, In a l1 -> In b l2 -> f a b = Ok (f' a b)) ->
  broadcast f l1 l2
  = if (length l1 =? length l2)%nat then Ok (map2 f' l1 l2)
    else match l1, l2 with
         | [a], _ => Ok (map (f' a) l2)
         | _, [b] => Ok (map (fun a => f' a b) l1)
         | _, _ => Raise RuntimeError
         end.
Proof.
  intros Hf. unfold broadcast.
  destruct (length l1 =? length l2)%nat.
  - now apply sequence_map2_total.
  - destruct l1 as [|a [|a' l1]].
    + destruct l2 as [|b [|b' l2]]; reflexivity.
    + apply sequence_map_total_in. intros b Hb. apply Hf; [now left | exact Hb].
    + destruct l2 as [|b [|b' l2]]; try reflexivity.
      apply (sequence_map_total_in (fun a0 => f a0 b) (fun a0 => f' a0 b)).
      intros a0 Ha. apply Hf; [exact Ha | now left].
Qed.

Lemma map2_repeat_l {A B C} (f : A -> B -> C) (a : A) (l : list B) :
  map2 f (repeat a (length l)) l = map (f a) l.
Proof. induction l as [|b l IH]; simpl; [|rewrite IH]; reflexivity. Qed.

Lemma map2_repeat_r {A B C} (f : A -> B -> C) (l : list A) (b : B) :
  map2 f l (repeat b (length l)) = map (fun a => f a b) l.
Proof. induction l as [|a l IH]; simpl; [|rewrite IH]; reflexivity. Qed.

Lemma map2_repeat_both {A B C} (f : A -> B -> C) (a : A) (b : B) (n : nat) :
  map2 f (repeat a n) (repeat b n) = repeat (f a b) n.
Proof. induction n as [|n IH]; simpl; [|rewrite IH]; reflexivity. Qed.

Lemma map2_map_l {A B C D} (f : C -> B -> D) (h : A -> C) l1 l2 :
  map2 f (map h l1) l2 = map2 (fun a b => f (h a) b) l1 l2.
Proof.
  revert l2. induction l1 as [|a l1 IH]; intros [|b l2]; simpl;
    [| | |rewrite IH]; reflexivity.
Qed.

Lemma map2_ext_in {A B C} (f g : A -> B -> C) l1 l2 :
  (forall a b, In a l1 -> In b l2 -> f a b = g a b) ->
  map2 f l1 l2 = map2 g l1 l2.
Proof.
  revert l2. induction l1 as [|a l1 IH]; intros [|b l2] H; simpl; try reflexivity.
  rewrite H by (now left). rewrite IH by (intros; apply H; now right).
  reflexivity.
Qed.

Lemma map_const_repeat {A B} (b : B) (l : list A) :
  map (fun _ => b) l = repeat b (length l).
Proof. induction l as [|a l IH]; simpl; [|rewrite IH]; reflexivity. Qed.

(** *** One batch element of [torch.where] *)

Lemma pair_element (c : bool) (U : Mat) :
  rows_of_length 1 U ->
  broadcast (broadcast (fun (a : bool) (b : Qc) => Ok (a, b))) [[c]] U
  = Ok (paired c U).
Proof.
  intros HU.
  rewrite (broadcast_total _ (fun (cr : list bool) (r : Vec) => [(hd false cr, hd 0 r)])).
  - match goal with |- (if ?b then _ else _) = _ => destruct b eqn:E end.
    + destruct U as [|r [|r' U]]; simpl in E; try discriminate. reflexivity.
    + reflexivity.
  - intros cr r [<- | []] Hr.
    unfold rows_of_length in HU. rewrite Forall_forall in HU.
    specialize (HU r Hr).
    destruct r as [|v [|v' r]]; simpl in HU; try discriminate. reflexivity.
Qed.

Lemma select_element (c : bool) (U m : Mat) (S : nat) :
  length m = length U -> rows_of_length S m ->
  broadcast (broadcast (fun (p : bool * Qc) (y : Qc) =>
                          Ok (if fst p then snd p else y)))
            (paired c U) m
  = Ok (if c then map (fun r => repeat (hd 0 r) S) U else m).
Proof.
  intros Hlen Hm.
  rewrite (broadcast_total _
             (fun (pr : list (bool * Qc)) (r : Vec) =>
                map (fun y => if fst (hd (false, 0) pr) then snd (hd (false, 0) pr)
                              else y) r)).
  - unfold paired. rewrite length_map, <- Hlen, Nat.eqb_refl. f_equal.
    rewrite map2_map_l. simpl.
    destruct c.
    + revert m Hlen Hm. induction U as [|r U IH]; intros [|r' m] Hlen Hm;
        simpl in *; try discriminate; [reflexivity|].
      inversion Hm; subst. rewrite map_const_repeat. f_equal.
      apply IH; [congruence | assumption].
    + clear Hm. revert m Hlen. induction U as [|r U IH]; intros [|r' m] Hlen;
        simpl in *; try discriminate; [reflexivity|].
      rewrite map_id. f_equal. apply IH. congruence.
  - intros pr r Hpr _. unfold paired in Hpr.
    apply in_map_iff in Hpr as (r0 & <- & _).
    rewrite (broadcast_total _ (fun (p : bool * Qc) (y : Qc) =>
                                  if fst p then snd p else y))
      by reflexivity.
    match goal with |- (if ?b then _ else _) = _ => destruct b eqn:E end;
      [|reflexivity].
    destruct r as [|y [|y' r]]; simpl in E; try discriminate. reflexivity.
Qed.

Lemma expand_one {A} (l : list A) : expand 1 l = l.
Proof. destruct l as [|a [|a' l]]; reflexivity. Qed.

Lemma expand_not_singleton {A} (n : nat) (l : list A) :
  length l <> 1%nat -> expand n l = l.
Proof. destruct l as [|a [|a' l]]; simpl; intros H; [| lia |]; reflexivity. Qed.

Lemma expand_same_length {A} (l : list A) : expand (length l) l = l.
Proof. destruct l as [|a [|a' l]]; reflexivity. Qed.

(** A successful broadcast zips the two expanded lists. *)
Lemma broadcast_expand {A B C} (f : A -> B -> result C) (f' : A -> B -> C) l1 l2 r :
  (forall a b, In a l1 -> In b l2 -> f a b = Ok (f' a b)) ->
  broadcast f l1 l2 = Ok r ->
  r = map2 f' (expand (length l2) l1) (expand (length l1) l2)
  /\ (length l1 = length l2 \/ length l1 = 1%nat \/ length l2 = 1%nat).
Proof.
  intros Hf. rewrite (broadcast_total f f' l1 l2 Hf).
  destruct (length l1 =? length l2)%nat eqn:E.
  - apply Nat.eqb_eq in E. intros H. injection H as <-.
    replace (expand (length l2) l1) with l1
      by (rewrite <- E; symmetry; apply expand_same_length).
    replace (expand (length l1) l2) with l2
      by (rewrite E; symmetry; apply expand_same_length).
    auto.
  - apply Nat.eqb_neq in E.
    destruct l1 as [|a [|a' l1]].
    + destruct l2 as [|b [|b' l2]]; try discriminate.
      intros H. injection H as <-. simpl. auto.
    + intros H. injection H as <-. simpl length.
      rewrite expand_one. simpl. rewrite map2_repeat_l. auto.
    + destruct l2 as [|b [|b' l2]]; try discriminate.
      intros H. injection H as <-. simpl length.
      rewrite expand_one. split; [|auto].
      change (expand (S (S (length l1))) [b])
        with (repeat b (length (a :: a' :: l1))).
      now rewrite map2_repeat_r.
Qed.

Lemma unconditioned_rows_length (L C : nat) (emb : Tensor3) :
  shaped 1 C 1 emb ->
  length (unconditioned_rows L emb) = C /\ rows_of_length L (unconditioned_rows L emb).
Proof.
  intros [Hlen Hall]. unfold unconditioned_rows.
  destruct emb as [|m emb]; [discriminate|].
  inversion Hall as [|? ? [HC _] _]; subst. simpl.
  split; [now rewrite length_map|].
  apply Forall_map, Forall_forall. intros r _. apply repeat_length.
Qed.

Lemma unconditioned_rows_restretch (L : nat) (emb : Tensor3) :
  map (fun r => repeat (hd 0 r) L) (unconditioned_rows 1 emb)
  = unconditioned_rows L emb.
Proof. unfold unconditioned_rows. rewrite map_map. reflexivity. Qed.

(** [torch.where] on the mask of line 158, the repeated unconditioned
    embedding and the projected embedding. *)
Lemma torch_where_replaces (p : Qc) (emb proj : Tensor3) (u : list Qc)
      (Bx B C S : nat) (w : Tensor3) :
  shaped 1 C 1 emb -> shaped B C S proj -> length u = B ->
  torch_where (map (fun d => [[Qcltb d p]]) u) (tensor_repeat Bx 1 1 emb) proj
  = Ok w ->
  w = replace_unconditioned p emb S (expand Bx u) (expand Bx proj)
  /\ (B = Bx \/ B = 1%nat \/ Bx = 1%nat).
Proof.
  intros Hemb [HB Hproj] Hu H.
  rewrite (tensor_repeat_unit Bx C 1 emb Hemb) in H.
  destruct (unconditioned_rows_length 1 C emb Hemb) as [HUlen HUrows].
  pose proof (unconditioned_rows_restretch S emb) as HUS.
  set (U := unconditioned_rows 1 emb) in *.
  set (g1 := broadcast (broadcast (fun (a : bool) (b : Qc) => Ok (a, b)))) in *.
  set (g2 := broadcast (broadcast (fun (q : bool * Qc) (y : Qc) =>
                                     Ok (if fst q then snd q else y)))) in *.
  set (cm := fun d : Qc => [[Qcltb d p]]) in *.
  pose (f1 := fun (c : list (list bool)) (V : Mat) =>
                match g1 c V with Ok v => v | Raise _ => [] end).
  pose (f2 := fun (P : list (list (bool * Qc))) (m : Mat) =>
                match g2 P m with Ok v => v | Raise _ => m end).
  assert (Hf1 : forall d, f1 (cm d) U = paired (Qcltb d p) U
                          /\ g1 (cm d) U = Ok (f1 (cm d) U)).
  { intros d. unfold f1, g1, cm. rewrite (pair_element _ U HUrows). auto. }
  assert (Hf2 : forall d m, In m proj ->
                            f2 (paired (Qcltb d p) U) m
                            = (if Qcltb d p then unconditioned_rows S emb else m)
                            /\ g2 (paired (Qcltb d p) U) m
                               = Ok (f2 (paired (Qcltb d p) U) m)).
  { intros d m Hm. rewrite Forall_forall in Hproj.
    destruct (Hproj m Hm) as [Hlm Hrm].
    unfold f2, g2. rewrite (select_element _ U m S) by congruence.
    rewrite HUS. auto. }
  unfold torch_where, broadcast3 in H. fold g1 g2 in H.
  apply rbind_Ok in H as (ca & H1 & H2).
  apply (broadcast_expand g1 f1) in H1 as [Hca Hcompat1].
  2:{ intros c V Hc HV. apply in_map_iff in Hc as (d & <- & _).
      apply repeat_spec in HV. subst V. apply Hf1. }
  rewrite length_map, repeat_length, Hu in Hca, Hcompat1.
  assert (Hca' : ca = map (fun d => paired (Qcltb d p) U) (expand Bx u)
                 /\ (B = 1%nat \/ (B <> 1%nat /\ expand Bx u = u
                                   /\ expand Bx proj = proj))).
  { subst ca. destruct (Nat.eq_dec B 1) as [E1 | N1].
    - destruct u as [|d [|d' u]]; simpl in Hu; try lia.
      rewrite E1. simpl. rewrite expand_one, map2_repeat_both.
      rewrite (proj1 (Hf1 d)). split; [|auto].
      clear. induction Bx; simpl; [|rewrite <- IHBx]; reflexivity.
    - rewrite !(expand_not_singleton Bx) by (rewrite ?length_map; lia).
      split; [|right; auto].
      assert (Ea : @expand (list (list Qc)) B (repeat U Bx)
                   = repeat U (length (map cm u))).
      { rewrite length_map, Hu.
        destruct Hcompat1 as [-> | [? | ->]]; [| lia |].
        - apply expand_not_singleton. rewrite repeat_length. lia.
        - reflexivity. }
      rewrite Ea, map2_repeat_r, map_map.
      apply map_ext. intros d. apply Hf1. }
  destruct Hca' as [-> Hcases].
  apply (broadcast_expand g2 f2) in H2 as [Hw Hcompat2].
  2:{ intros P m HP Hm. apply in_map_iff in HP as (d & <- & _).
      now apply Hf2. }
  rewrite length_map, HB in Hw.
  split.
  - subst w. unfold replace_unconditioned.
    destruct Hcases as [E1 | (N1 & Eu & Ep)].
    + destruct u as [|d [|d' u]]; simpl in Hu; try lia.
      destruct proj as [|m0 [|m1 proj]]; simpl in HB; try lia.
      rewrite E1, expand_one. simpl expand.
      rewrite repeat_length, map_repeat, !map2_repeat_both.
      rewrite (proj1 (Hf2 d m0 (or_introl eq_refl))). reflexivity.
    + rewrite Eu, Ep in *. rewrite Hu.
      rewrite !(expand_not_singleton B) by (rewrite ?length_map; lia).
      rewrite map2_map_l. apply map2_ext_in. intros d m _ Hm. now apply Hf2.
  - destruct Hcompat1 as [? | [? | ?]]; auto.
Qed.

(** *** Single-precision index arithmetic *)

Section Float32.
Local Open Scope Q_scope.

Lemma round_half_even_exact (k d : Z) :
  (0 < d)%Z -> round_half_even (k * d) d = k.
Proof.
  intros Hd. unfold round_half_even.
  rewrite Z.div_mul, Z.mod_mul by lia.
  destruct (2 * 0 <? d)%Z eqn:E; [reflexivity|].
  apply Z.ltb_ge in E. lia.
Qed.

(** A number with a significand of at most 24 bits below [2^24] is its own
    rounding. *)
Lemma round_f32_pos_exact (a b : positive) (m u : Z) :
  (0 < m < 2 ^ 24)%Z -> (0 <= u)%Z ->
  (Zpos a * 2 ^ u = m * Zpos b)%Z ->
  round_f32_pos a b == Zpos a # b.
Proof.
  intros Hm Hu Hab. unfold round_f32_pos.
  set (A := Zpos a) in *. set (B := Zpos b) in *.
  assert (HA : (0 < A)%Z) by (unfold A; lia).
  assert (HB : (0 < B)%Z) by (unfold B; lia).
  pose proof (Z.log2_spec A HA) as [HlA1 HlA2].
  pose proof (Z.log2_spec B HB) as [HlB1 HlB2].
  pose proof (Z.log2_nonneg A) as HlA0.
  pose proof (Z.log2_nonneg B) as HlB0.
  set (la := Z.log2 A) in *. set (lb := Z.log2 B) in *.
  assert (Hpu : (1 <= 2 ^ u)%Z) by (apply Z.pow_le_mono_r with (b := 0%Z) (c := u); lia).
  assert (HAB : (A < 2 ^ 24 * B)%Z) by nia.
  rewrite Z.pow_succ_r in HlA2, HlB2 by lia.
  assert (Hs : (0 <= 24 - (la - lb))%Z).
  { destruct (Z.le_gt_cases 0 (24 - (la - lb))) as [H | H]; [exact H|exfalso].
    assert (Hle : (2 ^ (25 + lb) <= 2 ^ la)%Z)
      by (apply Z.pow_le_mono_r; lia).
    rewrite Z.pow_add_r in Hle by lia.
    change (2 ^ 25)%Z with (2 ^ 24 * 2)%Z in Hle. nia. }
  set (s := (24 - (la - lb))%Z) in *.
  rewrite (Z.max_l s 0), (Z.max_r (- s) 0) by lia.
  change (2 ^ 0)%Z with 1%Z. rewrite !Z.mul_1_r.
  assert (Hps : (0 < 2 ^ s)%Z) by (apply Z.pow_pos_nonneg; lia).
  assert (Hlow : (2 ^ 23 * B < A * 2 ^ s)%Z).
  { assert (E : (2 ^ la * 2 ^ s = 2 ^ 23 * (2 * 2 ^ lb))%Z).
    { rewrite <- Z.pow_add_r by lia.
      replace (la + s)%Z with (23 + (1 + lb))%Z by (unfold s; lia).
      rewrite Z.pow_add_r by lia. rewrite (Z.pow_add_r 2 1 lb) by lia.
      reflexivity. }
    nia. }
  assert (Hsu : (u <= s)%Z).
  { destruct (Z.le_gt_cases u s) as [H | H]; [exact H|exfalso].
    assert (E : (2 ^ u = 2 ^ s * 2 ^ (u - s))%Z).
    { rewrite <- Z.pow_add_r by lia. f_equal. lia. }
    assert (H2 : (2 ^ 1 <= 2 ^ (u - s))%Z) by (apply Z.pow_le_mono_r; lia).
    change (2 ^ 1)%Z with 2%Z in H2.
    rewrite E in Hab. nia. }
  assert (Ek : (A * 2 ^ s = m * 2 ^ (s - u) * B)%Z).
  { assert (E : (2 ^ s = 2 ^ u * 2 ^ (s - u))%Z).
    { rewrite <- Z.pow_add_r by lia. f_equal. lia. }
    rewrite E. nia. }
  assert (Hpsu : (0 < 2 ^ (s - u))%Z) by (apply Z.pow_pos_nonneg; lia).
  destruct (2 ^ 24 * B <=? A * 2 ^ s)%Z eqn:Eunit.
  - apply Z.leb_le in Eunit.
    assert (Hgt : (u < s)%Z).
    { destruct (Z.eq_dec u s) as [-> | Hne]; [|lia].
      rewrite Z.sub_diag in Ek. change (2 ^ 0)%Z with 1%Z in Ek. nia. }
    assert (E2 : (2 ^ (s - u) = 2 ^ (s - u - 1) * 2)%Z).
    { replace (s - u)%Z with (Z.succ (s - u - 1)) at 1 by lia.
      rewrite Z.pow_succ_r by lia. ring. }
    rewrite Ek, E2.
    replace (m * (2 ^ (s - u - 1) * 2) * B)%Z
      with (m * 2 ^ (s - u - 1) * (B * 2))%Z by ring.
    rewrite round_half_even_exact by lia.
    unfold Qeq. simpl Qnum. simpl Qden.
    rewrite Z2Pos.id by exact Hps.
    fold A B. rewrite Ek, E2. ring.
  - rewrite !Z.mul_1_r, Ek. rewrite round_half_even_exact by lia.
    unfold Qeq. simpl Qnum. simpl Qden.
    rewrite Z2Pos.id by exact Hps.
    fold A B. rewrite Ek. ring.
Qed.

Lemma round_f32_exact (x : Q) (m u : Z) :
  (0 <= m < 2 ^ 24)%Z -> (0 <= u)%Z ->
  (Qnum x * 2 ^ u = m * Zpos (Qden x))%Z ->
  round_f32 x == x.
Proof.
  intros Hm Hu H. destruct x as [a b]. simpl in H.
  assert (Hpu : (0 < 2 ^ u)%Z) by (apply Z.pow_pos_nonneg; lia).
  unfold round_f32. simpl Qnum. simpl Qden.
  destruct a as [|a|a].
  - reflexivity.
  - apply (round_f32_pos_exact a b m u); try assumption. nia.
  - exfalso. nia.
Qed.

Lemma round_f32_dyadic (x : Q) (m u : Z) :
  (0 <= m < 2 ^ 24)%Z -> (0 <= u)%Z ->
  x == m # Z.to_pos (2 ^ u) ->
  round_f32 x == x.
Proof.
  intros Hm Hu H. apply (round_f32_exact x m u Hm Hu).
  unfold Qeq in H. simpl in H.
  rewrite Z2Pos.id in H by (apply Z.pow_pos_nonneg; lia). exact H.
Qed.

Lemma f32_of_nat_exact (n : nat) :
  (Z.of_nat n < 2 ^ 24)%Z -> f32_of_nat n == inject_Z (Z.of_nat n).
Proof.
  intros H. unfold f32_of_nat.
  apply (round_f32_dyadic _ (Z.of_nat n) 0); [lia | lia | reflexivity].
Qed.

(** Stretching by a power of two below [2^24] positions: output position
    [i] reads input position [i / 2^j], with no rounding error. *)
Lemma nearest_index_pow2 (j len i : nat) :
  (0 < len)%nat ->
  (Z.of_nat (2 ^ j * len) < 2 ^ 24)%Z ->
  (i < 2 ^ j * len)%nat ->
  nearest_index (2 ^ j * len) len i = (i / 2 ^ j)%nat.
Proof.
  intros Hlen Hn Hi. unfold nearest_index.
  assert (Hpj : (0 < 2 ^ j)%nat) by (apply Nat.neq_0_lt_0, Nat.pow_nonzero; lia).
  set (P := Z.to_pos (2 ^ Z.of_nat j)).
  assert (HP : Zpos P = (2 ^ Z.of_nat j)%Z)
    by (unfold P; rewrite Z2Pos.id; [reflexivity | apply Z.pow_pos_nonneg; lia]).
  assert (HPn : Z.of_nat (2 ^ j) = Zpos P) by (rewrite HP, Nat2Z.inj_pow; reflexivity).
  assert (EL : f32_of_nat len == inject_Z (Z.of_nat len))
    by (apply f32_of_nat_exact; nia).
  assert (EN : f32_of_nat (2 ^ j * len) == inject_Z (Z.of_nat (2 ^ j * len)))
    by (apply f32_of_nat_exact; exact Hn).
  assert (EI : f32_of_nat i == inject_Z (Z.of_nat i))
    by (apply f32_of_nat_exact; lia).
  assert (Escale0 : f32_of_nat len / f32_of_nat (2 ^ j * len) == 1 # P).
  { rewrite EL, EN, Nat2Z.inj_mul, HPn.
    unfold Qeq, Qdiv, Qmult, Qinv, inject_Z. simpl Qnum. simpl Qden.
    destruct (Z.of_nat len) as [|l|l] eqn:El; [lia| |lia].
    simpl. lia. }
  assert (Escale : round_f32 (f32_of_nat len / f32_of_nat (2 ^ j * len)) == 1 # P).
  { rewrite (round_f32_dyadic _ 1 (Z.of_nat j));
      [exact Escale0 | lia | lia | exact Escale0]. }
  assert (Eprod0 : f32_of_nat i
                   * round_f32 (f32_of_nat len / f32_of_nat (2 ^ j * len))
                   == Z.of_nat i # P).
  { rewrite EI, Escale. unfold Qeq, Qmult, inject_Z. simpl. lia. }
  assert (Eprod : round_f32 (f32_of_nat i
                             * round_f32 (f32_of_nat len
                                          / f32_of_nat (2 ^ j * len)))
                  == Z.of_nat i # P).
  { rewrite (round_f32_dyadic _ (Z.of_nat i) (Z.of_nat j));
      [exact Eprod0 | lia | lia | exact Eprod0]. }
  rewrite (Qfloor_comp _ _ Eprod).
  unfold Qfloor. rewrite <- HPn, <- Nat2Z.inj_div, Nat2Z.id.
  apply Nat.min_l.
  assert ((i / 2 ^ j < len)%nat)
    by (apply Nat.Div0.div_lt_upper_bound; exact Hi).
  lia.
Qed.

Lemma nearest_index_lt (n len i : nat) :
  (0 < len)%nat -> (nearest_index n len i < len)%nat.
Proof.
  intros H. unfold nearest_index.
  pose proof (Nat.le_min_r
                (Z.to_nat (Qfloor (round_f32 (f32_of_nat i
                   * round_f32 (f32_of_nat len / f32_of_nat n)))))
                (len - 1)).
  lia.
Qed.

End Float32.

(** *** Interpolation of a replaced element *)

Lemma nearest_row_repeat (n S : nat) (v : Qc) :
  (0 < S)%nat -> nearest_row n (repeat v S) = repeat v n.
Proof.
  intros HS. unfold nearest_row. rewrite repeat_length.
  transitivity (map (fun _ : nat => v) (seq 0 n)).
  - apply map_ext_in. intros i Hi.
    apply nth_repeat_lt. now apply nearest_index_lt.
  - now rewrite map_const_repeat, length_seq.
Qed.

Lemma interpolate_unconditioned_rows (n S : nat) (emb : Tensor3) :
  (0 < S)%nat ->
  map (nearest_row n) (unconditioned_rows S emb) = unconditioned_rows n emb.
Proof.
  intros HS. unfold unconditioned_rows. rewrite map_map.
  apply map_ext. intros r. now apply nearest_row_repeat.
Qed.

Lemma map_map2 {A B C D} (h : C -> D) (f : A -> B -> C) l1 l2 :
  map h (map2 f l1 l2) = map2 (fun a b => h (f a b)) l1 l2.
Proof.
  revert l2. induction l1 as [|a l1 IH]; intros [|b l2]; simpl;
    [| | |rewrite IH]; reflexivity.
Qed.

Lemma first_row_length (S : nat) (m : Mat) :
  rows_of_length S m -> length (hd [] m) <> 0%nat -> (0 < S)%nat.
Proof.
  intros Hm Hne. destruct m as [|r m]; simpl in Hne; [lia|].
  inversion Hm; subst. lia.
Qed.

Lemma interpolate_replaced (p : Qc) (emb : Tensor3) (u : list Qc) (proj e : Tensor3)
      (n C S : nat) :
  shaped 1 C 1 emb ->
  Forall (fun m => length m = C /\ rows_of_length S m) proj ->
  interpolate_nearest n (replace_unconditioned p emb S u proj) = Ok e ->
  e = map2 (fun d m => if Qcltb d p then unconditioned_rows n emb
                       else map (nearest_row n) m) u proj.
Proof.
  intros Hemb Hproj. unfold interpolate_nearest.
  destruct (n =? 0)%nat; [discriminate|].
  destruct (size0 (replace_unconditioned p emb S u proj) =? 0)%nat eqn:E0.
  { intros H. injection H as <-. apply Nat.eqb_eq in E0.
    unfold size0, replace_unconditioned in E0.
    destruct u as [|d u]; [reflexivity|].
    destruct proj as [|m0 proj]; [reflexivity | discriminate]. }
  destruct (size2 (replace_unconditioned p emb S u proj) =? 0)%nat eqn:E;
    [discriminate|].
  intros H. injection H as <-.
  apply Nat.eqb_neq in E.
  assert (HS : (0 < S)%nat).
  { unfold size2, replace_unconditioned in E.
    destruct u as [|d u]; [simpl in E; lia|].
    destruct proj as [|m0 proj]; [simpl in E; lia|].
    simpl in E. inversion Hproj as [|? ? [_ Hm0] _]; subst.
    destruct (Qcltb d p).
    - eapply first_row_length; [|exact E].
      apply (unconditioned_rows_length S C emb Hemb).
    - eapply first_row_length; eauto. }
  unfold replace_unconditioned. rewrite map_map2.
  apply map2_ext_in. intros d m _ _.
  destruct (Qcltb d p); [|reflexivity].
  now apply interpolate_unconditioned_rows.
Qed.

Lemma Forall_expand {A} (P : A -> Prop) (n : nat) (l : list A) :
  Forall P l -> Forall P (expand n l).
Proof.
  intros H. destruct l as [|a [|a' l]]; simpl; auto.
  inversion H; subst. apply Forall_forall. intros b Hb.
  apply repeat_spec in Hb. now subst.
Qed.

Section ConditioningDropout.
Context {F : Framework}.

(** The conditioning embedding of a training-mode call: what is drawn, what
    [torch.where] returns and what the interpolation makes of it. *)
Lemma code_embedding_dropout
        (self : TransformerDiffusion.t) (x prior proj e : Tensor3) (g g' : Rng)
        (B C S : nat)
        (Htrain : TransformerDiffusion.training self = true)
        (Hpct : Qcltb 0 (TransformerDiffusion.unconditioned_percentage self) = true)
        (Hemb : is_shape 1 C 1
                  (data (TransformerDiffusion.unconditioned_embedding self)) = true)
        (Hproj : Conv1d.forward (TransformerDiffusion.input_converter self) prior
                 = Ok proj)
        (Hshape : is_shape B C S proj = true)
        (Hrun : TransformerDiffusion.code_embedding self x (Some prior) false g
                = Ok (e, g')) :
  let p := TransformerDiffusion.unconditioned_percentage self in
  let emb := data (TransformerDiffusion.unconditioned_embedding self) in
  let u := expand (size0 x) (draws_of g B) in
  let kept := expand (size0 x) proj in
  g' = advance B g
  /\ torch_where (map (fun d => [[Qcltb d p]]) (draws_of g B))
                 (tensor_repeat (size0 x) 1 1 emb) proj
     = Ok (replace_unconditioned p emb S u kept)
  /\ e = map2 (fun d m => if Qcltb d p
                          then unconditioned_rows (size2 x) emb
                          else map (nearest_row (size2 x)) m) u kept
  /\ (size0 x = B -> u = draws_of g B /\ kept = proj).
Proof.
  intros p emb u kept.
  apply is_shape_iff in Hemb, Hshape.
  unfold TransformerDiffusion.code_embedding in Hrun.
  rewrite Htrain, Hpct in Hrun. simpl in Hrun.
  apply bind_Ok in Hrun as (pr & g1 & Hpr & Hrun).
  apply ret_Ok in Hpr as [-> ->].
  apply bind_Ok in Hrun as (ce & g2 & Hce & Hrun).
  apply lift_Ok in Hce as [Hce ->].
  rewrite Hproj in Hce. injection Hce as <-.
  apply bind_Ok in Hrun as (w & g3 & Hw & Hrun).
  apply lift_Ok in Hrun as [Hint ->].
  apply bind_Ok in Hw as (dr & g4 & Hdr & Hw).
  apply lift_Ok in Hw as [Hw ->].
  unfold torch_rand in Hdr. injection Hdr as <- <-.
  rewrite (shaped_size0 _ _ _ _ Hshape) in *.
  fold p emb in Hw.
  assert (Hlen : length (draws_of g B) = B).
  { unfold draws_of. now rewrite length_map, length_seq. }
  pose proof Hw as Hw'.
  apply (torch_where_replaces p emb proj _ (size0 x) B C S w Hemb Hshape Hlen)
    in Hw' as [-> Hcompat].
  fold u kept in Hw, Hint.
  split; [reflexivity|]. split; [exact Hw|]. split.
  - eapply interpolate_replaced; [exact Hemb | | exact Hint].
    apply Forall_expand. now destruct Hshape.
  - intros E. subst u kept. rewrite E. split.
    + rewrite <- Hlen at 1. apply expand_same_length.
    + destruct Hshape as [HB _]. rewrite <- HB at 1. apply expand_same_length.
Qed.

(** C1.  In training mode, with [conditioning_free=False] and a positive
    [unconditioned_percentage], a call of [forward] that returns draws one
    value per batch element of the projected embedding and computes its
    output from the conditioning embedding [e] in which a batch element
    whose draw is below the percentage is replaced, on every channel and
    every position, by the unconditioned embedding, and every other batch
    element keeps its projected embedding; the interpolation that follows
    keeps it so.  The returned tensor is the [out] head applied to the
    trunk run on [x], [timesteps] and that [e].  ([expand] is the
    broadcasting of the batch dimension; it is the identity when [x] and
    [prior] have the same batch size.) *)
Theorem conditioning_dropout_replaces_batch_elements
        (self : TransformerDiffusion.t) (x prior proj o : Tensor3)
        (timesteps : list Z) (g g' : Rng) (B C S : nat)
        (Htrain : TransformerDiffusion.training self = true)
        (Hpct : Qcltb 0 (TransformerDiffusion.unconditioned_percentage self) = true)
        (Hemb : is_shape 1 C 1
                  (data (TransformerDiffusion.unconditioned_embedding self)) = true)
        (Hproj : Conv1d.forward (TransformerDiffusion.input_converter self) prior
                 = Ok proj)
        (Hshape : is_shape B C S proj = true)
        (Hrun : TransformerDiffusion.forward self x timesteps (Some prior) false g
                = Ok (o, g')) :
  let p := TransformerDiffusion.unconditioned_percentage self in
  let emb := data (TransformerDiffusion.unconditioned_embedding self) in
  let u := expand (size0 x) (draws_of g B) in
  let kept := expand (size0 x) proj in
  exists e : Tensor3,
    TransformerDiffusion.code_embedding self x (Some prior) false g
    = Ok (e, advance B g)
    /\ torch_where (map (fun d => [[Qcltb d p]]) (draws_of g B))
                   (tensor_repeat (size0 x) 1 1 emb) proj
       = Ok (replace_unconditioned p emb S u kept)
    /\ e = map2 (fun d m => if Qcltb d p
                            then unconditioned_rows (size2 x) emb
                            else map (nearest_row (size2 x)) m) u kept
    /\ (size0 x = B -> u = draws_of g B /\ kept = proj)
    /\ (h <- TransformerDiffusion.trunk self x timesteps e ;;
        lift (TransformerDiffusion.out_forward (TransformerDiffusion.out self) h))
         (advance B g)
       = Ok (o, g').
Proof.
  intros p emb u kept.
  unfold TransformerDiffusion.forward in Hrun.
  apply bind_Ok in Hrun as (o' & g1 & Hhead & Hret).
  apply ret_Ok in Hret as [-> ->].
  rewrite tadd_scalar_times_zero.
  unfold TransformerDiffusion.out_head_output in Hhead.
  apply bind_Ok in Hhead as (e & g2 & Hce & Hrest).
  destruct (code_embedding_dropout self x prior proj e g g2 B C S
              Htrain Hpct Hemb Hproj Hshape Hce) as (-> & Hw & He & Hsame).
  exists e. split; [exact Hce|]. split; [exact Hw|]. split; [exact He|].
  split; [exact Hsame | exact Hrest].
Qed.

End ConditioningDropout.

(* ===================================================================== *)
(** ** Shapes and data flow of the blocks *)
(* ===================================================================== *)

(** The channels of the middle operand of two concatenations along the
    channel dimension are found again behind those of the first operand. *)
Lemma cat_keeps_middle {A} (B Ca C L : nat) (a x f : tensor3 A) :
  shaped B Ca L a -> shaped B C L x -> length f = B ->
  map (fun m => firstn C (skipn Ca m))
      (map2 (@app (list A)) (map2 (@app (list A)) a x) f) = x.
Proof.
  intros [Ha Hfa] [Hx Hfx] Hf. subst B. revert x f Hx Hfx Hf.
  induction Hfa as [|am a [Hla _] _ IH]; intros [|xm x] [|fm f] Hx Hfx Hf;
    simpl in *; try discriminate; try reflexivity.
  inversion Hfx as [|? ? [Hlx _] Hfx']; subst.
  f_equal.
  - rewrite <- app_assoc, skipn_app, skipn_all, Nat.sub_diag. simpl.
    rewrite firstn_app, firstn_all, Nat.sub_diag. simpl. apply app_nil_r.
  - apply IH; auto.
Qed.

(** Slicing a five-part concatenation behind its first [T] channels, when
    the first two parts have [c] channels each and the third has [T]. *)
Lemma slice_five_parts_any {A} (B c T L : nat) (a2 a1 n f1 f2 : tensor3 A) :
  shaped B c L a2 -> shaped B c L a1 -> shaped B T L n ->
  length f1 = B -> length f2 = B -> (2 * c <= T)%nat ->
  slice_dim1_from T
    (map2 (@app (list A))
          (map2 (@app (list A)) a2
                (map2 (@app (list A)) (map2 (@app (list A)) a1 n) f1))
          f2)
  = map2 (@app (list A))
         (map2 (@app (list A)) (slice_dim1_from (T - 2 * c) n) f1) f2.
Proof.
  intros [Ha2 Hf2] [Ha1 Hf1] [Hn Hfn] Hl1 Hl2 Hc. subst B.
  unfold slice_dim1_from.
  revert a1 n f1 f2 Ha1 Hf1 Hn Hfn Hl1 Hl2.
  induction Hf2 as [|m2 a2 [Hm2 _] _ IH];
    intros [|m1 a1] [|mn n] [|r1 f1] [|r2 f2] Ha1 Hf1 Hn Hfn Hl1 Hl2;
    simpl in *; try discriminate; try reflexivity.
  inversion Hf1 as [|? ? [Hm1 _] Hf1']; subst.
  inversion Hfn as [|? ? [Hmn _] Hfn']; subst.
  f_equal.
  - repeat rewrite <- app_assoc.
    rewrite skipn_app, (skipn_all2 m2) by lia. simpl.
    rewrite skipn_app, (skipn_all2 m1) by lia. simpl.
    rewrite skipn_app.
    replace (length mn - length m2 - length m1 - length mn)%nat with 0%nat by lia.
    simpl. f_equal. f_equal. lia.
  - apply IH; auto.
Qed.

Lemma slice_five_parts (B c T L : nat) (a2 a1 n f1 f2 : Tensor3) :
  shaped B c L a2 -> shaped B c L a1 -> shaped B T L n ->
  length f1 = B -> length f2 = B -> (2 * c <= T)%nat ->
  slice_dim1_from T
    (map2 (@app Vec)
          (map2 (@app Vec) a2 (map2 (@app Vec) (map2 (@app Vec) a1 n) f1))
          f2)
  = map2 (@app Vec) (map2 (@app Vec) (slice_dim1_from (T - 2 * c) n) f1) f2.
Proof. exact (slice_five_parts_any B c T L a2 a1 n f1 f2). Qed.

Lemma map2_length_same {A B C} (f : A -> B -> C) l1 l2 :
  length l1 = length l2 -> length (map2 f l1 l2) = length l1.
Proof.
  revert l2. induction l1 as [|a l1 IH]; intros [|b l2] H; simpl in *;
    try discriminate; auto.
Qed.

Lemma Forall_map2 {A B C} (P : A -> Prop) (Q : B -> Prop) (R : C -> Prop)
      (f : A -> B -> C) l1 l2 :
  (forall a b, P a -> Q b -> R (f a b)) ->
  Forall P l1 -> Forall Q l2 -> Forall R (map2 f l1 l2).
Proof.
  intros Hf H1. revert l2. induction H1 as [|a l1 Ha _ IH]; intros [|b l2] H2;
    simpl; constructor; inversion H2; subst; auto.
Qed.

Lemma map2_shaped {A} (f : A -> A -> A) (B C L : nat) (z x : tensor3 A) :
  shaped B C L z -> shaped B C L x -> shaped B C L (map2 (map2 (map2 f)) z x).
Proof.
  intros [Hz Hfz] [Hx Hfx]. split.
  - rewrite map2_length_same; congruence.
  - eapply Forall_map2; [|exact Hfz|exact Hfx].
    intros zm xm [Hzm Hzr] [Hxm Hxr]. split.
    + rewrite map2_length_same; congruence.
    + eapply Forall_map2; [|exact Hzr|exact Hxr].
      intros zr xr Hl1 Hl2. rewrite map2_length_same; congruence.
Qed.

(** The sum of two tensors of the same shape is the entrywise sum. *)
Lemma tadd_same_shape (z x : Tensor3) B C L :
  shaped B C L z -> shaped B C L x ->
  tadd z x = Ok (map2 (map2 (map2 Qcplus)) z x).
Proof.
  intros [Hz Hfz] [Hx Hfx]. unfold tadd, broadcast3.
  rewrite broadcast_same_length by congruence.
  apply sequence_map2_total. intros zm xm Hzm Hxm.
  rewrite Forall_forall in Hfz, Hfx.
  destruct (Hfz _ Hzm) as [Hlz Hrz]. destruct (Hfx _ Hxm) as [Hlx Hrx].
  rewrite broadcast_same_length by congruence.
  apply sequence_map2_total. intros zr xr Hzr Hxr.
  unfold rows_of_length in Hrz, Hrx. rewrite Forall_forall in Hrz, Hrx.
  rewrite broadcast_same_length by (rewrite (Hrz _ Hzr), (Hrx _ Hxr); reflexivity).
  apply sequence_map2_total. reflexivity.
Qed.

Lemma cat_dim1_batch {A} (a b y : tensor3 A) :
  cat_dim1 a b = Ok y -> size0 a = size0 b.
Proof.
  unfold cat_dim1. intros H.
  destruct ((size0 a =? size0 b)%nat) eqn:E; [|discriminate].
  now apply Nat.eqb_eq in E.
Qed.

Section BlockShapes.
Context {F : Framework}.

(** What a sub-block returns: its attention branch, then its input, then
    its feed-forward branch, each branch with [contraction_dim] channels. *)
Lemma SubBlock_forward_structure (inp_dim contraction_dim blk_dim : nat)
      (sb : SubBlock.t) (x blk_emb h : Tensor3) g g' B C L Be Ce M :
  subblock_geometry inp_dim contraction_dim blk_dim sb ->
  shaped B C L x -> shaped Be Ce M blk_emb -> (0 < B)%nat ->
  SubBlock.forward sb x blk_emb g = Ok (h, g') ->
  (exists a f,
      shaped B contraction_dim L a /\ shaped B contraction_dim L f
      /\ h = map2 (@app Vec) (map2 (@app Vec) a x) f)
  /\ shaped B (contraction_dim + C + contraction_dim) L h
  /\ C = inp_dim /\ Be = B /\ Ce = blk_dim /\ (0 < L)%nat /\ (0 < M)%nat.
Proof.
  intros ((Hpi & Hpo & Hk & Hp) & (_ & Hffo & Hffk & Hffp) & Han & Hfn) Hx He HB H.
  unfold SubBlock.forward, checkpoint in H.
  apply bind_Ok in H as (ah & g1 & Hah & H).
  apply bind_Ok in H as (ahn & g2 & Hahn & H). apply lift_Ok in Hahn as [Hahn ->].
  apply bind_Ok in H as (h1 & g3 & Hh1 & H). apply lift_Ok in Hh1 as [Hh1 ->].
  apply bind_Ok in H as (f & g4 & Hf & H). apply lift_Ok in Hf as [Hf ->].
  apply bind_Ok in H as (hf & g5 & Hhf & H).
  apply bind_Ok in H as (hfn & g6 & Hhfn & H). apply lift_Ok in Hhfn as [Hhfn ->].
  apply lift_Ok in H as [H ->].
  pose proof (attn_branch_shaped _ _ _ _ _ _ _ _ _ _ _ _ Hk Hp Hx He Hah) as S1.
  destruct (GroupNorm_forward_shaped _ _ _ _ _ _ S1 Hahn) as [S2 Hao].
  rewrite (Hao HB), Han in S2.
  destruct (cat_dim1_shaped _ _ _ _ _ _ _ (shaped_tmap gelu _ _ _ _ S2) Hx Hh1)
    as [E1 S3].
  destruct (Conv1d_forward_same_length _ _ _ _ _ _ S3 Hf) as [S4 HL];
    [rewrite Hffk, Hffp; reflexivity|].
  rewrite Hffo in S4.
  pose proof (Dropout_forward_shaped _ _ _ _ _ _ _ _ S4 Hhf) as S5.
  destruct (GroupNorm_forward_shaped _ _ _ _ _ _ S5 Hhfn) as [S6 _].
  destruct (cat_dim1_shaped _ _ _ _ _ _ _ S3 (shaped_tmap gelu _ _ _ _ S6) H)
    as [E2 S7].
  unfold SubBlock.attn_branch in Hah.
  apply bind_Ok in Hah as (inp & g7 & Hinp & _). apply lift_Ok in Hinp as [Hinp _].
  destruct (attn_input_shaped _ _ _ _ _ _ _ _ _ _ Hk Hp Hx He Hinp)
    as (blk_enc & Henc & _ & _ & _ & HBe & HC).
  destruct (Conv1d_forward_same_length _ _ _ _ _ _ He Henc) as [_ HCe];
    [rewrite Hk, Hp; reflexivity|].
  subst Be. destruct (HC HB) as [_ HC']. destruct (HCe HB) as (HCe' & _ & HM).
  destruct (HL HB) as (_ & _ & HL').
  split; [|split; [exact S7|repeat split; congruence || assumption]].
  exists (tmap gelu ahn), (tmap gelu hfn).
  split; [apply shaped_tmap; exact S2|].
  split; [apply shaped_tmap; exact S6|].
  subst h h1. reflexivity.
Qed.

(** What a block computes: the normalised input goes through the two
    sub-blocks, the [out] convolution reads the concatenation behind its
    first [trunk_dim] channels, and the input is added back. *)
Lemma ConcatAttentionBlock_forward_structure (trunk_dim contraction_dim : nat)
      (blk : ConcatAttentionBlock.t) (x blk_emb y : Tensor3) g g'
      B C L Be Ce M :
  block_geometry trunk_dim contraction_dim blk ->
  shaped B C L x -> shaped Be Ce M blk_emb -> (0 < B)%nat ->
  ConcatAttentionBlock.forward blk x blk_emb g = Ok (y, g') ->
  C = trunk_dim /\ Be = B /\ Ce = trunk_dim /\ (0 < L)%nat
  /\ exists n a1 f1 a2 f2 z g1 g2,
      GroupNorm.forward (ConcatAttentionBlock.prenorm blk) x = Ok n
      /\ SubBlock.forward (ConcatAttentionBlock.block1 blk) n blk_emb g
         = Ok (map2 (@app Vec) (map2 (@app Vec) a1 n) f1, g1)
      /\ SubBlock.forward (ConcatAttentionBlock.block2 blk)
           (map2 (@app Vec) (map2 (@app Vec) a1 n) f1) blk_emb g1
         = Ok (map2 (@app Vec)
                 (map2 (@app Vec) a2
                    (map2 (@app Vec) (map2 (@app Vec) a1 n) f1))
                 f2, g2)
      /\ shaped B trunk_dim L n
      /\ shaped B contraction_dim L a1 /\ shaped B contraction_dim L f1
      /\ shaped B contraction_dim L a2 /\ shaped B contraction_dim L f2
      /\ Conv1d.forward (ConcatAttentionBlock.out blk)
           (slice_dim1_from trunk_dim
              (map2 (@app Vec)
                 (map2 (@app Vec) a2
                    (map2 (@app Vec) (map2 (@app Vec) a1 n) f1))
                 f2)) = Ok z
      /\ shaped B trunk_dim L z
      /\ y = map2 (map2 (map2 Qcplus)) z x.
Proof.
  intros (Hpn & Hb1 & Hb2 & (_ & Hoo & Hok & Hop)) Hx He HB H.
  unfold ConcatAttentionBlock.forward in H.
  apply bind_Ok in H as (h0 & g1 & Hh0 & H). apply lift_Ok in Hh0 as [Hh0 ->].
  apply bind_Ok in H as (h1 & g2 & Hh1 & H).
  apply bind_Ok in H as (h2 & g3 & Hh2 & H).
  apply bind_Ok in H as (z & g4 & Hz & H). apply lift_Ok in Hz as [Hz ->].
  apply lift_Ok in H as [H ->].
  destruct (GroupNorm_forward_shaped _ _ _ _ _ _ Hx Hh0) as [S0 HC].
  specialize (HC HB). rewrite Hpn in HC. subst C.
  destruct (SubBlock_forward_structure _ _ _ _ _ _ _ _ _ _ _ _ _ _ _
              Hb1 S0 He HB Hh1)
    as ((a1 & f1 & Sa1 & Sf1 & E1) & S1 & _ & HBe & HCe & HL & _).
  destruct (SubBlock_forward_structure _ _ _ _ _ _ _ _ _ _ _ _ _ _ _
              Hb2 S1 He HB Hh2)
    as ((a2 & f2 & Sa2 & Sf2 & E2) & S2 & _).
  pose proof (slice_dim1_shaped (size1 x) _ _ _ _ S2) as S3.
  destruct (Conv1d_forward_same_length _ _ _ _ _ _ S3 Hz) as [S4 _];
    [rewrite Hok, Hop; reflexivity|].
  rewrite Hoo in S4.
  rewrite (tadd_same_shape _ _ _ _ _ S4 Hx) in H. injection H as <-.
  rewrite (shaped_size1 _ _ _ _ Hx HB) in Hz.
  repeat split; try assumption.
  exists h0, a1, f1, a2, f2, z, g2, g3. subst h2 h1.
  repeat split; try assumption; try apply S0; try apply Sa1; try apply Sf1;
    try apply Sa2; try apply Sf2; try apply S4.
Qed.

End BlockShapes.

Section BlockProperties.
Context {F : Framework}.

Lemma block_initialised_geometry (trunk_dim contraction_dim : nat)
      (blk : ConcatAttentionBlock.t) :
  block_initialised trunk_dim contraction_dim blk ->
  block_geometry trunk_dim contraction_dim blk.
Proof. intros (H1 & H2 & H3 & H4 & _). repeat split; assumption || apply H2 || apply H3 || apply H4. Qed.

(** X1.  [SubBlock.forward] appends to its input: for a sub-block with the
    geometry of [SubBlock(inp_dim, contraction_dim, blk_dim, ...)] and a
    non-empty batch, a call that returns gives a tensor of
    [inp_dim + 2 * contraction_dim] channels and the length of [x], whose
    channels [contraction_dim .. contraction_dim + inp_dim) are [x] itself,
    unchanged.  Such a call also shows that [x] has [inp_dim] channels and
    at least one position, and that [blk_emb] has the batch size of [x] and
    [blk_dim] channels: with any other input the call raises. *)
Theorem subblock_output_carries_its_input
        (inp_dim contraction_dim blk_dim : nat) (sb : SubBlock.t)
        (Hgeo : subblock_geometry inp_dim contraction_dim blk_dim sb)
        (x blk_emb h : Tensor3) (B C L Be Ce M : nat) (g g' : Rng)
        (Hx : is_shape B C L x = true)
        (Hemb : is_shape Be Ce M blk_emb = true)
        (HB : (0 < B)%nat)
        (Hrun : SubBlock.forward sb x blk_emb g = Ok (h, g')) :
  is_shape B (inp_dim + 2 * contraction_dim) L h = true
  /\ map (fun m => firstn inp_dim (skipn contraction_dim m)) h = x
  /\ C = inp_dim /\ Be = B /\ Ce = blk_dim /\ (0 < L)%nat.
Proof.
  apply is_shape_iff in Hx, Hemb.
  destruct (SubBlock_forward_structure _ _ _ _ _ _ _ _ _ _ _ _ _ _ _
              Hgeo Hx Hemb HB Hrun)
    as ((a & f & Sa & Sf & E) & S & HC & HBe & HCe & HL & _).
  subst C. repeat split; try assumption.
  - apply is_shape_iff.
    replace (inp_dim + 2 * contraction_dim)%nat
      with (contraction_dim + inp_dim + contraction_dim)%nat by lia.
    exact S.
  - subst h. eapply cat_keeps_middle; eauto. apply Sf.
Qed.

(** X2.  [ConcatAttentionBlock.forward] keeps the shape of its input,
    whatever the values of the parameters: for a block with the geometry of
    [ConcatAttentionBlock(trunk_dim, contraction_dim, ...)] and a non-empty
    batch, a call that returns gives a tensor of the shape
    [(B, trunk_dim, L)] of [x].  Such a call also shows that [x] has
    [trunk_dim] channels and at least one position and that [blk_emb] has
    the batch size of [x] and [trunk_dim] channels: with any other input
    the call raises. *)
Theorem concat_attention_block_keeps_shape
        (trunk_dim contraction_dim : nat) (blk : ConcatAttentionBlock.t)
        (Hgeo : block_geometry trunk_dim contraction_dim blk)
        (x blk_emb y : Tensor3) (B C L Be Ce M : nat) (g g' : Rng)
        (Hx : is_shape B C L x = true)
        (Hemb : is_shape Be Ce M blk_emb = true)
        (HB : (0 < B)%nat)
        (Hrun : ConcatAttentionBlock.forward blk x blk_emb g = Ok (y, g')) :
  is_shape B trunk_dim L y = true
  /\ C = trunk_dim /\ Be = B /\ Ce = trunk_dim /\ (0 < L)%nat.
Proof.
  apply is_shape_iff in Hx, Hemb.
  destruct (ConcatAttentionBlock_forward_structure _ _ _ _ _ _ _ _ _ _ _ _ _ _
              Hgeo Hx Hemb HB Hrun)
    as (HC & HBe & HCe & HL & n & a1 & f1 & a2 & f2 & z & g1 & g2 & _ & _ & _
        & _ & _ & _ & _ & _ & _ & Sz & Ey).
  subst C. repeat split; try assumption.
  apply is_shape_iff. subst y. apply map2_shaped; assumption.
Qed.

(** X3.  What the [out] convolution of a block reads.  Block 1 returns
    [a1, n, f1] and block 2 returns [a2, a1, n, f1, f2] along the channels,
    where [n] is the normalised input, [a1], [a2] are the attention
    branches and [f1], [f2] the feed-forward branches of the two
    sub-blocks.  The slice [h[:, x.shape[1]:]] drops the first [trunk_dim]
    channels of that: when [2 * contraction_dim <= trunk_dim] these are
    both attention branches and the first
    [trunk_dim - 2 * contraction_dim] channels of [n], so [out] is applied
    to the last [2 * contraction_dim] channels of [n] followed by [f1] and
    [f2], and the result is added to [x]. *)
Theorem out_convolution_reads_behind_the_attention_branches
        (trunk_dim contraction_dim : nat) (blk : ConcatAttentionBlock.t)
        (Hgeo : block_geometry trunk_dim contraction_dim blk)
        (Hwide : (2 * contraction_dim <= trunk_dim)%nat)
        (x blk_emb y : Tensor3) (B C L Be Ce M : nat) (g g' : Rng)
        (Hx : is_shape B C L x = true)
        (Hemb : is_shape Be Ce M blk_emb = true)
        (HB : (0 < B)%nat)
        (Hrun : ConcatAttentionBlock.forward blk x blk_emb g = Ok (y, g')) :
  exists n a1 f1 a2 f2 z g1 g2,
    GroupNorm.forward (ConcatAttentionBlock.prenorm blk) x = Ok n
    /\ SubBlock.forward (ConcatAttentionBlock.block1 blk) n blk_emb g
       = Ok (map2 (@app Vec) (map2 (@app Vec) a1 n) f1, g1)
    /\ SubBlock.forward (ConcatAttentionBlock.block2 blk)
         (map2 (@app Vec) (map2 (@app Vec) a1 n) f1) blk_emb g1
       = Ok (map2 (@app Vec)
               (map2 (@app Vec) a2 (map2 (@app Vec) (map2 (@app Vec) a1 n) f1))
               f2, g2)
    /\ is_shape B trunk_dim L n = true
    /\ is_shape B contraction_dim L a1 = true
    /\ is_shape B contraction_dim L f1 = true
    /\ is_shape B contraction_dim L a2 = true
    /\ is_shape B contraction_dim L f2 = true
    /\ Conv1d.forward (ConcatAttentionBlock.out blk)
         (map2 (@app Vec)
            (map2 (@app Vec)
               (slice_dim1_from (trunk_dim - 2 * contraction_dim) n) f1)
            f2) = Ok z
    /\ y = map2 (map2 (map2 Qcplus)) z x.
Proof.
  apply is_shape_iff in Hx, Hemb.
  destruct (ConcatAttentionBlock_forward_structure _ _ _ _ _ _ _ _ _ _ _ _ _ _
              Hgeo Hx Hemb HB Hrun)
    as (HC & HBe & HCe & HL & n & a1 & f1 & a2 & f2 & z & g1 & g2 & Hn & H1 & H2
        & Sn & Sa1 & Sf1 & Sa2 & Sf2 & Hz & Sz & Ey).
  exists n, a1, f1, a2, f2, z, g1, g2.
  rewrite (slice_five_parts B contraction_dim trunk_dim L) in Hz;
    try assumption; try apply Sf1; try apply Sf2.
  repeat split; try assumption; apply is_shape_iff; assumption.
Qed.

End BlockProperties.

(* ===================================================================== *)
(** ** Shape of the model's output *)
(* ===================================================================== *)

Lemma fresh1_length n g v g' : fresh1 n g = Ok (v, g') -> length v = n.
Proof.
  unfold fresh1. intros H. apply mapM_length in H. now rewrite length_seq in H.
Qed.

Lemma fresh2_rows r c g m g' :
  fresh2 r c g = Ok (m, g') -> length m = r /\ rows_of_length c m.
Proof.
  unfold fresh2. intros H. split.
  - apply mapM_length in H. now rewrite length_seq in H.
  - apply mapM_Ok in H. unfold rows_of_length.
    induction H as [|i v il m (g1 & g2 & Hv) _ IH]; constructor; auto.
    eapply fresh1_length; eauto.
Qed.

Lemma fresh3_shaped b c l g t g' : fresh3 b c l g = Ok (t, g') -> shaped b c l t.
Proof.
  unfold fresh3. intros H. split.
  - apply mapM_length in H. now rewrite length_seq in H.
  - apply mapM_Ok in H.
    induction H as [|i v il m (g1 & g2 & Hv) _ IH]; constructor; auto.
    eapply fresh2_rows; eauto.
Qed.

Lemma Linear_forward_rows (l : Linear.t) (x y : Mat) :
  Linear.forward l x = Ok y -> rows_of_length (Linear.out_features l) y.
Proof.
  unfold Linear.forward. intros H. apply sequence_map_Ok in H.
  unfold rows_of_length.
  induction H as [|r v x y Hv _ IH]; constructor; auto.
  unfold Linear.forward_row in Hv.
  destruct (negb (length r =? Linear.in_features l)%nat); [discriminate|].
  injection Hv as <-. now rewrite length_map, length_seq.
Qed.

Lemma unsqueeze_last_shaped {A} (C : nat) (m : tensor2 A) :
  rows_of_length C m -> shaped (length m) C 1 (unsqueeze_last m).
Proof.
  intros H. unfold unsqueeze_last. split; [apply length_map|].
  apply Forall_map. eapply Forall_impl; [|exact H].
  intros r Hr. split; [now rewrite length_map|].
  apply Forall_map, Forall_forall. reflexivity.
Qed.

Lemma nearest_row_length (n : nat) (r : Vec) : length (nearest_row n r) = n.
Proof. unfold nearest_row. now rewrite length_map, length_seq. Qed.

Lemma interpolate_shaped (n C : nat) (t e : Tensor3) :
  interpolate_nearest n t = Ok e ->
  Forall (fun m => length m = C) t ->
  shaped (length t) C n e.
Proof.
  unfold interpolate_nearest. intros H Ht.
  destruct (n =? 0)%nat; [discriminate|].
  destruct (size0 t =? 0)%nat eqn:E0.
  { injection H as <-. apply Nat.eqb_eq in E0. unfold size0 in E0.
    rewrite E0. split; [reflexivity | constructor]. }
  destruct (size2 t =? 0)%nat; [discriminate|].
  injection H as <-. split; [apply length_map|].
  apply Forall_map. eapply Forall_impl; [|exact Ht].
  intros m Hm. split; [now rewrite length_map|].
  apply Forall_map, Forall_forall. intros r _. apply nearest_row_length.
Qed.

Section ModelShape.
Context {F : Framework}.

(** The constructor returns a model with the geometry of its arguments. *)
Lemma build_geometry (kw : TransformerDiffusion.kwargs) g self g' :
  TransformerDiffusion.build kw g = Ok (self, g') -> model_geometry kw self.
Proof.
  intros H. pose proof (build_Ok _ _ _ _ H) as (Hls & _).
  unfold TransformerDiffusion.build, conv_nd, linear in H. inv_ok.
  match goal with
  | Hf : fresh3 _ _ _ _ = Ok (_, _) |- _ => apply fresh3_shaped in Hf
  end.
  inv_init. simpl in *.
  unfold model_geometry. simpl.
  repeat match goal with |- _ /\ _ => split end; try assumption.
  - eapply Forall_impl; [|exact Hls]. intros blk.
    apply block_initialised_geometry.
  - match goal with
    | Hg : conv_geometry _ _ 3 1 ?c |- conv_geometry _ _ 3 1 (zero_module ?c) =>
        destruct (zero_module_geometry c) as (E1 & E2 & E3 & E4);
        destruct Hg as (G1 & G2 & G3 & G4);
        unfold conv_geometry; rewrite E1, E2, E3, E4; auto
    end.
Qed.

(** The conditioning embedding has [model_channels] channels and the length
    of [x]. *)
Lemma code_embedding_shaped (kw : TransformerDiffusion.kwargs)
      (self : TransformerDiffusion.t) (x : Tensor3) (prior : option Tensor3)
      (conditioning_free : bool) g e g' B C L :
  model_geometry kw self ->
  shaped B C L x -> (0 < B)%nat -> (0 < C)%nat ->
  (forall pr, prior = Some pr -> exists Bp Cp S, shaped Bp Cp S pr) ->
  TransformerDiffusion.code_embedding self x prior conditioning_free g = Ok (e, g') ->
  shaped (length e) (TransformerDiffusion.kw_model_channels kw) L e.
Proof.
  intros (_ & (_ & Hico & Hick & Hicp) & Hue & _) Hx HB HC Hprior H.
  unfold TransformerDiffusion.code_embedding in H.
  rewrite (shaped_size0 _ _ _ _ Hx), (shaped_size2 _ _ _ _ Hx HB HC) in H.
  destruct conditioning_free.
  - apply ret_Ok in H as [-> _].
    rewrite (tensor_repeat_unit _ _ _ _ Hue), repeat_length.
    split; [apply repeat_length|].
    apply Forall_forall. intros m Hm. apply repeat_spec in Hm. subst m.
    apply unconditioned_rows_length. exact Hue.
  - apply bind_Ok in H as (pr & g1 & Hpr & H). apply lift_Ok in Hpr as [Hpr ->].
    destruct prior as [pr'|]; [|discriminate]. injection Hpr as ->.
    destruct (Hprior pr eq_refl) as (Bp & Cp & S & Spr).
    apply bind_Ok in H as (proj & g2 & Hproj & H).
    apply lift_Ok in Hproj as [Hproj ->].
    destruct (Conv1d_forward_same_length _ _ _ _ _ _ Spr Hproj) as [Sproj _];
      [rewrite Hick, Hicp; reflexivity|].
    rewrite Hico in Sproj.
    apply bind_Ok in H as (w & g3 & Hw & H). apply lift_Ok in H as [H ->].
    assert (Sw : Forall (fun m => length m = TransformerDiffusion.kw_model_channels kw) w).
    { destruct (TransformerDiffusion.training self
                && Qcltb 0 (TransformerDiffusion.unconditioned_percentage self)).
      - apply bind_Ok in Hw as (u & g4 & Hu & Hw). apply lift_Ok in Hw as [Hw _].
        unfold torch_rand in Hu. injection Hu as <- _.
        destruct (torch_where_replaces _ _ _ _ _ _ _ _ _ Hue Sproj
                    ltac:(unfold draws_of; rewrite length_map, length_seq;
                          apply (shaped_size0 _ _ _ _ Sproj)) Hw) as [-> _].
        unfold replace_unconditioned.
        eapply Forall_map2 with (P := fun _ => True)
                                (Q := fun m => length m
                                               = TransformerDiffusion.kw_model_channels kw).
        + intros d m _ Hm. destruct (Qcltb d _); [|exact Hm].
          apply unconditioned_rows_length. exact Hue.
        + apply Forall_forall. auto.
        + apply Forall_expand. eapply Forall_impl; [|apply Sproj].
          intros m [Hm _]. exact Hm.
      - apply ret_Ok in Hw as [-> _]. eapply Forall_impl; [|apply Sproj].
        intros m [Hm _]. exact Hm. }
    pose proof (interpolate_shaped _ _ _ _ H Sw) as Se.
    destruct Se as [Hl Hf]. split; [reflexivity | exact Hf].
Qed.

(** The stack of blocks keeps the shape of the trunk tensor. *)
Lemma run_layers_shaped (trunk_dim contraction_dim : nat)
      (ls : list ConcatAttentionBlock.t) (blk_emb : Tensor3) B L Be Ce M :
  Forall (block_geometry trunk_dim contraction_dim) ls ->
  shaped Be Ce M blk_emb -> (0 < B)%nat ->
  forall x y g g',
    shaped B trunk_dim L x ->
    TransformerDiffusion.run_layers ls x blk_emb g = Ok (y, g') ->
    shaped B trunk_dim L y.
Proof.
  intros Hls He HB. induction Hls as [|lyr ls Hlyr _ IH]; intros x y g g' Hx H.
  - simpl in H. now apply ret_Ok in H as [-> _].
  - simpl in H. unfold checkpoint in H.
    apply bind_Ok in H as (x' & g1 & Hstep & H).
    destruct (ConcatAttentionBlock_forward_structure _ _ _ _ _ _ _ _ _ _ _ _ _ _
                Hlyr Hx He HB Hstep)
      as (_ & _ & _ & _ & n & a1 & f1 & a2 & f2 & z & g2 & g3 & _ & _ & _
          & _ & _ & _ & _ & _ & _ & Sz & Ey).
    eapply IH; [|exact H]. subst x'. apply map2_shaped; assumption.
Qed.

(** A conditioned call reads a prior of [input_vec_dim] channels. *)
Lemma code_embedding_prior_channels (kw : TransformerDiffusion.kwargs)
      (self : TransformerDiffusion.t) (x pr : Tensor3) g e g' Bp Cp S :
  model_geometry kw self ->
  shaped Bp Cp S pr -> (0 < Bp)%nat ->
  TransformerDiffusion.code_embedding self x (Some pr) false g = Ok (e, g') ->
  Cp = TransformerDiffusion.kw_input_vec_dim kw /\ (0 < S)%nat.
Proof.
  intros (_ & (Hici & _ & Hick & Hicp) & _) Spr HBp H.
  unfold TransformerDiffusion.code_embedding in H.
  apply bind_Ok in H as (pr' & g1 & Hpr & H). apply lift_Ok in Hpr as [Hpr ->].
  injection Hpr as <-.
  apply bind_Ok in H as (proj & g2 & Hproj & _).
  apply lift_Ok in Hproj as [Hproj _].
  destruct (Conv1d_forward_same_length _ _ _ _ _ _ Spr Hproj) as [_ HC];
    [rewrite Hick, Hicp; reflexivity|].
  destruct (HC HBp) as (E & _ & HS). rewrite Hici in E. auto.
Qed.

Lemma forward_shaped (kw : TransformerDiffusion.kwargs)
      (self : TransformerDiffusion.t) (x : Tensor3) (timesteps : list Z)
      (prior : option Tensor3) (conditioning_free : bool) g o g' B C L :
  model_geometry kw self ->
  shaped B C L x -> (0 < B)%nat ->
  (forall pr, prior = Some pr -> exists Bp Cp S, shaped Bp Cp S pr) ->
  TransformerDiffusion.forward self x timesteps prior conditioning_free g
  = Ok (o, g') ->
  shaped B (TransformerDiffusion.kw_out_channels kw) L o
  /\ C = TransformerDiffusion.kw_in_channels kw /\ (0 < L)%nat.
Proof.
  intros Hgeo Hx HB Hprior H.
  pose proof Hgeo as ((Hibi & Hibo & Hibk & Hibp) & _ & _
                      & (Higi & Higo & Higk & Higp) & Hls
                      & (_ & Hoo & Hok & Hop)).
  unfold TransformerDiffusion.forward in H.
  apply bind_Ok in H as (o' & g1 & Hhead & H). apply ret_Ok in H as [-> ->].
  unfold TransformerDiffusion.out_head_output in Hhead.
  apply bind_Ok in Hhead as (ce & g2 & Hce & Hhead).
  apply bind_Ok in Hhead as (h & g3 & Htrunk & Hhead).
  apply lift_Ok in Hhead as [Hhead ->].
  unfold TransformerDiffusion.trunk in Htrunk.
  apply bind_Ok in Htrunk as (te & g4 & Hte & Htrunk).
  apply lift_Ok in Hte as [Hte ->].
  apply bind_Ok in Htrunk as (xe & g5 & Hxe & Htrunk).
  apply lift_Ok in Hxe as [Hxe ->].
  apply bind_Ok in Htrunk as (xc & g6 & Hxc & Htrunk).
  apply lift_Ok in Hxc as [Hxc ->].
  apply bind_Ok in Htrunk as (xi & g7 & Hxi & Htrunk).
  apply lift_Ok in Hxi as [Hxi ->].
  destruct (Conv1d_forward_same_length _ _ _ _ _ _ Hx Hxe) as [Sxe HCin];
    [rewrite Hibk, Hibp; reflexivity|].
  destruct (HCin HB) as (HC & HCpos & HL). rewrite Hibo in Sxe. rewrite Hibi in HC.
  pose proof (code_embedding_shaped _ _ _ _ _ _ _ _ _ _ _
                Hgeo Hx HB HCpos Hprior Hce) as Sce.
  assert (Hlen : length ce = B).
  { apply cat_dim1_batch in Hxc. unfold size0 in Hxc.
    rewrite <- Hxc. apply Sxe. }
  rewrite Hlen in Sce.
  destruct (cat_dim1_shaped _ _ _ _ _ _ _ Sxe Sce Hxc) as [_ Sxc].
  destruct (Conv1d_forward_same_length _ _ _ _ _ _ Sxc Hxi) as [Sxi _];
    [rewrite Higk, Higp; reflexivity|].
  rewrite Higo in Sxi.
  unfold TransformerDiffusion.time_embed_forward in Hte.
  apply rbind_Ok in Hte as (t0 & _ & Hte).
  pose proof (unsqueeze_last_shaped _ _ (Linear_forward_rows _ _ _ Hte)) as Semb.
  pose proof (run_layers_shaped _ _ _ _ _ _ _ _ _ Hls Semb HB _ _ _ _ Sxi Htrunk)
    as Sh.
  unfold TransformerDiffusion.out_forward in Hhead.
  apply rbind_Ok in Hhead as (hn & Hnorm & Hconv).
  apply is_shape_iff in Sh.
  pose proof (@Normalization_shape F _ _ _ _ _ _ Sh Hnorm) as Shn.
  apply is_shape_iff in Shn.
  destruct (Conv1d_forward_same_length _ _ _ _ _ _ (shaped_tmap silu _ _ _ _ Shn)
              Hconv) as [So _];
    [rewrite Hok, Hop; reflexivity|].
  rewrite Hoo in So.
  split; [|split; assumption].
  unfold tadd_scalar. apply shaped_tmap. exact So.
Qed.

(** X4.  Shape of the model's output.  For a model with the geometry the
    constructor gives it (whatever the values of its parameters, in
    training or evaluation mode, with or without conditioning) and a
    non-empty batch [x] of shape [(B, C, L)], a call of [forward] that
    returns gives a tensor of shape [(B, out_channels, L)].  Such a call
    also shows that [x] has [in_channels] channels and at least one
    position and, when it is conditioned on a non-empty prior, that the
    prior has [input_vec_dim] channels and at least one position: with any
    other input the call raises.  The constructor establishes that
    geometry. *)
Theorem forward_output_shape :
  (forall (kw : TransformerDiffusion.kwargs) g0 self g1,
      TransformerDiffusion.init kw g0 = Ok (self, g1) ->
      model_geometry kw self)
  /\ (forall (kw : TransformerDiffusion.kwargs) (self : TransformerDiffusion.t)
             (x : Tensor3) (timesteps : list Z) (prior : option Tensor3)
             (conditioning_free : bool) (g : Rng) (o : Tensor3) (g' : Rng)
             (B C L : nat),
         model_geometry kw self ->
         is_shape B C L x = true ->
         (0 < B)%nat ->
         (forall pr, prior = Some pr ->
                     exists Bp Cp S, is_shape Bp Cp S pr = true) ->
         TransformerDiffusion.forward self x timesteps prior conditioning_free g
         = Ok (o, g') ->
         is_shape B (TransformerDiffusion.kw_out_channels kw) L o = true
         /\ C = TransformerDiffusion.kw_in_channels kw
         /\ (0 < L)%nat
         /\ (forall pr Bp Cp S,
                conditioning_free = false -> prior = Some pr ->
                is_shape Bp Cp S pr = true -> (0 < Bp)%nat ->
                Cp = TransformerDiffusion.kw_input_vec_dim kw /\ (0 < S)%nat)).
Proof.
  split.
  - intros kw g0 self g1 H. eapply build_geometry, init_Ok, H.
  - intros kw self x timesteps prior conditioning_free g o g' B C L
           Hgeo Hx HB Hprior H.
    apply is_shape_iff in Hx.
    destruct (forward_shaped kw self x timesteps prior conditioning_free g o g'
                B C L Hgeo Hx HB) as (So & HC & HL); [|exact H|].
    + intros pr Hpr. destruct (Hprior pr Hpr) as (Bp & Cp & S & Hs).
      exists Bp, Cp, S. now apply is_shape_iff.
    + split; [now apply is_shape_iff|]. split; [assumption|].
      split; [assumption|].
      intros pr Bp Cp S -> -> Hs HBp. apply is_shape_iff in Hs.
      unfold TransformerDiffusion.forward in H.
      apply bind_Ok in H as (o' & g1 & Hhead & _).
      unfold TransformerDiffusion.out_head_output in Hhead.
      apply bind_Ok in Hhead as (ce & g2 & Hce & _).
      eapply code_embedding_prior_channels; eauto.
Qed.

End ModelShape.

(* ===================================================================== *)
(** ** Gradient scaling and step bookkeeping leave the function alone *)
(* ===================================================================== *)

Lemma bind_ext {A B} (c : M A) (k k' : A -> M B) g :
  (forall a g1, k a g1 = k' a g1) -> bind c k g = bind c k' g.
Proof.
  intros H. unfold bind. destruct (c g) as [[a g1]|e]; [apply H | reflexivity].
Qed.

Lemma bind_cong_l {A B} (c c' : M A) (k : A -> M B) g :
  c g = c' g -> bind c k g = bind c' k g.
Proof. intros H. unfold bind. now rewrite H. Qed.

Lemma scale_grad_data {T} `{Scalable T} (q : Qc) (p : Param T) :
  data (scale_grad q p) = data p.
Proof. unfold scale_grad. destruct (grad p); reflexivity. Qed.

(** The convolution reads the values of its parameters only. *)
Lemma Conv1d_forward_scale_grad (q : Qc) (c : Conv1d.t) (x : Tensor3) :
  Conv1d.forward
    {| Conv1d.in_channels := Conv1d.in_channels c;
       Conv1d.out_channels := Conv1d.out_channels c;
       Conv1d.kernel_size := Conv1d.kernel_size c;
       Conv1d.padding := Conv1d.padding c;
       Conv1d.weight := scale_grad q (Conv1d.weight c);
       Conv1d.bias := option_map (scale_grad q) (Conv1d.bias c) |} x
  = Conv1d.forward c x.
Proof.
  destruct c as [ci co k p [wd [wg|] wr wn] [[bd [bg|] br bn]|]]; reflexivity.
Qed.

Section Invariance.
Context {F : Framework}.

Lemma GroupNorm_forward_scale_grad (q : Qc) (n : GroupNorm.t) (x : Tensor3) :
  GroupNorm.forward
    {| GroupNorm.num_groups := GroupNorm.num_groups n;
       GroupNorm.num_channels := GroupNorm.num_channels n;
       GroupNorm.eps := GroupNorm.eps n;
       GroupNorm.weight := scale_grad q (GroupNorm.weight n);
       GroupNorm.bias := scale_grad q (GroupNorm.bias n) |} x
  = GroupNorm.forward n x.
Proof.
  destruct n as [ng nc e [wd [wg|] wr wn] [bd [bg|] br bn]]; reflexivity.
Qed.

Lemma ConcatAttentionBlock_forward_scaled (q : Qc) (blk : ConcatAttentionBlock.t)
      (x blk_emb : Tensor3) g :
  ConcatAttentionBlock.forward (before_step_block_spec q blk) x blk_emb g
  = ConcatAttentionBlock.forward blk x blk_emb g.
Proof.
  unfold ConcatAttentionBlock.forward, before_step_block_spec.
  cbn [ConcatAttentionBlock.prenorm ConcatAttentionBlock.block1
       ConcatAttentionBlock.block2 ConcatAttentionBlock.out].
  rewrite GroupNorm_forward_scale_grad.
  apply bind_ext. intros h0 g0. apply bind_ext. intros h1 g1.
  apply bind_ext. intros h2 g2.
  now rewrite Conv1d_forward_scale_grad.
Qed.

Lemma run_layers_scaled (q : Qc) (ls : list ConcatAttentionBlock.t) :
  forall x blk_emb g,
    TransformerDiffusion.run_layers (map (before_step_block_spec q) ls) x blk_emb g
    = TransformerDiffusion.run_layers ls x blk_emb g.
Proof.
  induction ls as [|lyr ls IH]; intros x blk_emb g; simpl; [reflexivity|].
  unfold checkpoint, bind. rewrite ConcatAttentionBlock_forward_scaled.
  destruct (ConcatAttentionBlock.forward lyr x blk_emb g) as [[x' g1]|e];
    [apply IH | reflexivity].
Qed.

(** A model whose blocks compute the same function computes the same
    function. *)
Lemma forward_set_layers (ls : list ConcatAttentionBlock.t)
      (self : TransformerDiffusion.t) :
  (forall x blk_emb g,
      TransformerDiffusion.run_layers ls x blk_emb g
      = TransformerDiffusion.run_layers (TransformerDiffusion.layers self)
                                        x blk_emb g) ->
  forall x timesteps prior conditioning_free g,
    TransformerDiffusion.forward (TransformerDiffusion.set_layers ls self)
                                 x timesteps prior conditioning_free g
    = TransformerDiffusion.forward self x timesteps prior conditioning_free g.
Proof.
  intros Hls x timesteps prior conditioning_free g.
  unfold TransformerDiffusion.forward, TransformerDiffusion.out_head_output.
  change (TransformerDiffusion.code_embedding
            (TransformerDiffusion.set_layers ls self))
    with (TransformerDiffusion.code_embedding self).
  change (TransformerDiffusion.out (TransformerDiffusion.set_layers ls self))
    with (TransformerDiffusion.out self).
  change (TransformerDiffusion.unconditioned_embedding
            (TransformerDiffusion.set_layers ls self))
    with (TransformerDiffusion.unconditioned_embedding self).
  apply bind_cong_l. apply bind_ext. clear g. intros ce g.
  apply bind_cong_l.
  unfold TransformerDiffusion.trunk.
  apply bind_ext. clear g. intros te g.
  apply bind_ext. clear g. intros xe g.
  apply bind_ext. clear g. intros xc g.
  apply bind_ext. clear g. intros xi g.
  apply Hls.
Qed.

(** [before_step] rewritten with the blocks it leaves. *)
Lemma before_step_diff (self : TransformerDiffusionWithCheaterLatent.t) (step : Z) :
  TransformerDiffusionWithCheaterLatent.diff
    (TransformerDiffusionWithCheaterLatent.before_step self step)
  = TransformerDiffusion.set_layers
      (map (before_step_block_spec TransformerDiffusionWithCheaterLatent.grad_scale)
           (TransformerDiffusion.layers
              (TransformerDiffusionWithCheaterLatent.diff self)))
      (TransformerDiffusionWithCheaterLatent.diff self).
Proof.
  unfold TransformerDiffusionWithCheaterLatent.before_step,
    TransformerDiffusionWithCheaterLatent.scaled_grad_parameters.
  cbn [TransformerDiffusionWithCheaterLatent.diff].
  now rewrite before_step_layers.
Qed.

(** X5.  [before_step] changes gradients only: the wrapper and the inner
    model compute the same function before and after it, for every input,
    in either mode and from every generator state; the step counter, the
    freeze threshold and the encoder are the same objects. *)
Theorem before_step_keeps_the_forward_pass
        (self : TransformerDiffusionWithCheaterLatent.t) (step : Z) :
  (forall x timesteps truth_mel conditioning_free g,
      TransformerDiffusionWithCheaterLatent.forward
        (TransformerDiffusionWithCheaterLatent.before_step self step)
        x timesteps truth_mel conditioning_free g
      = TransformerDiffusionWithCheaterLatent.forward
          self x timesteps truth_mel conditioning_free g)
  /\ (forall x timesteps prior conditioning_free g,
         TransformerDiffusion.forward
           (TransformerDiffusionWithCheaterLatent.diff
              (TransformerDiffusionWithCheaterLatent.before_step self step))
           x timesteps prior conditioning_free g
         = TransformerDiffusion.forward
             (TransformerDiffusionWithCheaterLatent.diff self)
             x timesteps prior conditioning_free g)
  /\ TransformerDiffusionWithCheaterLatent.internal_step
       (TransformerDiffusionWithCheaterLatent.before_step self step)
     = TransformerDiffusionWithCheaterLatent.internal_step self
  /\ TransformerDiffusionWithCheaterLatent.freeze_encoder_until
       (TransformerDiffusionWithCheaterLatent.before_step self step)
     = TransformerDiffusionWithCheaterLatent.freeze_encoder_until self
  /\ TransformerDiffusionWithCheaterLatent.encoder
       (TransformerDiffusionWithCheaterLatent.before_step self step)
     = TransformerDiffusionWithCheaterLatent.encoder self.
Proof.
  assert (Hdiff : forall x timesteps prior conditioning_free g,
             TransformerDiffusion.forward
               (TransformerDiffusionWithCheaterLatent.diff
                  (TransformerDiffusionWithCheaterLatent.before_step self step))
               x timesteps prior conditioning_free g
             = TransformerDiffusion.forward
                 (TransformerDiffusionWithCheaterLatent.diff self)
                 x timesteps prior conditioning_free g).
  { intros. rewrite before_step_diff. apply forward_set_layers.
    apply run_layers_scaled. }
  split; [|split; [exact Hdiff | repeat split]].
  intros x timesteps truth_mel conditioning_free g.
  unfold TransformerDiffusionWithCheaterLatent.forward.
  transitivity
    (bind (TransformerDiffusionWithCheaterLatent.prior_of self truth_mel)
          (fun proj =>
             TransformerDiffusion.forward
               (TransformerDiffusionWithCheaterLatent.diff
                  (TransformerDiffusionWithCheaterLatent.before_step self step))
               x timesteps (Some proj) conditioning_free) g).
  - reflexivity.
  - apply bind_ext. intros proj g1. apply Hdiff.
Qed.

(** X8.  The step bookkeeping never changes a value: the wrapper's
    [forward] returns the same result whatever [internal_step] and
    [freeze_encoder_until] are, in particular before and after
    [get_debug_values(step, ...)].  The two fields only select the
    parameters that are added with weight zero. *)
Theorem forward_ignores_step_bookkeeping
        (self : TransformerDiffusionWithCheaterLatent.t) (step : Z)
        (freeze_until : option Z)
        (x : Tensor3) (timesteps : list Z) (truth_mel : Tensor3)
        (conditioning_free : bool) (g : Rng) :
  TransformerDiffusionWithCheaterLatent.forward
    (TransformerDiffusionWithCheaterLatent.get_debug_values self step)
    x timesteps truth_mel conditioning_free g
  = TransformerDiffusionWithCheaterLatent.forward
      self x timesteps truth_mel conditioning_free g
  /\ TransformerDiffusionWithCheaterLatent.forward
       {| TransformerDiffusionWithCheaterLatent.internal_step := step;
          TransformerDiffusionWithCheaterLatent.freeze_encoder_until := freeze_until;
          TransformerDiffusionWithCheaterLatent.diff :=
            TransformerDiffusionWithCheaterLatent.diff self;
          TransformerDiffusionWithCheaterLatent.encoder :=
            TransformerDiffusionWithCheaterLatent.encoder self |}
       x timesteps truth_mel conditioning_free g
     = TransformerDiffusionWithCheaterLatent.forward
         self x timesteps truth_mel conditioning_free g.
Proof.
  split; unfold TransformerDiffusionWithCheaterLatent.forward;
    (etransitivity; [apply bind_cong_l, prior_of_is_encoder_output|]);
    symmetry;
    (etransitivity; [apply bind_cong_l, prior_of_is_encoder_output|]);
    reflexivity.
Qed.

Lemma scale_grad_no_gradient {T} `{Scalable T} (q : Qc) (p : Param T) :
  grad p = None -> scale_grad q p = p.
Proof. intros E. unfold scale_grad. now rewrite E. Qed.

Lemma before_step_block_no_gradient (q : Qc) (blk : ConcatAttentionBlock.t) :
  no_scaled_gradient blk -> before_step_block_spec q blk = blk.
Proof.
  destruct blk as [[ng nc e w b] b1 b2 [ci co k p ow ob]].
  unfold no_scaled_gradient, before_step_block_spec. simpl.
  intros (Hw & Hb & Hpw & Hpb).
  rewrite !scale_grad_no_gradient by assumption.
  destruct ob as [b'|]; simpl; [|reflexivity].
  now rewrite scale_grad_no_gradient.
Qed.

Lemma ConcatAttentionBlock_init_no_gradient trunk_dim contraction_dim heads p
      masking g blk g' :
  ConcatAttentionBlock.init trunk_dim contraction_dim heads p masking g
  = Ok (blk, g') ->
  no_scaled_gradient blk.
Proof.
  unfold ConcatAttentionBlock.init. intros H.
  apply bind_Ok in H as (pn & g1 & Hpn & H). apply lift_Ok in Hpn as [Hpn ->].
  apply bind_Ok in H as (b1 & g2 & _ & H).
  apply bind_Ok in H as (b2 & g3 & _ & H).
  apply bind_Ok in H as (o & g4 & Ho & H).
  apply ret_Ok in H as [-> _].
  unfold GroupNorm.init in Hpn.
  destruct (trunk_dim mod 8 =? 0)%nat; [|discriminate]. injection Hpn as <-.
  unfold Conv1d.init in Ho.
  apply bind_Ok in Ho as (w & g5 & _ & Ho).
  apply bind_Ok in Ho as (b & g6 & Hb & Ho).
  apply ret_Ok in Hb as [-> _]. apply ret_Ok in Ho as [-> _].
  repeat split.
Qed.

Lemma build_no_gradient (kw : TransformerDiffusion.kwargs) g self g' :
  TransformerDiffusion.build kw g = Ok (self, g') ->
  Forall no_scaled_gradient (TransformerDiffusion.layers self).
Proof.
  unfold TransformerDiffusion.build. intros H. inv_ok. simpl.
  match goal with
  | Hm : mapM _ _ _ = Ok (_, _) |- _ => apply mapM_Ok in Hm; rename Hm into Hls
  end.
  induction Hls as [|n lyr ns ls (ga & gb & Hlyr) _ IH]; constructor; auto.
  eapply ConcatAttentionBlock_init_no_gradient; eauto.
Qed.

Lemma set_layers_same (self : TransformerDiffusion.t) :
  TransformerDiffusion.set_layers (TransformerDiffusion.layers self) self = self.
Proof. destruct self; reflexivity. Qed.

(** X6.  Without gradients [before_step] does nothing: when none of the
    parameters it visits holds a gradient ([p.grad is None]), the model it
    leaves is the model it was given.  This is the state of a model the
    constructor has just returned. *)
Theorem before_step_without_gradients :
  (forall (self : TransformerDiffusionWithCheaterLatent.t) (step : Z),
      Forall no_scaled_gradient
             (TransformerDiffusion.layers
                (TransformerDiffusionWithCheaterLatent.diff self)) ->
      TransformerDiffusionWithCheaterLatent.before_step self step = self)
  /\ (forall freeze_until checkpoint_encoder kw g self g',
         TransformerDiffusionWithCheaterLatent.init freeze_until
           checkpoint_encoder kw g = Ok (self, g') ->
         Forall no_scaled_gradient
                (TransformerDiffusion.layers
                   (TransformerDiffusionWithCheaterLatent.diff self))).
Proof.
  split.
  - intros self step Hls.
    pose proof (before_step_diff self step) as Hd.
    destruct self as [s fu d e].
    unfold TransformerDiffusionWithCheaterLatent.before_step in *.
    cbn [TransformerDiffusionWithCheaterLatent.diff
         TransformerDiffusionWithCheaterLatent.internal_step
         TransformerDiffusionWithCheaterLatent.freeze_encoder_until
         TransformerDiffusionWithCheaterLatent.encoder] in *.
    rewrite Hd. f_equal.
    assert (E : map (before_step_block_spec
                       TransformerDiffusionWithCheaterLatent.grad_scale)
                    (TransformerDiffusion.layers d)
                = TransformerDiffusion.layers d).
    { rewrite <- (map_id (TransformerDiffusion.layers d)) at 2.
      apply map_ext_in. intros blk Hin.
      rewrite Forall_forall in Hls.
      apply before_step_block_no_gradient. auto. }
    rewrite E. apply set_layers_same.
  - intros freeze_until checkpoint_encoder kw g self g' H.
    unfold TransformerDiffusionWithCheaterLatent.init in H.
    apply bind_Ok in H as (d & g1 & Hd & H).
    apply bind_Ok in H as (e & g2 & _ & H).
    apply ret_Ok in H as [-> _].
    cbn [TransformerDiffusionWithCheaterLatent.diff].
    eapply build_no_gradient, init_Ok, Hd.
Qed.

Lemma tmap_tmap {A B C} (f : A -> B) (h : B -> C) (t : tensor3 A) :
  tmap h (tmap f t) = tmap (fun v => h (f v)) t.
Proof.
  unfold tmap. rewrite map_map. apply map_ext. intros m.
  rewrite map_map. apply map_ext. intros row. apply map_map.
Qed.

(** X7.  Calls of [before_step] compound.  After two calls with no backward
    pass in between, the gradients of [out] and [prenorm] of every block
    have been multiplied by the scale twice, one multiplication after the
    other, and everything else is unchanged: a gradient entry [v] has
    become [(v * q) * q].  (No product [q * q] is formed; in floating
    point the two roundings need not give [v / 25].) *)
Theorem before_step_twice_scales_twice
        (self : TransformerDiffusionWithCheaterLatent.t) (step1 step2 : Z) :
  let q := TransformerDiffusionWithCheaterLatent.grad_scale in
  TransformerDiffusionWithCheaterLatent.before_step
    (TransformerDiffusionWithCheaterLatent.before_step self step1) step2
  = {| TransformerDiffusionWithCheaterLatent.internal_step :=
         TransformerDiffusionWithCheaterLatent.internal_step self;
       TransformerDiffusionWithCheaterLatent.freeze_encoder_until :=
         TransformerDiffusionWithCheaterLatent.freeze_encoder_until self;
       TransformerDiffusionWithCheaterLatent.diff :=
         TransformerDiffusion.set_layers
           (map (fun blk => before_step_block_spec q (before_step_block_spec q blk))
                (TransformerDiffusion.layers
                   (TransformerDiffusionWithCheaterLatent.diff self)))
           (TransformerDiffusionWithCheaterLatent.diff self);
       TransformerDiffusionWithCheaterLatent.encoder :=
         TransformerDiffusionWithCheaterLatent.encoder self |}
  /\ (forall (p : Param Vec) (gd : Vec),
         grad p = Some gd ->
         grad (scale_grad q (scale_grad q p))
         = Some (map (fun v => v * q * q) gd))
  /\ (forall (p : Param Tensor3) (gd : Tensor3),
         grad p = Some gd ->
         grad (scale_grad q (scale_grad q p))
         = Some (tmap (fun v => v * q * q) gd)).
Proof.
  intros q. split; [|split].
  - pose proof (before_step_diff
                  (TransformerDiffusionWithCheaterLatent.before_step self step1)
                  step2) as H2.
    rewrite (before_step_diff self step1) in H2.
    cbn [TransformerDiffusion.set_layers TransformerDiffusion.layers] in H2.
    rewrite map_map in H2.
    unfold TransformerDiffusionWithCheaterLatent.before_step at 1.
    unfold TransformerDiffusionWithCheaterLatent.before_step at 1 in H2.
    cbn [TransformerDiffusionWithCheaterLatent.diff] in H2.
    rewrite H2. clear H2.
    unfold TransformerDiffusionWithCheaterLatent.before_step.
    cbn [TransformerDiffusionWithCheaterLatent.diff
         TransformerDiffusionWithCheaterLatent.internal_step
         TransformerDiffusionWithCheaterLatent.freeze_encoder_until
         TransformerDiffusionWithCheaterLatent.encoder].
    reflexivity.
  - intros [d gd' r n] gd H. simpl in H. subst gd'.
    unfold scale_grad, scale, Scalable_Vec. simpl. now rewrite map_map.
  - intros [d gd' r n] gd H. simpl in H. subst gd'.
    unfold scale_grad, scale, Scalable_Tensor3. simpl. now rewrite tmap_tmap.
Qed.

End Invariance.

(* ===================================================================== *)
(** ** The conditioning embedding: extremes of the dropout, upsampling *)
(* ===================================================================== *)

Lemma seq_from (k n : nat) : seq k n = map (Nat.add k) (seq 0 n).
Proof.
  induction k as [|k IH]; simpl.
  - symmetry. apply map_id.
  - rewrite <- seq_shift, IH, map_map. reflexivity.
Qed.

(** Reading position [i / k] of a row for [k] times its length repeats
    every entry [k] times. *)
Lemma nth_div_upsample (k : nat) (r : Vec) :
  (0 < k)%nat ->
  map (fun i => nth (i / k) r 0) (seq 0 (k * length r)) = upsample k r.
Proof.
  intros Hk. induction r as [|v r IH]; simpl.
  - rewrite Nat.mul_0_r. reflexivity.
  - rewrite Nat.mul_succ_r, Nat.add_comm, seq_app, map_app. simpl.
    f_equal.
    + rewrite (map_ext_in _ (fun _ => v)).
      * now rewrite map_const_repeat, length_seq.
      * intros i Hi. apply in_seq in Hi.
        rewrite Nat.div_small by lia. reflexivity.
    + rewrite seq_from, map_map, <- IH. apply map_ext. intros i.
      replace (k + i)%nat with (1 * k + i)%nat by lia.
      rewrite Nat.div_add_l by lia. reflexivity.
Qed.

(** Stretching by a power of two: the index arithmetic is exact. *)
Lemma nearest_row_upsample (j : nat) (r : Vec) :
  (Z.of_nat (2 ^ j * length r) < 2 ^ 24)%Z ->
  nearest_row (2 ^ j * length r) r = upsample (2 ^ j) r.
Proof.
  intros Hn. unfold nearest_row.
  assert (Hk : (0 < 2 ^ j)%nat)
    by (apply Nat.neq_0_lt_0, Nat.pow_nonzero; discriminate).
  destruct (Nat.eq_dec (length r) 0) as [E | E].
  - rewrite E, Nat.mul_0_r. destruct r; [reflexivity | discriminate].
  - rewrite <- (nth_div_upsample (2 ^ j) r Hk). apply map_ext_in.
    intros i Hi. apply in_seq in Hi.
    rewrite nearest_index_pow2; [reflexivity | lia | exact Hn | lia].
Qed.

(** Other factors need not repeat evenly: from 2 positions to 82 the
    rounded scale reads the first position 42 times. *)
Lemma nearest_index_2_82 :
  map (nearest_index 82 2) (seq 0 82) = repeat 0%nat 42 ++ repeat 1%nat 40.
Proof. vm_compute. reflexivity. Qed.

Lemma upsample_one (r : Vec) : upsample 1 r = r.
Proof.
  unfold upsample. induction r as [|v r IH]; [reflexivity|].
  change (v :: flat_map (fun v0 : Qc => repeat v0 1) r = v :: r). now rewrite IH.
Qed.

Lemma interpolate_upsample (j B C S : nat) (t : Tensor3) :
  shaped B C S t -> (0 < B)%nat -> (0 < C)%nat -> (0 < S)%nat ->
  (Z.of_nat (2 ^ j * S) < 2 ^ 24)%Z ->
  interpolate_nearest (2 ^ j * S) t
  = Ok (tmap (fun v => v) (map (map (upsample (2 ^ j))) t)).
Proof.
  intros Ht HB HC HS Hn. unfold interpolate_nearest.
  assert (Hk : (0 < 2 ^ j)%nat)
    by (apply Nat.neq_0_lt_0, Nat.pow_nonzero; discriminate).
  rewrite (shaped_size2 _ _ _ _ Ht HB HC), (shaped_size0 _ _ _ _ Ht).
  destruct (2 ^ j * S =? 0)%nat eqn:E2; [apply Nat.eqb_eq in E2; nia|].
  destruct (B =? 0)%nat eqn:E0; [apply Nat.eqb_eq in E0; lia|].
  destruct (S =? 0)%nat eqn:E1; [apply Nat.eqb_eq in E1; lia|].
  f_equal. rewrite tmap_ext_id by reflexivity.
  destruct Ht as [_ Hf]. apply map_ext_in. intros m Hm.
  rewrite Forall_forall in Hf. destruct (Hf m Hm) as [_ Hr].
  apply map_ext_in. intros r Hin.
  unfold rows_of_length in Hr. rewrite Forall_forall in Hr.
  rewrite <- (Hr r Hin) in Hn |- *. now apply nearest_row_upsample.
Qed.

Section Conditioning.
Context {F : Framework}.

(** The training-mode embedding when [x] and the projection have the same
    batch size. *)
Lemma code_embedding_training (self : TransformerDiffusion.t)
      (x prior proj e : Tensor3) (g g' : Rng) (B C S : nat) :
  TransformerDiffusion.training self = true ->
  Qcltb 0 (TransformerDiffusion.unconditioned_percentage self) = true ->
  shaped 1 C 1 (data (TransformerDiffusion.unconditioned_embedding self)) ->
  Conv1d.forward (TransformerDiffusion.input_converter self) prior = Ok proj ->
  shaped B C S proj ->
  size0 x = B ->
  TransformerDiffusion.code_embedding self x (Some prior) false g = Ok (e, g') ->
  interpolate_nearest (size2 x)
    (replace_unconditioned (TransformerDiffusion.unconditioned_percentage self)
       (data (TransformerDiffusion.unconditioned_embedding self)) S
       (draws_of g B) proj) = Ok e
  /\ e = map2 (fun d m =>
                 if Qcltb d (TransformerDiffusion.unconditioned_percentage self)
                 then unconditioned_rows (size2 x)
                        (data (TransformerDiffusion.unconditioned_embedding self))
                 else map (nearest_row (size2 x)) m)
              (draws_of g B) proj.
Proof.
  intros Htrain Hpct Hemb Hproj Hshape Hbatch Hrun.
  unfold TransformerDiffusion.code_embedding in Hrun.
  rewrite Htrain, Hpct in Hrun. simpl in Hrun.
  apply bind_Ok in Hrun as (pr & g1 & Hpr & Hrun).
  apply ret_Ok in Hpr as [-> ->].
  apply bind_Ok in Hrun as (ce & g2 & Hce & Hrun).
  apply lift_Ok in Hce as [Hce ->].
  rewrite Hproj in Hce. injection Hce as <-.
  apply bind_Ok in Hrun as (w & g3 & Hw & Hrun).
  apply lift_Ok in Hrun as [Hint ->].
  apply bind_Ok in Hw as (dr & g4 & Hdr & Hw).
  apply lift_Ok in Hw as [Hw ->].
  unfold torch_rand in Hdr. injection Hdr as <- <-.
  rewrite (shaped_size0 _ _ _ _ Hshape) in *.
  assert (Hlen : length (draws_of g B) = B).
  { unfold draws_of. now rewrite length_map, length_seq. }
  apply (torch_where_replaces _ _ proj _ (size0 x) B C S w Hemb Hshape Hlen)
    in Hw as [-> _].
  rewrite Hbatch in Hint.
  destruct Hshape as [HB Hf].
  assert (Eu : expand B (draws_of g B) = draws_of g B)
    by (rewrite <- Hlen at 1; apply expand_same_length).
  assert (Ek : expand B proj = proj)
    by (rewrite <- HB at 1; apply expand_same_length).
  rewrite Eu, Ek in Hint.
  split; [exact Hint|].
  eapply interpolate_replaced; [exact Hemb | exact Hf | exact Hint].
Qed.

Lemma map2_const {A B C} (c : C) (l1 : list A) (l2 : list B) :
  length l1 = length l2 -> map2 (fun _ _ => c) l1 l2 = repeat c (length l1).
Proof.
  revert l2. induction l1 as [|a l1 IH]; intros [|b l2] H; simpl in *;
    try discriminate; [reflexivity|]. f_equal. apply IH. congruence.
Qed.

Lemma map2_snd {A B C} (f : B -> C) (l1 : list A) (l2 : list B) :
  length l1 = length l2 -> map2 (fun _ b => f b) l1 l2 = map f l2.
Proof.
  revert l2. induction l1 as [|a l1 IH]; intros [|b l2] H; simpl in *;
    try discriminate; [reflexivity|]. f_equal. apply IH. congruence.
Qed.

(** X9.  The two extremes of the conditioning dropout.  In training mode
    with a positive [unconditioned_percentage], when [x] and the projected
    prior have the same batch size: if every draw is below the percentage,
    the embedding is the one [conditioning_free=True] computes; if no draw
    is below it, the embedding is the one the model computes in
    evaluation mode. *)
Theorem conditioning_dropout_extremes
        (self : TransformerDiffusion.t) (x prior proj e : Tensor3) (g g' : Rng)
        (B C S : nat)
        (Htrain : TransformerDiffusion.training self = true)
        (Hpct : Qcltb 0 (TransformerDiffusion.unconditioned_percentage self) = true)
        (Hemb : is_shape 1 C 1
                  (data (TransformerDiffusion.unconditioned_embedding self)) = true)
        (Hproj : Conv1d.forward (TransformerDiffusion.input_converter self) prior
                 = Ok proj)
        (Hshape : is_shape B C S proj = true)
        (Hbatch : size0 x = B)
        (Hrun : TransformerDiffusion.code_embedding self x (Some prior) false g
                = Ok (e, g')) :
  (Forall (fun d => Qcltb d (TransformerDiffusion.unconditioned_percentage self)
                    = true) (draws_of g B) ->
   forall any_prior g0,
     TransformerDiffusion.code_embedding self x any_prior true g0 = Ok (e, g0))
  /\ (Forall (fun d => Qcltb d (TransformerDiffusion.unconditioned_percentage self)
                       = false) (draws_of g B) ->
      forall g0,
        TransformerDiffusion.code_embedding (TransformerDiffusion.eval self)
                                            x (Some prior) false g0
        = Ok (e, g0)).
Proof.
  apply is_shape_iff in Hemb, Hshape.
  destruct (code_embedding_training self x prior proj e g g' B C S
              Htrain Hpct Hemb Hproj Hshape Hbatch Hrun) as [Hint He].
  assert (Hlen : length (draws_of g B) = length proj).
  { unfold draws_of. rewrite length_map, length_seq. symmetry. apply Hshape. }
  split.
  - intros Hall any_prior g0.
    unfold TransformerDiffusion.code_embedding, ret.
    rewrite (tensor_repeat_unit _ _ _ _ Hemb), Hbatch. do 2 f_equal.
    rewrite He.
    rewrite (map2_ext_in _ (fun _ _ =>
                              unconditioned_rows (size2 x)
                                (data (TransformerDiffusion.unconditioned_embedding
                                         self)))).
    + rewrite map2_const by exact Hlen. f_equal.
      unfold draws_of. now rewrite length_map, length_seq.
    + intros d m Hd _. rewrite Forall_forall in Hall. now rewrite (Hall d Hd).
  - intros Hnone g0.
    rewrite code_embedding_eval by reflexivity.
    change (TransformerDiffusion.input_converter (TransformerDiffusion.eval self))
      with (TransformerDiffusion.input_converter self).
    rewrite Hproj. simpl.
    assert (Hw : replace_unconditioned
                   (TransformerDiffusion.unconditioned_percentage self)
                   (data (TransformerDiffusion.unconditioned_embedding self)) S
                   (draws_of g B) proj = proj).
    { unfold replace_unconditioned.
      rewrite (map2_ext_in _ (fun _ m => m)).
      - rewrite (map2_snd (fun m => m)) by exact Hlen. apply map_id.
      - intros d m Hd _. rewrite Forall_forall in Hnone. now rewrite (Hnone d Hd). }
    rewrite Hw in Hint. unfold lift. now rewrite Hint.
Qed.

(** X10.  The conditioning embedding is the projected prior, stretched.
    In evaluation mode, when [x] is [2^j] times as long as the prior and
    shorter than [2^24] positions, every entry of [input_converter(prior)]
    is repeated [2^j] times in place: the single-precision scale of the
    interpolation is exact there.  When [x] has the length of the prior
    ([j = 0]), the embedding is the projection itself.  Other factors need
    not repeat evenly: a row of 2 entries stretched to 82 positions holds
    the first entry 42 times and the second 40 times. *)
Theorem code_embedding_repeats_each_latent
        (self : TransformerDiffusion.t) (x prior proj : Tensor3) (g : Rng)
        (j B C S : nat)
        (Heval : TransformerDiffusion.training self = false)
        (Hproj : Conv1d.forward (TransformerDiffusion.input_converter self) prior
                 = Ok proj)
        (Hshape : is_shape B C S proj = true)
        (HB : (0 < B)%nat) (HC : (0 < C)%nat) (HS : (0 < S)%nat)
        (Hlen : size2 x = (2 ^ j * S)%nat)
        (Hsmall : (Z.of_nat (size2 x) < 2 ^ 24)%Z) :
  TransformerDiffusion.code_embedding self x (Some prior) false g
  = Ok (map (map (upsample (2 ^ j))) proj, g)
  /\ (j = 0%nat ->
      TransformerDiffusion.code_embedding self x (Some prior) false g
      = Ok (proj, g))
  /\ (forall a b : Qc, nearest_row 82 [a; b] = repeat a 42 ++ repeat b 40).
Proof.
  apply is_shape_iff in Hshape.
  assert (H : TransformerDiffusion.code_embedding self x (Some prior) false g
              = Ok (map (map (upsample (2 ^ j))) proj, g)).
  { rewrite code_embedding_eval by exact Heval.
    rewrite Hlen in Hsmall. rewrite Hproj, Hlen. simpl.
    rewrite (interpolate_upsample j B C S proj Hshape HB HC HS Hsmall).
    rewrite tmap_ext_id by reflexivity. reflexivity. }
  split; [exact H|]. split.
  - intros ->. rewrite H. do 2 f_equal.
    rewrite <- (map_id proj) at 2. apply map_ext. intros m.
    rewrite <- (map_id m) at 2. apply map_ext. apply upsample_one.
  - intros a b. unfold nearest_row.
    change (length [a; b]) with 2%nat.
    rewrite <- (map_map (nearest_index 82 2) (fun k => nth k [a; b] 0)).
    rewrite nearest_index_2_82. reflexivity.
Qed.

End Conditioning.

(* ===================================================================== *)
(** ** extract_cheater_encoder *)
(* ===================================================================== *)

Lemma dict_set_new {V} (k : string) (v : V) (d : state_dict V) :
  ~ In k (map fst d) -> dict_set k v d = d ++ [(k, v)].
Proof.
  induction d as [|[k' v'] d IH]; simpl; intros Hn; [reflexivity|].
  destruct (String.eqb_spec k k') as [-> | Hne].
  - exfalso. apply Hn. now left.
  - f_equal. apply IH. intros Hin. apply Hn. now right.
Qed.

Lemma extract_from {V} (p acc : state_dict V) :
  NoDup (map fst acc ++ map fst p) ->
  fold_left (fun out kv =>
               if String.prefix "encoder." (fst kv)
               then dict_set (fst kv) (snd kv) out
               else out) p acc
  = acc ++ filter (fun kv => String.prefix "encoder." (fst kv)) p.
Proof.
  revert acc. induction p as [|[k v] p IH]; intros acc Hnd; simpl.
  - now rewrite app_nil_r.
  - simpl in Hnd.
    pose proof (NoDup_remove_1 _ _ _ Hnd) as Hnd1.
    pose proof (NoDup_remove_2 _ _ _ Hnd) as Hnk.
    destruct (String.prefix "encoder." k).
    + rewrite dict_set_new by (intros Hin; apply Hnk, in_or_app; now left).
      rewrite IH.
      * now rewrite <- app_assoc.
      * rewrite map_app. simpl. rewrite <- app_assoc. exact Hnd.
    + apply IH. exact Hnd1.
Qed.

Lemma filter_idem {A} (f : A -> bool) (l : list A) :
  filter f (filter f l) = filter f l.
Proof.
  induction l as [|a l IH]; simpl; [reflexivity|].
  destruct (f a) eqn:E; simpl; rewrite ?E; congruence.
Qed.

Lemma dict_get_filter {V} (pred : string -> bool) (k : string) (p : state_dict V) :
  dict_get k (filter (fun kv => pred (fst kv)) p)
  = if pred k then dict_get k p else None.
Proof.
  induction p as [|[k' v'] p IH]; simpl; [now destruct (pred k)|].
  destruct (pred k') eqn:Ek'; simpl.
  - destruct (String.eqb_spec k k') as [-> | Hne]; [now rewrite Ek' | exact IH].
  - destruct (String.eqb_spec k k') as [-> | Hne]; [|exact IH].
    rewrite Ek' in *. exact IH.
Qed.

(** X11.  [extract_cheater_encoder] keeps exactly the entries whose key
    starts with ["encoder."], in their order, with the key and the value
    unchanged (the prefix is not removed).  Looking a key up in the saved
    dictionary gives the loaded value when the key has the prefix and
    nothing otherwise; extracting from an extract changes nothing. *)
Theorem extract_cheater_encoder_keeps_encoder_entries
        {V : Type} (p : state_dict V) (Hkeys : NoDup (map fst p)) :
  extract_cheater_encoder p
  = filter (fun kv => String.prefix "encoder." (fst kv)) p
  /\ (forall k,
         dict_get k (extract_cheater_encoder p)
         = if String.prefix "encoder." k then dict_get k p else None)
  /\ Forall (fun kv => String.prefix "encoder." (fst kv) = true)
            (extract_cheater_encoder p)
  /\ extract_cheater_encoder (extract_cheater_encoder p)
     = extract_cheater_encoder p.
Proof.
  assert (E : forall q : state_dict V,
             NoDup (map fst q) ->
             extract_cheater_encoder q
             = filter (fun kv => String.prefix "encoder." (fst kv)) q).
  { intros q Hq. unfold extract_cheater_encoder.
    now rewrite extract_from by exact Hq. }
  assert (Hf : NoDup (map fst (filter (fun kv : string * V =>
                                         String.prefix "encoder." (fst kv)) p))).
  { clear E. induction p as [|[k v] p IH]; simpl; [constructor|].
    inversion Hkeys as [|? ? Hn Hnd]; subst.
    destruct (String.prefix "encoder." k); simpl; [|now apply IH].
    constructor; [|now apply IH].
    intros Hin. apply Hn. apply in_map_iff in Hin as ([k' v'] & Hk & Hin).
    apply filter_In in Hin as [Hin _]. apply in_map_iff.
    exists (k', v'). auto. }
  rewrite (E p Hkeys). repeat split.
  - intros k. apply (dict_get_filter (String.prefix "encoder.")).
  - apply Forall_forall. intros kv Hin. now apply filter_In in Hin as [_ H].
  - rewrite (E _ Hf). apply filter_idem.
Qed.

(* ===================================================================== *)
(** ** What the constructor requires *)
(* ===================================================================== *)

Lemma Dropout_init_Ok (q : Qc) (d : Dropout.t) :
  Dropout.init q = Ok d -> 0 <= q /\ q <= 1.
Proof.
  unfold Dropout.init, Qcltb. intros H.
  destruct (q ?= 0) eqn:E0; simpl in H; try discriminate;
    destruct (1 ?= q) eqn:E1; simpl in H; try discriminate;
    (split; [apply Qcge_alt | apply Qcge_alt]; congruence).
Qed.

Section Constructor.
Context {F : Framework}.

Lemma ConcatAttentionBlock_init_requires trunk_dim contraction_dim heads p
      masking g blk g' :
  ConcatAttentionBlock.init trunk_dim contraction_dim heads p masking g
  = Ok (blk, g') ->
  (trunk_dim mod 8 = 0)%nat /\ (contraction_dim mod 8 = 0)%nat
  /\ 0 <= p /\ p <= 1.
Proof.
  unfold ConcatAttentionBlock.init. intros H.
  apply bind_Ok in H as (pn & g1 & Hpn & H). apply lift_Ok in Hpn as [Hpn ->].
  apply bind_Ok in H as (b1 & g2 & Hb1 & _).
  apply GroupNorm_init_Ok in Hpn as (_ & _ & Hmod).
  unfold SubBlock.init in Hb1.
  apply bind_Ok in Hb1 as (d & g3 & Hd & Hb1). apply lift_Ok in Hd as [Hd ->].
  apply bind_Ok in Hb1 as (pr & g4 & _ & Hb1).
  apply bind_Ok in Hb1 as (a & g5 & _ & Hb1).
  apply bind_Ok in Hb1 as (an & g6 & Han & _). apply lift_Ok in Han as [Han _].
  apply GroupNorm_init_Ok in Han as (_ & _ & Hmodc).
  apply Dropout_init_Ok in Hd as [H0 H1].
  auto.
Qed.

(** X12.  What a successful construction shows.  When
    [TransformerDiffusion(...)] returns a model, the model is in training
    mode and holds [num_layers] blocks; and if [num_layers] is positive,
    [model_channels] and [contraction_dim] are multiples of 8 and
    [dropout] lies between 0 and 1.  With any other arguments the
    constructor raises. *)
Theorem constructor_requirements
        (kw : TransformerDiffusion.kwargs) (g g' : Rng)
        (self : TransformerDiffusion.t)
        (Hinit : TransformerDiffusion.init kw g = Ok (self, g')) :
  TransformerDiffusion.training self = true
  /\ length (TransformerDiffusion.layers self) = TransformerDiffusion.kw_num_layers kw
  /\ ((0 < TransformerDiffusion.kw_num_layers kw)%nat ->
      (TransformerDiffusion.kw_model_channels kw mod 8 = 0)%nat
      /\ (TransformerDiffusion.kw_contraction_dim kw mod 8 = 0)%nat
      /\ 0 <= TransformerDiffusion.kw_dropout kw
      /\ TransformerDiffusion.kw_dropout kw <= 1).
Proof.
  apply init_Ok in Hinit.
  unfold TransformerDiffusion.build in Hinit. inv_ok. simpl.
  match goal with
  | Hm : mapM _ _ _ = Ok (_, _) |- _ => rename Hm into Hls
  end.
  split; [reflexivity|]. split.
  - apply mapM_length in Hls. now rewrite length_seq in Hls.
  - intros Hn. apply mapM_Ok in Hls.
    destruct (TransformerDiffusion.kw_num_layers kw) as [|n]; [lia|].
    simpl in Hls. inversion Hls as [|? lyr ? ? (ga & gb & Hlyr) _]; subst.
    eapply ConcatAttentionBlock_init_requires; eauto.
Qed.

End Constructor.

(* ===================================================================== *)
(** ** Random draws of a forward pass *)
(* ===================================================================== *)

Lemma Dropout_forward_inactive (d : Dropout.t) (x : Tensor3) :
  Dropout.training d && Qcltb 0 (Dropout.p d) = false ->
  Dropout.forward d x = ret x.
Proof. unfold Dropout.forward. now intros ->. Qed.

Lemma Dropout_inactive_deterministic (d : Dropout.t) (x : Tensor3) :
  Dropout.training d && Qcltb 0 (Dropout.p d) = false ->
  deterministic (Dropout.forward d x).
Proof.
  intros Hd. rewrite (Dropout_forward_inactive _ _ Hd). apply deterministic_ret.
Qed.

Lemma deterministic_keeps_generator {A} (c : M A) g o g' :
  deterministic c -> c g = Ok (o, g') -> g' = g.
Proof.
  intros [r Hr] H. rewrite Hr in H. now apply lift_Ok in H as [_ ->].
Qed.

Section Randomness.
Context {F : Framework}.

Lemma run_layers_draws_nothing (self : TransformerDiffusion.t) :
  dropout_inactive self = true ->
  forall x blk_emb,
    deterministic (TransformerDiffusion.run_layers
                     (TransformerDiffusion.layers self) x blk_emb).
Proof.
  unfold dropout_inactive.
  induction (TransformerDiffusion.layers self) as [|lyr ls IH]; simpl;
    intros Hall x blk_emb.
  - auto with determinism.
  - apply andb_true_iff in Hall as [Hl Hls].
    apply andb_true_iff in Hl as [H1 H2].
    apply negb_true_iff in H1, H2.
    apply deterministic_bind; [|intros ?; now apply IH].
    unfold checkpoint, ConcatAttentionBlock.forward.
    repeat (apply deterministic_bind; [|intros ?]);
      auto using Dropout_inactive_deterministic with determinism.
Qed.

(** Everything after the conditioning embedding draws nothing. *)
Lemma after_code_embedding_draws_nothing (self : TransformerDiffusion.t)
      (x : Tensor3) (timesteps : list Z) (code_emb : Tensor3) :
  dropout_inactive self = true ->
  deterministic
    (h <- TransformerDiffusion.trunk self x timesteps code_emb ;;
     lift (TransformerDiffusion.out_forward (TransformerDiffusion.out self) h)).
Proof.
  intros Hd. apply deterministic_bind; [|auto with determinism].
  unfold TransformerDiffusion.trunk.
  repeat (apply deterministic_bind; [|intros ?]);
    auto using run_layers_draws_nothing with determinism.
Qed.

Lemma forward_generator (self : TransformerDiffusion.t) (x : Tensor3)
      (timesteps : list Z) (prior : option Tensor3) (conditioning_free : bool)
      g o g' :
  dropout_inactive self = true ->
  TransformerDiffusion.forward self x timesteps prior conditioning_free g
  = Ok (o, g') ->
  exists code_emb,
    TransformerDiffusion.code_embedding self x prior conditioning_free g
    = Ok (code_emb, g').
Proof.
  intros Hd H. unfold TransformerDiffusion.forward in H.
  apply bind_Ok in H as (o' & g1 & Hhead & H). apply ret_Ok in H as [_ ->].
  unfold TransformerDiffusion.out_head_output in Hhead.
  apply bind_Ok in Hhead as (ce & g2 & Hce & Hrest).
  apply (deterministic_keeps_generator _ _ _ _
           (after_code_embedding_draws_nothing self x timesteps ce Hd)) in Hrest.
  subst g1. now exists ce.
Qed.

Lemma ConcatAttentionBlock_init_dropout trunk_dim contraction_dim heads p
      masking g blk g' :
  ConcatAttentionBlock.init trunk_dim contraction_dim heads p masking g
  = Ok (blk, g') ->
  Dropout.p (SubBlock.dropout (ConcatAttentionBlock.block1 blk)) = p
  /\ Dropout.p (SubBlock.dropout (ConcatAttentionBlock.block2 blk)) = p.
Proof.
  assert (Hsb : forall i c b h gg sb gg',
             SubBlock.init i c b h p masking gg = Ok (sb, gg') ->
             Dropout.p (SubBlock.dropout sb) = p).
  { intros i c b h gg sb gg' H. unfold SubBlock.init in H.
    apply bind_Ok in H as (d & g1 & Hd & H). apply lift_Ok in Hd as [Hd ->].
    inv_ok. simpl.
    unfold Dropout.init in Hd.
    destruct (Qcltb p 0 || Qcltb 1 p); [discriminate|]. now injection Hd as <-. }
  unfold ConcatAttentionBlock.init. intros H.
  apply bind_Ok in H as (pn & g1 & _ & H).
  apply bind_Ok in H as (b1 & g2 & Hb1 & H).
  apply bind_Ok in H as (b2 & g3 & Hb2 & H).
  apply bind_Ok in H as (o & g4 & _ & H).
  apply ret_Ok in H as [-> _]. simpl. split; eapply Hsb; eauto.
Qed.

(** X13.  Which random numbers a forward pass draws.  When no dropout
    layer is active (as in a model built with [dropout=0], the default),
    the only draws are those of the conditioning mask: a
    [conditioning_free] call leaves the generator where it was, also in
    training mode; a conditioned call in training mode with a positive
    [unconditioned_percentage] advances it by the batch size of the
    projected prior, one draw per batch element; and a conditioned call
    outside training mode or with a percentage that is not positive leaves
    it where it was. *)
Theorem forward_draws_only_the_conditioning_mask :
  (forall (kw : TransformerDiffusion.kwargs) g0 self g1,
      TransformerDiffusion.kw_dropout kw = 0 ->
      TransformerDiffusion.init kw g0 = Ok (self, g1) ->
      dropout_inactive self = true)
  /\ (forall (self : TransformerDiffusion.t) (x : Tensor3) (timesteps : list Z),
         dropout_inactive self = true ->
         (forall prior g o g',
             TransformerDiffusion.forward self x timesteps prior true g
             = Ok (o, g') ->
             g' = g)
         /\ (forall pr proj g o g',
                TransformerDiffusion.training self = true ->
                Qcltb 0 (TransformerDiffusion.unconditioned_percentage self) = true ->
                Conv1d.forward (TransformerDiffusion.input_converter self) pr
                = Ok proj ->
                TransformerDiffusion.forward self x timesteps (Some pr) false g
                = Ok (o, g') ->
                g' = advance (size0 proj) g)
         /\ (forall pr g o g',
                TransformerDiffusion.training self
                && Qcltb 0 (TransformerDiffusion.unconditioned_percentage self)
                = false ->
                TransformerDiffusion.forward self x timesteps (Some pr) false g
                = Ok (o, g') ->
                g' = g)).
Proof.
  split.
  - intros kw g0 self g1 Hp H. apply init_Ok in H.
    unfold TransformerDiffusion.build in H. inv_ok.
    unfold dropout_inactive. simpl.
    match goal with
    | Hm : mapM _ _ _ = Ok (_, _) |- _ => apply mapM_Ok in Hm; rename Hm into Hls
    end.
    apply forallb_forall. intros lyr Hin.
    assert (Hl : exists ga gb,
               ConcatAttentionBlock.init
                 (TransformerDiffusion.kw_model_channels kw)
                 (TransformerDiffusion.kw_contraction_dim kw)
                 (TransformerDiffusion.kw_num_heads kw)
                 (TransformerDiffusion.kw_dropout kw) true ga = Ok (lyr, gb)).
    { clear - Hls Hin.
      induction Hls as [|n l ns ls Hl _ IH]; [contradiction|].
      destruct Hin as [<- | Hin]; auto. }
    destruct Hl as (ga & gb & Hl).
    apply ConcatAttentionBlock_init_dropout in Hl as [-> ->].
    rewrite Hp. rewrite !andb_false_r. reflexivity.
  - intros self x timesteps Hd. split; [|split].
    + intros prior g o g' H.
      destruct (forward_generator _ _ _ _ _ _ _ _ Hd H) as (ce & Hce).
      unfold TransformerDiffusion.code_embedding in Hce.
      now apply ret_Ok in Hce as [_ ->].
    + intros pr proj g o g' Htrain Hpct Hproj H.
      destruct (forward_generator _ _ _ _ _ _ _ _ Hd H) as (ce & Hce).
      unfold TransformerDiffusion.code_embedding in Hce.
      rewrite Htrain, Hpct in Hce. simpl in Hce.
      apply bind_Ok in Hce as (pr' & g1 & Hpr & Hce).
      apply ret_Ok in Hpr as [-> ->].
      apply bind_Ok in Hce as (c & g2 & Hc & Hce).
      apply lift_Ok in Hc as [Hc ->].
      rewrite Hproj in Hc. injection Hc as <-.
      apply bind_Ok in Hce as (w & g3 & Hw & Hce).
      apply lift_Ok in Hce as [_ ->].
      apply bind_Ok in Hw as (dr & g4 & Hdr & Hw).
      apply lift_Ok in Hw as [_ ->].
      unfold torch_rand in Hdr. now injection Hdr as _ <-.
    + intros pr g o g' Hoff H.
      destruct (forward_generator _ _ _ _ _ _ _ _ Hd H) as (ce & Hce).
      unfold TransformerDiffusion.code_embedding in Hce.
      rewrite Hoff in Hce.
      apply bind_Ok in Hce as (pr' & g1 & Hpr & Hce).
      apply lift_Ok in Hpr as [_ ->].
      apply bind_Ok in Hce as (c & g2 & Hc & Hce).
      apply lift_Ok in Hc as [_ ->].
      apply bind_Ok in Hce as (w & g3 & Hw & Hce).
      apply ret_Ok in Hw as [_ ->].
      now apply lift_Ok in Hce as [_ ->].
Qed.

End Randomness.

(* ===================================================================== *)
(** ** Batch size of the prior; training and evaluation mode *)
(* ===================================================================== *)

Section PriorBatch.
Context {F : Framework}.

(** Batch size of the conditioning embedding: that of the prior, except
    that the conditioning mask stretches a prior of batch size one to the
    batch size of [x]. *)
Lemma code_embedding_batch (kw : TransformerDiffusion.kwargs)
      (self : TransformerDiffusion.t) (x pr : Tensor3) g e g' Bp Cp S :
  model_geometry kw self ->
  shaped Bp Cp S pr ->
  TransformerDiffusion.code_embedding self x (Some pr) false g = Ok (e, g') ->
  length e = Bp
  \/ (Bp = 1%nat /\ TransformerDiffusion.training self = true
      /\ Qcltb 0 (TransformerDiffusion.unconditioned_percentage self) = true
      /\ length e = size0 x).
Proof.
  intros (_ & (_ & Hico & Hick & Hicp) & Hue & _) Spr H.
  unfold TransformerDiffusion.code_embedding in H.
  apply bind_Ok in H as (pr' & g1 & Hpr & H). apply lift_Ok in Hpr as [Hpr ->].
  injection Hpr as <-.
  apply bind_Ok in H as (proj & g2 & Hproj & H).
  apply lift_Ok in Hproj as [Hproj ->].
  destruct (Conv1d_forward_same_length _ _ _ _ _ _ Spr Hproj) as [Sproj _];
    [rewrite Hick, Hicp; reflexivity|].
  rewrite Hico in Sproj.
  apply bind_Ok in H as (w & g3 & Hw & H). apply lift_Ok in H as [H ->].
  assert (He : length e = length w).
  { unfold interpolate_nearest in H.
    destruct (size2 x =? 0)%nat; [discriminate|].
    destruct (size0 w =? 0)%nat eqn:E0.
    - injection H as <-. apply Nat.eqb_eq in E0. symmetry. exact E0.
    - destruct (size2 w =? 0)%nat; [discriminate|].
      injection H as <-. apply length_map. }
  destruct (TransformerDiffusion.training self) eqn:Htrain;
    [destruct (Qcltb 0 (TransformerDiffusion.unconditioned_percentage self))
       eqn:Hpct|]; simpl in Hw.
  - apply bind_Ok in Hw as (u & g4 & Hu & Hw). apply lift_Ok in Hw as [Hw _].
    unfold torch_rand in Hu. injection Hu as <- _.
    assert (Hlen : length (draws_of g (size0 proj)) = Bp).
    { unfold draws_of. rewrite length_map, length_seq.
      apply (shaped_size0 _ _ _ _ Sproj). }
    destruct (torch_where_replaces _ _ _ _ _ _ _ _ _ Hue Sproj Hlen Hw) as [-> _].
    rewrite He. unfold replace_unconditioned.
    destruct Sproj as [HBp _].
    destruct (Nat.eq_dec Bp 1) as [E1 | E1].
    + right. repeat split; try assumption.
      destruct (draws_of g (size0 proj)) as [|d [|d' u]]; simpl in Hlen; try lia.
      destruct proj as [|m [|m' proj]]; simpl in HBp; try lia.
      simpl. rewrite map2_length_same; now rewrite !repeat_length.
    + left.
      rewrite (expand_not_singleton _ (draws_of g (size0 proj)))
        by (rewrite Hlen; exact E1).
      rewrite (expand_not_singleton _ proj) by (rewrite HBp; exact E1).
      rewrite map2_length_same; [exact Hlen|].
      rewrite Hlen. symmetry. exact HBp.
  - apply ret_Ok in Hw as [-> _]. left. rewrite He. apply Sproj.
  - apply ret_Ok in Hw as [-> _]. left. rewrite He. apply Sproj.
Qed.

(** X14.  Batch size of the prior.  For a model with the constructor's
    geometry and a non-empty batch [x], a conditioned call of [forward]
    that returns was given a prior of the batch size of [x] -- or, in
    training mode with a positive [unconditioned_percentage] only, a prior
    of batch size one, which the conditioning mask stretches over the
    batch.  Outside training mode a prior of any other batch size than
    that of [x] makes the call raise. *)
Theorem prior_batch_size
        (kw : TransformerDiffusion.kwargs) (self : TransformerDiffusion.t)
        (Hgeo : model_geometry kw self)
        (x pr : Tensor3) (timesteps : list Z) (g : Rng) (o : Tensor3) (g' : Rng)
        (B C L Bp Cp S : nat)
        (Hx : is_shape B C L x = true)
        (Hpr : is_shape Bp Cp S pr = true)
        (Hrun : TransformerDiffusion.forward self x timesteps (Some pr) false g
                = Ok (o, g')) :
  Bp = B
  \/ (Bp = 1%nat /\ TransformerDiffusion.training self = true
      /\ Qcltb 0 (TransformerDiffusion.unconditioned_percentage self) = true).
Proof.
  apply is_shape_iff in Hx, Hpr.
  unfold TransformerDiffusion.forward in Hrun.
  apply bind_Ok in Hrun as (o' & g1 & Hhead & _).
  unfold TransformerDiffusion.out_head_output in Hhead.
  apply bind_Ok in Hhead as (ce & g2 & Hce & Hhead).
  apply bind_Ok in Hhead as (h & g3 & Htrunk & _).
  unfold TransformerDiffusion.trunk in Htrunk.
  apply bind_Ok in Htrunk as (te & g4 & _ & Htrunk).
  apply bind_Ok in Htrunk as (xe & g5 & Hxe & Htrunk).
  apply lift_Ok in Hxe as [Hxe ->].
  apply bind_Ok in Htrunk as (xc & g6 & Hxc & _).
  apply lift_Ok in Hxc as [Hxc _].
  apply cat_dim1_batch in Hxc. unfold size0 in Hxc.
  apply Conv1d_forward_channels in Hxe as [Hlen _].
  destruct Hx as [HB _].
  destruct (code_embedding_batch _ _ _ _ _ _ _ _ _ _ Hgeo Hpr Hce)
    as [E | (E1 & Ht & Hp & _)].
  - left. congruence.
  - right. auto.
Qed.

Lemma SubBlock_forward_eval (sb : SubBlock.t) (x blk_emb : Tensor3) :
  Dropout.training (SubBlock.dropout sb)
  && Qcltb 0 (Dropout.p (SubBlock.dropout sb)) = false ->
  SubBlock.forward (SubBlock.eval sb) x blk_emb = SubBlock.forward sb x blk_emb.
Proof.
  intros Hd.
  unfold SubBlock.forward, SubBlock.attn_branch, Dropout.forward.
  cbn [SubBlock.eval SubBlock.dropout SubBlock.attnorm SubBlock.ff SubBlock.ffnorm
       SubBlock.attn SubBlock.mask SubBlock.blk_emb_proj
       Dropout.eval Dropout.training Dropout.p andb].
  rewrite Hd. reflexivity.
Qed.

Lemma ConcatAttentionBlock_forward_eval (blk : ConcatAttentionBlock.t)
      (x blk_emb : Tensor3) :
  Dropout.training (SubBlock.dropout (ConcatAttentionBlock.block1 blk))
  && Qcltb 0 (Dropout.p (SubBlock.dropout (ConcatAttentionBlock.block1 blk)))
  = false ->
  Dropout.training (SubBlock.dropout (ConcatAttentionBlock.block2 blk))
  && Qcltb 0 (Dropout.p (SubBlock.dropout (ConcatAttentionBlock.block2 blk)))
  = false ->
  ConcatAttentionBlock.forward (ConcatAttentionBlock.eval blk) x blk_emb
  = ConcatAttentionBlock.forward blk x blk_emb.
Proof.
  intros H1 H2. unfold ConcatAttentionBlock.forward.
  cbn [ConcatAttentionBlock.eval ConcatAttentionBlock.prenorm
       ConcatAttentionBlock.block1 ConcatAttentionBlock.block2
       ConcatAttentionBlock.out].
  unfold SubBlock.forward, SubBlock.attn_branch, Dropout.forward.
  cbn [SubBlock.eval SubBlock.dropout SubBlock.attnorm SubBlock.ff SubBlock.ffnorm
       SubBlock.attn SubBlock.mask SubBlock.blk_emb_proj
       Dropout.eval Dropout.training Dropout.p andb].
  rewrite H1, H2. reflexivity.
Qed.

Lemma run_layers_eval (ls : list ConcatAttentionBlock.t) :
  forallb (fun lyr =>
             negb (Dropout.training
                     (SubBlock.dropout (ConcatAttentionBlock.block1 lyr))
                   && Qcltb 0 (Dropout.p
                                 (SubBlock.dropout (ConcatAttentionBlock.block1 lyr))))
             && negb (Dropout.training
                        (SubBlock.dropout (ConcatAttentionBlock.block2 lyr))
                      && Qcltb 0 (Dropout.p
                                    (SubBlock.dropout
                                       (ConcatAttentionBlock.block2 lyr))))) ls
  = true ->
  forall x blk_emb g,
    TransformerDiffusion.run_layers (map ConcatAttentionBlock.eval ls) x blk_emb g
    = TransformerDiffusion.run_layers ls x blk_emb g.
Proof.
  induction ls as [|lyr ls IH]; simpl; intros Hall x blk_emb g; [reflexivity|].
  apply andb_true_iff in Hall as [Hl Hls].
  apply andb_true_iff in Hl as [H1 H2].
  apply negb_true_iff in H1, H2.
  unfold checkpoint. rewrite (ConcatAttentionBlock_forward_eval _ _ _ H1 H2).
  apply bind_ext. intros x' g1. now apply IH.
Qed.

(** X15.  What [eval()] changes.  When no dropout layer is active (as in a
    model built with [dropout=0]), switching the model to evaluation mode
    changes nothing but the conditioning mask: a [conditioning_free] call
    computes the same result in both modes, from every generator state,
    and so does a conditioned call when [unconditioned_percentage] is not
    positive. *)
Theorem eval_changes_only_the_conditioning_mask
        (self : TransformerDiffusion.t)
        (Hdrop : dropout_inactive self = true)
        (x : Tensor3) (timesteps : list Z) (prior : option Tensor3) (g : Rng) :
  TransformerDiffusion.forward (TransformerDiffusion.eval self)
                               x timesteps prior true g
  = TransformerDiffusion.forward self x timesteps prior true g
  /\ (Qcltb 0 (TransformerDiffusion.unconditioned_percentage self) = false ->
      TransformerDiffusion.forward (TransformerDiffusion.eval self)
                                   x timesteps prior false g
      = TransformerDiffusion.forward self x timesteps prior false g).
Proof.
  assert (Hrest : forall conditioning_free,
             (forall g0,
                 TransformerDiffusion.code_embedding (TransformerDiffusion.eval self)
                                                     x prior conditioning_free g0
                 = TransformerDiffusion.code_embedding self x prior
                                                       conditioning_free g0) ->
             TransformerDiffusion.forward (TransformerDiffusion.eval self)
                                          x timesteps prior conditioning_free g
             = TransformerDiffusion.forward self x timesteps prior
                                            conditioning_free g).
  { intros cf Hce.
    unfold TransformerDiffusion.forward, TransformerDiffusion.out_head_output.
    change (TransformerDiffusion.out (TransformerDiffusion.eval self))
      with (TransformerDiffusion.out self).
    change (TransformerDiffusion.unconditioned_embedding
              (TransformerDiffusion.eval self))
      with (TransformerDiffusion.unconditioned_embedding self).
    apply bind_cong_l.
    unfold bind at 1 3. rewrite Hce.
    destruct (TransformerDiffusion.code_embedding self x prior cf g)
      as [[ce g1]|e]; [|reflexivity].
    apply bind_cong_l.
    unfold TransformerDiffusion.trunk.
    apply bind_ext. intros te g2. apply bind_ext. intros xe g3.
    apply bind_ext. intros xc g4. apply bind_ext. intros xi g5.
    apply run_layers_eval. exact Hdrop. }
  split.
  - apply Hrest. reflexivity.
  - intros Hpct. apply Hrest. intros g0.
    unfold TransformerDiffusion.code_embedding.
    cbn [TransformerDiffusion.eval TransformerDiffusion.training
         TransformerDiffusion.unconditioned_percentage
         TransformerDiffusion.input_converter
         TransformerDiffusion.unconditioned_embedding].
    rewrite Hpct, !andb_false_r. reflexivity.
Qed.

End PriorBatch.

(* ===================================================================== *)
(** ** Concrete runs *)
(* ===================================================================== *)

(** The small model is what the constructor returns. *)
Lemma small_model_built :
  TransformerDiffusion.init Exec.small_kwargs Exec.rng0
  = Ok (Exec.small_model, Exec.small_rng).
Proof. vm_compute. reflexivity. Qed.

Lemma small_block_built :
  ConcatAttentionBlock.init 8 8 1 0 true Exec.rng0
  = Ok (Exec.small_block, Exec.small_block_rng).
Proof. vm_compute. reflexivity. Qed.

Lemma small_subblock_built :
  SubBlock.init 8 8 8 1 0 true Exec.rng0
  = Ok (Exec.small_subblock, Exec.small_subblock_rng).
Proof. vm_compute. reflexivity. Qed.

(** C1, at the small model in training mode, a batch of two and draws 0 and
    1/10 against a percentage of 1/10: the forward pass returns; the first
    element of its conditioning embedding is replaced, the second is
    kept. *)
Lemma conditioning_dropout_witness :
  map (fun d => Qcltb d (TransformerDiffusion.unconditioned_percentage
                           Exec.small_model))
      (draws_of Exec.rng1 2) = [true; false]
  /\ exists o g',
      TransformerDiffusion.forward Exec.small_model Exec.x1 [5%Z; 7%Z]
                                   (Some Exec.prior1) false Exec.rng1
      = Ok (o, g')
      /\ TransformerDiffusion.code_embedding Exec.small_model Exec.x1
           (Some Exec.prior1) false Exec.rng1
         = Ok (Exec.code_emb1, advance 2 Exec.rng1)
      /\ Exec.code_emb1
         = map2 (fun d m =>
                   if Qcltb d (TransformerDiffusion.unconditioned_percentage
                                 Exec.small_model)
                   then unconditioned_rows 4
                          (data (TransformerDiffusion.unconditioned_embedding
                                   Exec.small_model))
                   else map (nearest_row 4) m)
                (draws_of Exec.rng1 2) Exec.proj1
      /\ (h <- TransformerDiffusion.trunk Exec.small_model Exec.x1 [5%Z; 7%Z]
                                         Exec.code_emb1 ;;
          lift (TransformerDiffusion.out_forward
                  (TransformerDiffusion.out Exec.small_model) h))
           (advance 2 Exec.rng1)
         = Ok (o, g').
Proof.
  assert (Hce : TransformerDiffusion.code_embedding
                  Exec.small_model Exec.x1 (Some Exec.prior1) false Exec.rng1
                = Ok (Exec.code_emb1, advance 2 Exec.rng1))
    by (vm_compute; reflexivity).
  assert (Hemb : is_shape 1 8 1
                   (data (TransformerDiffusion.unconditioned_embedding
                            Exec.small_model)) = true)
    by (vm_compute; reflexivity).
  assert (Hproj : Conv1d.forward
                    (TransformerDiffusion.input_converter Exec.small_model)
                    Exec.prior1 = Ok Exec.proj1)
    by (vm_compute; reflexivity).
  assert (Hshape : is_shape 2 8 2 Exec.proj1 = true) by (vm_compute; reflexivity).
  split; [vm_compute; reflexivity|].
  destruct (TransformerDiffusion.forward Exec.small_model Exec.x1 [5%Z; 7%Z]
                                         (Some Exec.prior1) false Exec.rng1)
    as [[o g']|err] eqn:E; [|vm_compute in E; discriminate].
  exists o, g'. split; [reflexivity|]. split; [exact Hce|].
  destruct (conditioning_dropout_replaces_batch_elements
              (F := Exec.framework)
              Exec.small_model Exec.x1 Exec.prior1 Exec.proj1 o [5%Z; 7%Z]
              Exec.rng1 g' 2 8 2
              eq_refl eq_refl Hemb Hproj Hshape E)
    as (e & Hce' & _ & He & Hsame & Hout).
  rewrite Hce in Hce'. injection Hce' as <-.
  destruct (Hsame eq_refl) as [Eu Ek].
  rewrite Eu, Ek in He. split; [exact He | exact Hout].
Defined.


(** C3 as stated fails: in the block built with [trunk_dim = 8] and
    [contraction_dim = 8], the projection inside [block2] returns 24
    channels, not 8. *)
Lemma block2_projection_is_wider_than_trunk :
  ConcatAttentionBlock.init 8 8 1 0 true Exec.rng0
  = Ok (Exec.small_block, Exec.small_block_rng)
  /\ exists y,
      Conv1d.forward
        (SubBlock.blk_emb_proj (ConcatAttentionBlock.block2 Exec.small_block))
        Exec.blk_emb1 = Ok y
      /\ size1 y = 24%nat
      /\ ~ Forall (fun m => length m = 8%nat) y.
Proof.
  split; [exact small_block_built|].
  destruct (Conv1d.forward
              (SubBlock.blk_emb_proj (ConcatAttentionBlock.block2 Exec.small_block))
              Exec.blk_emb1) as [y|e] eqn:E; [|vm_compute in E; discriminate].
  exists y. split; [reflexivity|].
  apply Conv1d_forward_channels in E as [Hlen Hch].
  destruct y as [|m y]; [discriminate|].
  inversion Hch as [|? ? Hm _]; subst.
  split; [exact Hm|].
  intros Hall. inversion Hall as [|? ? Hm8 _]; subst.
  rewrite Hm in Hm8. discriminate.
Qed.

(** C3 as amended, at the same block. *)
Lemma blk_emb_projection_channels_witness :
  ConcatAttentionBlock.init 8 8 1 0 true Exec.rng0
  = Ok (Exec.small_block, Exec.small_block_rng)
  /\ (forall blk_emb y,
         (Conv1d.forward
            (SubBlock.blk_emb_proj (ConcatAttentionBlock.block1 Exec.small_block))
            blk_emb = Ok y ->
          Forall (fun m => length m = 8%nat) y)
         /\ (Conv1d.forward
               (SubBlock.blk_emb_proj (ConcatAttentionBlock.block2 Exec.small_block))
               blk_emb = Ok y ->
             Forall (fun m => length m = (8 + 8 * 2)%nat) y)).
Proof.
  split; [exact small_block_built|].
  exact (blk_emb_projection_channels (F := Exec.framework) 8 8 1 0 true Exec.rng0
           Exec.small_block Exec.small_block_rng small_block_built).
Defined.

(** C7, at the small model: its unconditioned embedding has shape (1, 8, 1)
    and is repeated over the batch and the positions of [x1]. *)
Lemma conditioning_free_witness :
  is_shape 1 8 1
    (data (TransformerDiffusion.unconditioned_embedding Exec.small_model)) = true
  /\ TransformerDiffusion.code_embedding Exec.small_model Exec.x1 None true Exec.rng0
     = Ok (repeat (unconditioned_rows 4
                     (data (TransformerDiffusion.unconditioned_embedding
                              Exec.small_model))) 2,
           Exec.rng0).
Proof.
  assert (Hemb : is_shape 1 8 1
                   (data (TransformerDiffusion.unconditioned_embedding
                            Exec.small_model)) = true)
    by (vm_compute; reflexivity).
  split; [exact Hemb|].
  destruct (conditioning_free_ignores_prior (F := Exec.framework)
              Exec.small_model Exec.x1 [5%Z]) as (_ & Hcode & Hrep).
  rewrite Hcode. rewrite (Hrep 8%nat Hemb). reflexivity.
Defined.

(** X16, at the small model: its one block returns the trunk tensor it is
    given. *)
Lemma fresh_blocks_return_their_input_witness :
  TransformerDiffusion.init Exec.small_kwargs Exec.rng0
  = Ok (Exec.small_model, Exec.small_rng)
  /\ (exists lyr y g',
         TransformerDiffusion.layers Exec.small_model = [lyr]
         /\ ConcatAttentionBlock.forward lyr Exec.trunk1 Exec.blk_emb1 Exec.rng0
            = Ok (y, g')
         /\ y = Exec.trunk1).
Proof.
  split; [exact small_model_built|].
  destruct (fresh_blocks_return_their_input (F := Exec.framework)
              Exec.small_kwargs Exec.rng0 Exec.small_rng Exec.small_model
              small_model_built) as (_ & Hblock & _).
  destruct (TransformerDiffusion.layers Exec.small_model) as [|lyr [|lyr' ls]] eqn:El;
    try (vm_compute in El; discriminate).
  destruct (ConcatAttentionBlock.forward lyr Exec.trunk1 Exec.blk_emb1 Exec.rng0)
    as [[y g']|e] eqn:E.
  - exists lyr, y, g'. split; [reflexivity|]. split; [exact E|].
    exact (Hblock lyr Exec.trunk1 Exec.blk_emb1 1%nat 8%nat 3%nat 8%nat 1%nat
                  Exec.rng0 y g' (or_introl eq_refl) eq_refl eq_refl E).
  - injection El as <-. vm_compute in E. discriminate.
Defined.

(** The constructor reaches the freeze branch with the small configuration
    and leaves it with [AttributeError]. *)
Lemma freeze_except_code_converters_witness :
  TransformerDiffusion.kw_freeze_except_code_converters Exec.frozen_kwargs = true
  /\ TransformerDiffusion.init Exec.frozen_kwargs Exec.rng0 = Raise AttributeError.
Proof.
  split; [reflexivity|].
  destruct (freeze_except_code_converters_raises (F := Exec.framework)
              Exec.frozen_kwargs Exec.rng0 eq_refl) as (_ & Hraise & _).
  apply (Hraise Exec.small_model Exec.small_rng).
  change (TransformerDiffusion.build Exec.small_kwargs Exec.rng0
          = Ok (Exec.small_model, Exec.small_rng)).
  apply init_Ok. exact small_model_built.
Defined.

(** C9 as stated fails: with [model_channels=12] (and every other argument
    at its default) the constructor raises [ValueError] in the first block's
    [nn.GroupNorm(8, 12)], before it reaches the freeze branch. *)
Lemma odd_width_raises_ValueError :
  TransformerDiffusion.kw_freeze_except_code_converters Exec.odd_width_kwargs = true
  /\ TransformerDiffusion.init Exec.odd_width_kwargs Exec.rng0 = Raise ValueError.
Proof.
  split; [reflexivity|].
  unfold TransformerDiffusion.init, bind.
  rewrite build_ValueError; [reflexivity | simpl; discriminate | simpl; lia].
Qed.

(** C10, at the small model after [eval()]: the forward pass returns from
    two different generator states, with the same output. *)
Lemma eval_mode_witness :
  in_eval_mode (TransformerDiffusion.eval Exec.small_model) = true
  /\ exists o g1' g2',
      TransformerDiffusion.forward (TransformerDiffusion.eval Exec.small_model)
                                   Exec.x1 [5%Z; 7%Z] (Some Exec.prior1) false
                                   Exec.rng0
      = Ok (o, g1')
      /\ TransformerDiffusion.forward (TransformerDiffusion.eval Exec.small_model)
                                      Exec.x1 [5%Z; 7%Z] (Some Exec.prior1) false
                                      Exec.rng1
         = Ok (o, g2').
Proof.
  assert (Heval : in_eval_mode (TransformerDiffusion.eval Exec.small_model) = true)
    by apply eval_in_eval_mode.
  split; [exact Heval|].
  destruct (eval_mode_is_deterministic (F := Exec.framework)
              (TransformerDiffusion.eval Exec.small_model) Exec.x1 [5%Z; 7%Z]
              Heval)
    as (_ & Hsame & _).
  destruct (TransformerDiffusion.forward
              (TransformerDiffusion.eval Exec.small_model)
              Exec.x1 [5%Z; 7%Z] (Some Exec.prior1) false Exec.rng0)
    as [[o1 g1']|err] eqn:E1; [|vm_compute in E1; discriminate].
  destruct (TransformerDiffusion.forward
              (TransformerDiffusion.eval Exec.small_model)
              Exec.x1 [5%Z; 7%Z] (Some Exec.prior1) false Exec.rng1)
    as [[o2 g2']|err] eqn:E2; [|vm_compute in E2; discriminate].
  exists o1, g1', g2'. split; [reflexivity|].
  now rewrite (Hsame (Some Exec.prior1) Exec.rng0 Exec.rng1 o1 o2 g1' g2' E1 E2).
Defined.

Lemma wide_block_built :
  ConcatAttentionBlock.init 16 8 1 0 true Exec.rng0
  = Ok (Exec.wide_block, Exec.wide_block_rng).
Proof. vm_compute. reflexivity. Qed.

(** X1, at the sub-block of eight channels: 24 channels come out, the
    middle eight are the input. *)
Lemma subblock_output_carries_its_input_witness :
  subblock_geometry 8 8 8 Exec.small_subblock
  /\ exists h g',
      SubBlock.forward Exec.small_subblock Exec.trunk1 Exec.blk_emb1 Exec.rng0
      = Ok (h, g')
      /\ is_shape 1 24 3 h = true
      /\ map (fun m => firstn 8 (skipn 8 m)) h = Exec.trunk1.
Proof.
  assert (Hgeo : subblock_geometry 8 8 8 Exec.small_subblock)
    by exact (SubBlock_init_Ok _ _ _ _ _ _ _ _ _ small_subblock_built).
  split; [exact Hgeo|].
  destruct (SubBlock.forward Exec.small_subblock Exec.trunk1 Exec.blk_emb1 Exec.rng0)
    as [[h g']|e] eqn:E; [|vm_compute in E; discriminate].
  exists h, g'. split; [reflexivity|].
  destruct (subblock_output_carries_its_input (F := Exec.framework)
              8 8 8 Exec.small_subblock Hgeo Exec.trunk1 Exec.blk_emb1 h
              1 8 3 1 8 1 Exec.rng0 g' eq_refl eq_refl (le_n 1) E)
    as (Hs & Hm & _).
  split; [exact Hs | exact Hm].
Defined.

(** X2, at the block of sixteen trunk channels. *)
Lemma concat_attention_block_keeps_shape_witness :
  block_geometry 16 8 Exec.wide_block
  /\ exists y g',
      ConcatAttentionBlock.forward Exec.wide_block Exec.trunk2 Exec.blk_emb2
                                   Exec.rng0 = Ok (y, g')
      /\ is_shape 1 16 3 y = true.
Proof.
  assert (Hgeo : block_geometry 16 8 Exec.wide_block)
    by exact (block_initialised_geometry _ _ _
                (ConcatAttentionBlock_init_Ok _ _ _ _ _ _ _ _ wide_block_built)).
  split; [exact Hgeo|].
  destruct (ConcatAttentionBlock.forward Exec.wide_block Exec.trunk2
                                         Exec.blk_emb2 Exec.rng0)
    as [[y g']|e] eqn:E; [|vm_compute in E; discriminate].
  exists y, g'. split; [reflexivity|].
  destruct (concat_attention_block_keeps_shape (F := Exec.framework)
              16 8 Exec.wide_block Hgeo Exec.trunk2 Exec.blk_emb2 y
              1 16 3 1 16 1 Exec.rng0 g' eq_refl eq_refl (le_n 1) E)
    as (Hs & _).
  exact Hs.
Defined.

(** X3, at the block of sixteen trunk channels and a contraction of
    eight: [out] reads the normalised input and the two feed-forward
    branches. *)
Lemma out_convolution_reads_behind_the_attention_branches_witness :
  block_geometry 16 8 Exec.wide_block
  /\ (2 * 8 <= 16)%nat
  /\ exists y g' n f1 f2 z,
      ConcatAttentionBlock.forward Exec.wide_block Exec.trunk2 Exec.blk_emb2
                                   Exec.rng0 = Ok (y, g')
      /\ GroupNorm.forward (ConcatAttentionBlock.prenorm Exec.wide_block)
                           Exec.trunk2 = Ok n
      /\ Conv1d.forward (ConcatAttentionBlock.out Exec.wide_block)
           (map2 (@app Vec) (map2 (@app Vec) (slice_dim1_from (16 - 2 * 8) n) f1) f2)
         = Ok z
      /\ y = map2 (map2 (map2 Qcplus)) z Exec.trunk2.
Proof.
  assert (Hgeo : block_geometry 16 8 Exec.wide_block)
    by exact (block_initialised_geometry _ _ _
                (ConcatAttentionBlock_init_Ok _ _ _ _ _ _ _ _ wide_block_built)).
  split; [exact Hgeo|]. split; [apply le_n|].
  destruct (ConcatAttentionBlock.forward Exec.wide_block Exec.trunk2
                                         Exec.blk_emb2 Exec.rng0)
    as [[y g']|e] eqn:E; [|vm_compute in E; discriminate].
  destruct (out_convolution_reads_behind_the_attention_branches
              (F := Exec.framework)
              16 8 Exec.wide_block Hgeo (le_n 16) Exec.trunk2 Exec.blk_emb2 y
              1 16 3 1 16 1 Exec.rng0 g' eq_refl eq_refl (le_n 1) E)
    as (n & a1 & f1 & a2 & f2 & z & g1 & g2 & Hn & _ & _ & _ & _ & _ & _ & _
        & Hz & Ey).
  exists y, g', n, f1, f2, z. repeat split; assumption.
Defined.

Lemma small_wrapper_built :
  TransformerDiffusionWithCheaterLatent.init None true Exec.small_kwargs Exec.rng0
  = Ok (Exec.small_wrapper, Exec.small_wrapper_rng).
Proof. vm_compute. reflexivity. Qed.

(** X4, at the small model in training mode: a batch of two, two channels
    and four positions goes in, a tensor of the same batch, the two output
    channels and four positions comes out. *)
Lemma forward_output_shape_witness :
  model_geometry Exec.small_kwargs Exec.small_model
  /\ exists o g',
      TransformerDiffusion.forward Exec.small_model Exec.x1 [5%Z; 7%Z]
                                   (Some Exec.prior1) false Exec.small_rng
      = Ok (o, g')
      /\ is_shape 2 2 4 o = true.
Proof.
  destruct (forward_output_shape (F := Exec.framework)) as [Hgeo Hshape].
  specialize (Hgeo _ _ _ _ small_model_built).
  split; [exact Hgeo|].
  destruct (TransformerDiffusion.forward Exec.small_model Exec.x1 [5%Z; 7%Z]
                                         (Some Exec.prior1) false Exec.small_rng)
    as [[o g']|e] eqn:E; [|vm_compute in E; discriminate].
  exists o, g'. split; [reflexivity|].
  destruct (Hshape Exec.small_kwargs Exec.small_model Exec.x1 [5%Z; 7%Z]
                   (Some Exec.prior1) false Exec.small_rng o g' 2%nat 2%nat 4%nat
                   Hgeo eq_refl (le_S _ _ (le_n 1))) as (Ho & _); [|exact E|exact Ho].
  intros pr Hpr. injection Hpr as <-. exists 2%nat, 2%nat, 2%nat. reflexivity.
Defined.

(** X6, at the wrapper the constructor has just returned. *)
Lemma before_step_without_gradients_witness :
  TransformerDiffusionWithCheaterLatent.init None true Exec.small_kwargs Exec.rng0
  = Ok (Exec.small_wrapper, Exec.small_wrapper_rng)
  /\ TransformerDiffusionWithCheaterLatent.before_step Exec.small_wrapper 1%Z
     = Exec.small_wrapper.
Proof.
  split; [exact small_wrapper_built|].
  destruct (before_step_without_gradients (F := Exec.framework)) as [Hnoop Hinit].
  apply Hnoop. exact (Hinit _ _ _ _ _ _ small_wrapper_built).
Defined.

(** X9, at the small model in training mode with a percentage of 1/10 and a
    batch of one: with the draw 0 the embedding is the conditioning-free
    one, with the draw 1/10 it is the evaluation-mode one. *)
Lemma conditioning_dropout_extremes_witness :
  (exists e g',
      TransformerDiffusion.code_embedding Exec.small_model Exec.x0 (Some Exec.x0)
                                          false Exec.rng1 = Ok (e, g')
      /\ map (fun d => Qcltb d (TransformerDiffusion.unconditioned_percentage
                                  Exec.small_model))
             (draws_of Exec.rng1 1) = [true]
      /\ TransformerDiffusion.code_embedding Exec.small_model Exec.x0 None true
                                             Exec.rng0 = Ok (e, Exec.rng0))
  /\ (exists e g',
         TransformerDiffusion.code_embedding Exec.small_model Exec.x0 (Some Exec.x0)
                                             false Exec.rng2 = Ok (e, g')
         /\ map (fun d => Qcltb d (TransformerDiffusion.unconditioned_percentage
                                     Exec.small_model))
                (draws_of Exec.rng2 1) = [false]
         /\ TransformerDiffusion.code_embedding
              (TransformerDiffusion.eval Exec.small_model) Exec.x0 (Some Exec.x0)
              false Exec.rng0 = Ok (e, Exec.rng0)).
Proof.
  assert (Hemb : is_shape 1 8 1
                   (data (TransformerDiffusion.unconditioned_embedding
                            Exec.small_model)) = true)
    by (vm_compute; reflexivity).
  destruct (Conv1d.forward (TransformerDiffusion.input_converter Exec.small_model)
                           Exec.x0) as [proj|e0] eqn:Hproj;
    [|vm_compute in Hproj; discriminate].
  assert (Hshape : is_shape 1 8 2 proj = true).
  { vm_compute in Hproj. injection Hproj as <-. vm_compute. reflexivity. }
  split.
  - destruct (TransformerDiffusion.code_embedding Exec.small_model Exec.x0
                (Some Exec.x0) false Exec.rng1) as [[e g']|e1] eqn:E;
      [|vm_compute in E; discriminate].
    exists e, g'. split; [reflexivity|].
    assert (Hd : map (fun d => Qcltb d (TransformerDiffusion.unconditioned_percentage
                                          Exec.small_model))
                     (draws_of Exec.rng1 1) = [true])
      by (vm_compute; reflexivity).
    split; [exact Hd|].
    destruct (conditioning_dropout_extremes (F := Exec.framework)
                Exec.small_model Exec.x0 Exec.x0 proj e Exec.rng1 g' 1 8 2
                eq_refl eq_refl Hemb Hproj Hshape eq_refl E) as [Hall _].
    apply Hall.
    change (draws_of Exec.rng1 1) with [stream Exec.rng1 2020].
    constructor; [vm_compute; reflexivity | constructor].
  - destruct (TransformerDiffusion.code_embedding Exec.small_model Exec.x0
                (Some Exec.x0) false Exec.rng2) as [[e g']|e1] eqn:E;
      [|vm_compute in E; discriminate].
    exists e, g'. split; [reflexivity|].
    assert (Hd : map (fun d => Qcltb d (TransformerDiffusion.unconditioned_percentage
                                          Exec.small_model))
                     (draws_of Exec.rng2 1) = [false])
      by (vm_compute; reflexivity).
    split; [exact Hd|].
    destruct (conditioning_dropout_extremes (F := Exec.framework)
                Exec.small_model Exec.x0 Exec.x0 proj e Exec.rng2 g' 1 8 2
                eq_refl eq_refl Hemb Hproj Hshape eq_refl E) as [_ Hnone].
    apply Hnone.
    change (draws_of Exec.rng2 1) with [stream Exec.rng2 2021].
    constructor; [vm_compute; reflexivity | constructor].
Defined.

(** X10, at the small model after [eval()]: a prior of two positions and an
    [x] of four, every projected entry is repeated twice. *)
Lemma code_embedding_repeats_each_latent_witness :
  TransformerDiffusion.code_embedding (TransformerDiffusion.eval Exec.small_model)
                                      Exec.x1 (Some Exec.prior1) false Exec.rng0
  = Ok (map (map (upsample 2)) Exec.proj1, Exec.rng0).
Proof.
  assert (Hproj : Conv1d.forward
                    (TransformerDiffusion.input_converter
                       (TransformerDiffusion.eval Exec.small_model))
                    Exec.prior1 = Ok Exec.proj1)
    by (vm_compute; reflexivity).
  assert (Hshape : is_shape 2 8 2 Exec.proj1 = true) by (vm_compute; reflexivity).
  exact (proj1 (code_embedding_repeats_each_latent (F := Exec.framework)
                  (TransformerDiffusion.eval Exec.small_model)
                  Exec.x1 Exec.prior1 Exec.proj1 Exec.rng0 1 2 8 2
                  eq_refl Hproj Hshape
                  (le_S _ _ (le_n 1)) (le_S _ _ (le_S _ _ (le_S _ _ (le_S _ _
                     (le_S _ _ (le_S _ _ (le_S _ _ (le_n 1))))))))
                  (le_S _ _ (le_n 1)) eq_refl eq_refl)).
Defined.

(** X11, at a checkpoint of five entries: the two entries of the encoder
    are kept under their full names; ["encoders"] and
    ["diff.encoder_proj.bias"] are not. *)
Lemma extract_cheater_encoder_witness :
  NoDup (map fst Exec.checkpoint1)
  /\ extract_cheater_encoder Exec.checkpoint1
     = [ ("encoder.conv.weight"%string, 2%nat);
         ("encoder.conv.bias"%string, 4%nat) ]
  /\ dict_get "encoder.conv.bias" (extract_cheater_encoder Exec.checkpoint1)
     = Some 4%nat
  /\ dict_get "encoders" (extract_cheater_encoder Exec.checkpoint1) = None.
Proof.
  assert (Hkeys : NoDup (map fst Exec.checkpoint1)).
  { simpl. repeat constructor; simpl; intuition discriminate. }
  split; [exact Hkeys|].
  destruct (extract_cheater_encoder_keeps_encoder_entries Exec.checkpoint1 Hkeys)
    as (Hfilter & Hget & _ & _).
  split; [rewrite Hfilter; reflexivity|].
  split; rewrite Hget; reflexivity.
Defined.

(** X12, at the small configuration. *)
Lemma constructor_requirements_witness :
  TransformerDiffusion.init Exec.small_kwargs Exec.rng0
  = Ok (Exec.small_model, Exec.small_rng)
  /\ length (TransformerDiffusion.layers Exec.small_model) = 1%nat
  /\ (8 mod 8 = 0)%nat.
Proof.
  split; [exact small_model_built|].
  destruct (constructor_requirements (F := Exec.framework)
              Exec.small_kwargs Exec.rng0 Exec.small_rng Exec.small_model
              small_model_built) as (_ & Hlen & Hreq).
  split; [exact Hlen|].
  exact (proj1 (Hreq (le_n 1))).
Defined.

(** X13, at the small model, built with [dropout=0]: a conditioned
    training-mode call with a batch of one advances the generator by one
    draw. *)
Lemma forward_draws_only_the_conditioning_mask_witness :
  TransformerDiffusion.kw_dropout Exec.small_kwargs = 0
  /\ dropout_inactive Exec.small_model = true
  /\ exists o g',
      TransformerDiffusion.forward Exec.small_model Exec.x0 [5%Z] (Some Exec.x0)
                                   false Exec.small_rng = Ok (o, g')
      /\ g' = advance 1 Exec.small_rng.
Proof.
  destruct (forward_draws_only_the_conditioning_mask (F := Exec.framework))
    as [Hbuilt Hdraws].
  assert (Hd : dropout_inactive Exec.small_model = true)
    by exact (Hbuilt Exec.small_kwargs _ _ _ eq_refl small_model_built).
  split; [reflexivity|]. split; [exact Hd|].
  destruct (TransformerDiffusion.forward Exec.small_model Exec.x0 [5%Z]
                                         (Some Exec.x0) false Exec.small_rng)
    as [[o g']|e] eqn:E; [|vm_compute in E; discriminate].
  exists o, g'. split; [reflexivity|].
  destruct (Hdraws Exec.small_model Exec.x0 [5%Z] Hd) as (_ & Htrain & _).
  destruct (Conv1d.forward (TransformerDiffusion.input_converter Exec.small_model)
                           Exec.x0) as [proj|e0] eqn:Hproj;
    [|vm_compute in Hproj; discriminate].
  rewrite (Htrain Exec.x0 proj Exec.small_rng o g' eq_refl eq_refl Hproj E).
  f_equal. apply Conv1d_forward_channels in Hproj as [Hlen _]. exact Hlen.
Defined.

(** X14, at the small model in training mode: a prior of batch size one is
    accepted with a batch [x] of two. *)
Lemma prior_batch_size_witness :
  model_geometry Exec.small_kwargs Exec.small_model
  /\ is_shape 2 2 4 Exec.x1 = true
  /\ is_shape 1 2 2 Exec.x0 = true
  /\ exists o g',
      TransformerDiffusion.forward Exec.small_model Exec.x1 [5%Z; 7%Z]
                                   (Some Exec.x0) false Exec.small_rng
      = Ok (o, g')
      /\ (1%nat = 2%nat
          \/ (1%nat = 1%nat
              /\ TransformerDiffusion.training Exec.small_model = true
              /\ Qcltb 0 (TransformerDiffusion.unconditioned_percentage
                            Exec.small_model) = true)).
Proof.
  assert (Hgeo : model_geometry Exec.small_kwargs Exec.small_model)
    by exact (build_geometry _ _ _ _ (init_Ok _ _ _ _ small_model_built)).
  split; [exact Hgeo|]. split; [reflexivity|]. split; [reflexivity|].
  destruct (TransformerDiffusion.forward Exec.small_model Exec.x1 [5%Z; 7%Z]
                                         (Some Exec.x0) false Exec.small_rng)
    as [[o g']|e] eqn:E; [|vm_compute in E; discriminate].
  exists o, g'. split; [reflexivity|].
  exact (prior_batch_size (F := Exec.framework)
           Exec.small_kwargs Exec.small_model Hgeo Exec.x1 Exec.x0 [5%Z; 7%Z]
           Exec.small_rng o g' 2 2 4 1 2 2 eq_refl eq_refl E).
Defined.

(** X15, at the small model, built with [dropout=0]. *)
Lemma eval_changes_only_the_conditioning_mask_witness :
  dropout_inactive Exec.small_model = true
  /\ TransformerDiffusion.forward (TransformerDiffusion.eval Exec.small_model)
                                  Exec.x1 [5%Z; 7%Z] None true Exec.rng0
     = TransformerDiffusion.forward Exec.small_model
                                    Exec.x1 [5%Z; 7%Z] None true Exec.rng0.
Proof.
  assert (Hd : dropout_inactive Exec.small_model = true)
    by (vm_compute; reflexivity).
  split; [exact Hd|].
  exact (proj1 (eval_changes_only_the_conditioning_mask (F := Exec.framework)
                  Exec.small_model Hd Exec.x1 [5%Z; 7%Z] None Exec.rng0)).
Defined.
